(** * Shared scripts of the course site: quiz scoring, calculators, utilities

    A shallow embedding of [assets/js/shared-scripts.js].

    - JavaScript numbers are IEEE-754 binary64 values: Rocq's primitive
      [float], whose operations the kernel evaluates and whose laws are the
      ones of [FloatAxioms] (correct rounding to nearest-even, a single NaN).
    - JavaScript strings are sequences of UTF-16 code units ([list N]).
    - [AppState.quizScores] is a finite map from quiz identifiers to score
      records; the [answered] set of a record is a finite set.
    - The page is a forest of elements, each with an identity, so that a
      reference held by a handler keeps designating the same element while
      the tree around it changes.
    - Functions of the host (locale formatting, [Math.pow], case mapping)
      whose result the language leaves to the implementation are parameters
      of the definitions that call them. *)

From Stdlib Require Import ZArith List Bool Floats String Ascii DecimalString.
From stdpp Require Import gmap list.

Set Warnings "-inexact-float,-register-all".

(* ================================================================= *)
(** ** Strings *)

(** A string is its sequence of UTF-16 code units. *)
Abbreviation jsstring := (list N) (only parsing).

(** The code units of a literal written in the Basic Latin block. *)
Definition js (s : string) : jsstring :=
  map N_of_ascii (list_ascii_of_string s).

Arguments js : simpl never.

(** [WhiteSpace] and [LineTerminator] of ECMAScript, the code points that
    [String.prototype.trim] and [parseFloat] strip. *)
Definition isWhiteSpace (c : N) : bool :=
  ((9 <=? c) && (c <=? 13) || (c =? 32) || (c =? 160) || (c =? 5760)
   || (8192 <=? c) && (c <=? 8202) || (c =? 8232) || (c =? 8233)
   || (c =? 8239) || (c =? 8287) || (c =? 12288) || (c =? 65279))%N.

Fixpoint trimStart (s : jsstring) : jsstring :=
  match s with
  | c :: s' => if isWhiteSpace c then trimStart s' else s
  | [] => []
  end.

Definition trimEnd (s : jsstring) : jsstring :=
  rev (trimStart (rev s)).

(** [s.trim()] *)
Definition trim (s : jsstring) : jsstring :=
  trimEnd (trimStart s).

(** [String.prototype.toLowerCase] on the Basic Latin block: the letters
    [A]..[Z] go to [a]..[z].  This is the instance used to evaluate the quiz
    handlers on concrete pages; the handlers themselves take the case mapping
    as a parameter. *)
Definition latin_lower (c : N) : N :=
  if ((65 <=? c) && (c <=? 90))%N then (c + 32)%N else c.

Definition latin_toLowerCase (s : jsstring) : jsstring :=
  map latin_lower s.

(** [a || b] on values that are a string or [undefined]: the empty string
    and [undefined] are falsy. *)
Definition or_string (a : option jsstring) (b : jsstring) : jsstring :=
  match a with
  | Some (c :: s) => c :: s
  | _ => b
  end.

(* ================================================================= *)
(** ** Numbers *)

(** [a >= b]: false as soon as one side is NaN. *)
Definition js_ge (a b : float) : bool := (b <=? a)%float.

(** [a > b] *)
Definition js_gt (a b : float) : bool := (b <? a)%float.

(** [isNaN(x)] on a number. *)
Definition isNaN (x : float) : bool := is_nan x.

(** Truthiness of a number: everything but [0], [-0] and NaN. *)
Definition truthy_number (x : float) : bool :=
  negb (is_nan x || is_zero x).

(** [a || b] where [a] is a number or [undefined]. *)
Definition or_number (a : option float) (b : float) : float :=
  match a with
  | Some x => if truthy_number x then x else b
  | None => b
  end.

(** [Number.isInteger(x)]: finite, with no fractional part. *)
Definition Number_isInteger (x : float) : bool :=
  match Prim2SF x with
  | S754_zero _ => true
  | S754_finite _ m e =>
      (0 <=? e)%Z || (Z.pos m mod 2 ^ (- e) =? 0)%Z
  | _ => false
  end.

(* ================================================================= *)
(** ** Formatting utilities *)

(** The options object handed to [Number.prototype.toLocaleString]. *)
Inductive NumberFormatOptions : Type :=
  | FractionDigits (minimumFractionDigits maximumFractionDigits : nat)
  | CurrencyStyle (currency : jsstring).

(** The record returned by the calculators.  A field that a calculator does
    not set is [None]. *)
Record CalcResult : Type := mkResult {
  value : float;
  formatted : jsstring;
  isPositive : bool;
  profit : option jsstring;
  gain : option jsstring;
  percentage : option jsstring;
  interpretation : option jsstring
}.

Section Calculators.

(** [num.toLocaleString('en-US', options)] of the host. *)
Variable toLocaleString : float -> NumberFormatOptions -> jsstring.

(** [Math.pow] of the host. *)
Variable Math_pow : float -> float -> float.

(** [formatNumber(num, decimals = 2)] *)
Definition formatNumber (num : float) (decimals : option nat) : jsstring :=
  let decimals := default 2 decimals in
  if isNaN num then js "0.00"
  else toLocaleString num (FractionDigits decimals decimals).

(** [formatPercentage(num, decimals = 2)] *)
Definition formatPercentage (num : float) (decimals : option nat) : jsstring :=
  let decimals := default 2 decimals in
  if isNaN num then js "0.00%"
  else formatNumber num (Some decimals) ++ js "%".

(** [formatCurrency(num, currency = 'USD')] *)
Definition formatCurrency (num : float) (currency : option jsstring) : jsstring :=
  let currency := default (js "USD") currency in
  if isNaN num then js "$0.00"
  else toLocaleString num (CurrencyStyle currency).

(* ================================================================= *)
(** ** Calculators *)

(** [getSharpeInterpretation(sharpe)] *)
Definition getSharpeInterpretation (sharpe : float) : jsstring :=
  if (sharpe <? 0)%float then js "Poor - Returns below risk-free rate"
  else if (sharpe <? 1)%float then js "Acceptable - Moderate risk-adjusted returns"
  else if (sharpe <? 2)%float then js "Good - Strong risk-adjusted returns"
  else if (sharpe <? 3)%float then js "Very Good - Excellent risk-adjusted returns"
  else js "Exceptional - Outstanding risk-adjusted returns".

(** [calculateROI(initial, final)] *)
Definition calculateROI (initial final : float) : CalcResult :=
  let profit_ := (final - initial)%float in
  let roiPercent := ((profit_ / initial) * 100)%float in
  {| value := roiPercent;
     formatted := formatPercentage roiPercent None;
     profit := Some (formatCurrency profit_ None);
     isPositive := js_ge roiPercent 0;
     gain := None; percentage := None; interpretation := None |}.

(** [calculateSharpeRatio(returns, riskFree, stdDev)] *)
Definition calculateSharpeRatio (returns riskFree stdDev : float) : CalcResult :=
  let sharpe := ((returns - riskFree) / stdDev)%float in
  {| value := sharpe;
     formatted := formatNumber sharpe (Some 3);
     isPositive := js_ge sharpe 0;
     interpretation := Some (getSharpeInterpretation sharpe);
     profit := None; gain := None; percentage := None |}.

(** [calculateCompoundGrowth(principal, rate, time)] *)
Definition calculateCompoundGrowth (principal rate time : float) : CalcResult :=
  let finalAmount := (principal * Math_pow (1 + (rate / 100)) time)%float in
  let totalGain := (finalAmount - principal)%float in
  {| value := finalAmount;
     formatted := formatCurrency finalAmount None;
     gain := Some (formatCurrency totalGain None);
     isPositive := js_ge totalGain 0;
     profit := None; percentage := None; interpretation := None |}.

(** The object literal [zScores] of [calculateVaR], in source order.  Its
    keys are written as numbers; a number indexes the entry whose key it
    equals. *)
Definition zScores : list (float * float) :=
  [ (90, 1.28); (95, 1.645); (99, 2.33) ]%float.

(** [table[key]]: the value stored under [key], [undefined] when absent. *)
Fixpoint property (table : list (float * float)) (key : float) : option float :=
  match table with
  | (k, v) :: rest => if (k =? key)%float then Some v else property rest key
  | [] => None
  end.

(** [calculateVaR(value, confidence, volatility)] *)
Definition calculateVaR (value_ confidence volatility : float) : CalcResult :=
  let zScore := or_number (property zScores confidence) 1.645%float in
  let var95 := (value_ * volatility * zScore)%float in
  {| value := var95;
     formatted := formatCurrency var95 None;
     percentage := Some (formatPercentage ((var95 / value_) * 100)%float None);
     isPositive := false;
     profit := None; gain := None; interpretation := None |}.

End Calculators.

(** How [handleCalculatorInput] reads a field: [parseFloat(input.value) || 0],
    once [parseFloat] has produced [parsed]. *)
Definition calculatorInput (parsed : float) : float :=
  or_number (Some parsed) 0%float.

(** The z-score in the words of the specification: 1.28 at confidence 90,
    1.645 at 95, 2.33 at 99, and 1.645 for every other level. *)
Definition zScore_of (confidence : float) : float :=
  if (confidence =? 90)%float then 1.28%float
  else if (confidence =? 95)%float then 1.645%float
  else if (confidence =? 99)%float then 2.33%float
  else 1.645%float.

(* ================================================================= *)
(** ** parseFloat *)

(** [DecimalDigit] *)
Definition isDigit (c : N) : bool := ((48 <=? c) && (c <=? 57))%N.

(** The longest run of decimal digits at the head of [s], as digit values,
    and what follows it. *)
Fixpoint takeDigits (s : jsstring) : list Z * jsstring :=
  match s with
  | c :: s' =>
      if isDigit c then
        let '(ds, rest) := takeDigits s' in (Z.of_N (c - 48) :: ds, rest)
      else ([], s)
  | [] => ([], [])
  end.

(** The number written by a run of digits. *)
Definition digitsValue (ds : list Z) : Z :=
  fold_left (fun acc d => 10 * acc + d)%Z ds 0%Z.

(** [s] starts with [p]; the rest of [s] when it does. *)
Fixpoint stripPrefix (p s : jsstring) : option jsstring :=
  match p, s with
  | [], _ => Some s
  | a :: p', b :: s' => if (a =? b)%N then stripPrefix p' s' else None
  | _ :: _, [] => None
  end.

(** The mathematical value of a [StrUnsignedDecimalLiteral]. *)
Inductive literal : Type :=
  | LitInfinity
  | LitDecimal (mantissa exponent : Z).   (* mantissa x 10^exponent *)

(** [ExponentPart]: [e] or [E], an optional sign, at least one digit.  When
    no digit follows, the exponent is not part of the literal. *)
Definition exponentPart (s : jsstring) : Z :=
  match s with
  | c :: s' =>
      if ((c =? 101) || (c =? 69))%N then
        let '(neg, s'') :=
          match s' with
          | d :: t => if (d =? 45)%N then (true, t)
                      else if (d =? 43)%N then (false, t) else (false, s')
          | [] => (false, s')
          end in
        match fst (takeDigits s'') with
        | [] => 0%Z
        | ds => if neg then (- digitsValue ds)%Z else digitsValue ds
        end
      else 0%Z
  | [] => 0%Z
  end.

(** The longest prefix of [s] that is a [StrUnsignedDecimalLiteral], as its
    value; [None] when no prefix is one. *)
Definition unsignedLiteral (s : jsstring) : option literal :=
  match stripPrefix (js "Infinity") s with
  | Some _ => Some LitInfinity
  | None =>
      let '(int, rest) := takeDigits s in
      match rest with
      | 46%N :: rest' =>
          let '(frac, rest'') := takeDigits rest' in
          match int, frac with
          | [], [] => None
          | _, _ =>
              Some (LitDecimal (digitsValue (int ++ frac))
                      (exponentPart rest'' - Z.of_nat (length frac)))
          end
      | _ =>
          match int with
          | [] => None
          | _ => Some (LitDecimal (digitsValue int) (exponentPart rest))
          end
      end
  end.

(** The binary64 value nearest to [m x 10^e] (ties to even), for [m >= 0].
    A negative exponent is a quotient of integers: it is computed with at
    least 64 bits and a sticky bit, which rounds as the exact quotient
    does. *)
Definition decimal_to_float (m e : Z) : float :=
  SF2Prim
    (if (0 <=? e)%Z then binary_normalize prec emax (m * 10 ^ e) 0 false
     else if (m =? 0)%Z then S754_zero false
     else
       let d := (10 ^ (- e))%Z in
       let k := Z.max 0 (Z.log2 d - Z.log2 m + 64) in
       let q := (m * 2 ^ k / d)%Z in
       let sticky := if (m * 2 ^ k mod d =? 0)%Z then 0%Z else 1%Z in
       binary_normalize prec emax (2 * q + sticky) (- k - 1) false).

Definition literal_to_float (l : literal) : float :=
  match l with
  | LitInfinity => infinity
  | LitDecimal m e => decimal_to_float m e
  end.

(** [parseFloat(string)]: leading white space is skipped, then the longest
    prefix that is a [StrDecimalLiteral] is read; NaN when there is none.
    The value is rounded to the nearest binary64, which is what the language
    requires up to 20 significant digits and allows beyond. *)
Definition parseFloat (s : jsstring) : float :=
  let trimmed := trimStart s in
  let '(neg, body) :=
    match trimmed with
    | c :: t => if (c =? 45)%N then (true, t)
                else if (c =? 43)%N then (false, t) else (false, trimmed)
    | [] => (false, trimmed)
    end in
  match unsignedLiteral body with
  | Some l => if neg then (- literal_to_float l)%float else literal_to_float l
  | None => nan
  end.

(* ================================================================= *)
(** ** validateNumericInput *)

(** The [options] argument; an absent property is [None]. *)
Record NumericOptions : Type := mkOptions {
  min_ : option float;
  max_ : option float;
  allowNegative : option bool;
  allowDecimal : option bool
}.

(** [{}] *)
Definition noOptions : NumericOptions :=
  {| min_ := None; max_ := None; allowNegative := None; allowDecimal := None |}.

(** Why an input is refused.  The two bound failures carry the bound that
    the message quotes. *)
Inductive ValidationError : Type :=
  | NotANumber
  | NegativeNotAllowed
  | WholeNumberRequired
  | BelowMinimum (bound : float)
  | AboveMaximum (bound : float).

(** [{ valid: true, value }] or [{ valid: false, error }]. *)
Inductive ValidationResult : Type :=
  | Valid (num : float)
  | Invalid (error : ValidationError).

(** The text of the [error] property; [Number_toString] is the conversion a
    template literal applies to a number. *)
Definition error_message (Number_toString : float -> jsstring)
    (e : ValidationError) : jsstring :=
  match e with
  | NotANumber => js "Please enter a valid number"
  | NegativeNotAllowed => js "Negative values are not allowed"
  | WholeNumberRequired => js "Please enter a whole number"
  | BelowMinimum b => js "Value must be at least " ++ Number_toString b
  | AboveMaximum b => js "Value must be at most " ++ Number_toString b
  end.

(** [validateNumericInput(value, options = {})] *)
Definition validateNumericInput (value_ : jsstring) (options : NumericOptions)
    : ValidationResult :=
  let min := default neg_infinity (min_ options) in
  let max := default infinity (max_ options) in
  let allowNegative := default true (allowNegative options) in
  let allowDecimal := default true (allowDecimal options) in
  let num := parseFloat value_ in
  if isNaN num then Invalid NotANumber
  else if negb allowNegative && (num <? 0)%float then Invalid NegativeNotAllowed
  else if negb allowDecimal && negb (Number_isInteger num) then
    Invalid WholeNumberRequired
  else if (num <? min)%float then Invalid (BelowMinimum min)
  else if js_gt num max then Invalid (AboveMaximum max)
  else Valid num.

(** The validation in the words of the specification: five checks, tried in
    a fixed order, the first failure reported. *)
Definition numericChecks (o : NumericOptions)
    : list (float -> option ValidationError) :=
  [ fun num => if is_nan num then Some NotANumber else None;
    fun num =>
      match allowNegative o with
      | Some false => if (num <? 0)%float then Some NegativeNotAllowed else None
      | _ => None
      end;
    fun num =>
      match allowDecimal o with
      | Some false =>
          if Number_isInteger num then None else Some WholeNumberRequired
      | _ => None
      end;
    fun num =>
      match min_ o with
      | Some b => if (num <? b)%float then Some (BelowMinimum b) else None
      | None => None
      end;
    fun num =>
      match max_ o with
      | Some b => if (b <? num)%float then Some (AboveMaximum b) else None
      | None => None
      end ].

Fixpoint firstFailure (checks : list (float -> option ValidationError))
    (num : float) : option ValidationError :=
  match checks with
  | check :: rest =>
      match check num with
      | Some e => Some e
      | None => firstFailure rest num
      end
  | [] => None
  end.

Definition validateNumericInput_spec (value_ : jsstring) (o : NumericOptions)
    : ValidationResult :=
  match firstFailure (numericChecks o) (parseFloat value_) with
  | Some e => Invalid e
  | None => Valid (parseFloat value_)
  end.

(* ================================================================= *)
(** ** debounce *)

(** The wrapper returned by [debounce(func, wait)] runs against the timers
    of the host.  Time is counted in milliseconds.  A timer set by the
    wrapper is the closure [later] of one invocation: it is known by its
    handle, the time it is due, and the arguments that invocation
    captured. *)
Section Debounce.

(** The argument list of one invocation, and what [func] acts on. *)
Variable Args : Type.
Variable St : Type.

(** The wrapped function. *)
Variable func : Args -> St -> St.

Record Timer : Type := mkTimer {
  handle : nat;
  due : nat;
  captured : Args
}.

Record Loop : Type := mkLoop {
  now : nat;                  (* the clock *)
  nextHandle : nat;           (* the handle the next setTimeout returns *)
  timers : list Timer;        (* pending timers, oldest first *)
  wait_ms : nat;              (* [wait] of the closure *)
  timeout : option nat;       (* [timeout] of the closure; [None] is undefined *)
  calls : list Args;          (* the invocations of [func], oldest first *)
  state : St                  (* what [func] has made of its world *)
}.

(** [debounce(func, wait = 300)]: a fresh closure, [timeout] undefined. *)
Definition debounce (wait : option nat) (t0 h0 : nat) (s0 : St) : Loop :=
  {| now := t0; nextHandle := h0; timers := []; wait_ms := default 300 wait;
     timeout := None; calls := []; state := s0 |}.

(** [clearTimeout(id)]: the pending timer with that handle is dropped;
    nothing happens for [undefined] or for a handle that is not pending. *)
Definition clearTimeout (id : option nat) (l : Loop) : Loop :=
  match id with
  | Some h =>
      {| now := now l; nextHandle := nextHandle l;
         timers := filter (fun t => handle t <> h) (timers l);
         wait_ms := wait_ms l; timeout := timeout l; calls := calls l;
         state := state l |}
  | None => l
  end.

(** [setTimeout(later, wait)], with [later] capturing [args]: the handle it
    returns and the loop with the timer pending. *)
Definition setTimeout (args : Args) (delay : nat) (l : Loop) : nat * Loop :=
  (nextHandle l,
   {| now := now l; nextHandle := S (nextHandle l);
      timers := timers l ++ [ {| handle := nextHandle l; due := now l + delay;
                                 captured := args |} ];
      wait_ms := wait_ms l; timeout := timeout l; calls := calls l;
      state := state l |}).

(** [executedFunction(...args)], the wrapper:
    [clearTimeout(timeout); timeout = setTimeout(later, wait);] *)
Definition executedFunction (args : Args) (l : Loop) : Loop :=
  let l1 := clearTimeout (timeout l) l in
  let '(h, l2) := setTimeout args (wait_ms l1) l1 in
  {| now := now l2; nextHandle := nextHandle l2; timers := timers l2;
     wait_ms := wait_ms l2; timeout := Some h; calls := calls l2;
     state := state l2 |}.

(** [later()]: [clearTimeout(timeout); func(...args);] *)
Definition later (args : Args) (l : Loop) : Loop :=
  let l1 := clearTimeout (timeout l) l in
  {| now := now l1; nextHandle := nextHandle l1; timers := timers l1;
     wait_ms := wait_ms l1; timeout := timeout l1;
     calls := calls l1 ++ [args]; state := func args (state l1) |}.

(** The pending timer that is due first; the older one among equals. *)
Fixpoint earliest (ts : list Timer) : option Timer :=
  match ts with
  | [] => None
  | t :: ts' =>
      match earliest ts' with
      | Some u => if due u <? due t then Some u else Some t
      | None => Some t
      end
  end.

(** The host runs the timers due by [target], in order: each is taken off
    the table, the clock is set to no earlier than its due time, and its
    callback runs.  A callback sets no timer, so [fuel] pending timers are
    all that can run. *)
Fixpoint runTimers (fuel : nat) (target : nat) (l : Loop) : Loop :=
  match fuel with
  | 0 => l
  | S fuel' =>
      match earliest (timers l) with
      | Some t =>
          if due t <=? target then
            runTimers fuel' target
              (later (captured t)
                 {| now := Nat.max (now l) (due t); nextHandle := nextHandle l;
                    timers := filter (fun u => handle u <> handle t) (timers l);
                    wait_ms := wait_ms l; timeout := timeout l;
                    calls := calls l; state := state l |})
          else l
      | None => l
      end
  end.

(** [dt] milliseconds pass, and the host has run the timers due by then, a
    timer due at the very end of the period included.  What else happens at
    the instant a timer is due comes before or after it as the host orders
    its queue: a trace says nothing of that order, and stands for the runs
    in which the timer came first. *)
Definition elapse (dt : nat) (l : Loop) : Loop :=
  let l' := runTimers (length (timers l)) (now l + dt) l in
  {| now := now l + dt; nextHandle := nextHandle l'; timers := timers l';
     wait_ms := wait_ms l'; timeout := timeout l'; calls := calls l';
     state := state l' |}.

(** What happens to the wrapper: it is invoked, or time passes. *)
Inductive Event : Type :=
  | Invoke (args : Args)
  | Elapse (dt : nat).

Definition step (l : Loop) (e : Event) : Loop :=
  match e with
  | Invoke args => executedFunction args l
  | Elapse dt => elapse dt l
  end.

Definition run (es : list Event) (l : Loop) : Loop := fold_left step es l.

(** A burst: a first invocation, then invocations each [gap] milliseconds
    after the one before. *)
Definition burst (first : Args) (rest : list (nat * Args)) : list Event :=
  Invoke first :: flat_map (fun ga => [Elapse (fst ga); Invoke (snd ga)]) rest.

(** The arguments of the last invocation of a burst. *)
Definition lastArgs (first : Args) (rest : list (nat * Args)) : Args :=
  default first (last (map snd rest)).

(** Right after an invocation with arguments [a]: one timer is pending, it
    is the one [timeout] names, it captured [a] and it is due a full quiet
    period from now; [func] has not run. *)
Definition armed (w : nat) (s0 : St) (a : Args) (l : Loop) : Prop :=
  exists h,
    timers l = [mkTimer h (now l + w) a]
    /\ timeout l = Some h /\ wait_ms l = w /\ calls l = [] /\ state l = s0.

End Debounce.

Arguments mkTimer {Args}.
Arguments handle {Args}.
Arguments due {Args}.
Arguments captured {Args}.
Arguments now {Args St}.
Arguments nextHandle {Args St}.
Arguments timers {Args St}.
Arguments wait_ms {Args St}.
Arguments timeout {Args St}.
Arguments calls {Args St}.
Arguments state {Args St}.
Arguments debounce {Args St}.
Arguments Invoke {Args}.
Arguments Elapse {Args}.
Arguments burst {Args}.
Arguments lastArgs {Args}.
Arguments armed {Args St}.

(* ================================================================= *)
(** ** The page *)

(** What the script reads and writes on an element.  [dataset] is keyed as
    the script names the [data-*] attributes ([data-quiz-id] is [quizId],
    [data-correct-answer] is [correctAnswer]).  [inputValue] is the [value]
    of a form control, undefined on other elements.  Markup assigned to
    [innerHTML] is kept as text: the elements it creates carry none of the
    classes the script selects on. *)
Record Attrs : Type := mkAttrs {
  classList : list jsstring;
  dataset : gmap jsstring jsstring;
  inputValue : option jsstring;
  textContent : jsstring;
  innerHTML : jsstring;
  style : gmap jsstring jsstring;
  disabled : bool
}.

(** An element: its identity, its own attributes, its children in order. *)
Inductive Element : Type :=
  | Elem (uid : nat) (attrs : Attrs) (children : list Element).

Definition uid (e : Element) : nat := let 'Elem u _ _ := e in u.
Definition attrs (e : Element) : Attrs := let 'Elem _ a _ := e in a.
Definition children (e : Element) : list Element := let 'Elem _ _ cs := e in cs.

(** An element and its descendants, in document order. *)
Fixpoint subtree (e : Element) : list Element :=
  match e with
  | Elem _ _ cs => e :: flat_map subtree cs
  end.

(** The elements of a forest, in document order. *)
Definition elements (forest : list Element) : list Element :=
  flat_map subtree forest.

(** *** Selectors *)

(** [.name] *)
Definition hasClass (name : jsstring) (e : Element) : bool :=
  bool_decide (name ∈ classList (attrs e)).

(** [[data-key]] *)
Definition hasData (key : jsstring) (e : Element) : bool :=
  bool_decide (is_Some (dataset (attrs e) !! key)).

(** [[data-key="v"]] *)
Definition dataIs (key v : jsstring) (e : Element) : bool :=
  bool_decide (dataset (attrs e) !! key = Some v).

(** The element a reference designates. *)
Definition hasUid (u : nat) (e : Element) : bool := (uid e =? u)%nat.

(** [.quiz-option[data-correct], .quiz-input[data-correct-answer]] *)
Definition gradable (e : Element) : bool :=
  hasClass (js "quiz-option") e && hasData (js "correct") e
  || hasClass (js "quiz-input") e && hasData (js "correctAnswer") e.

(** *** Queries *)

(** [element.querySelectorAll(sel)]: the matching descendants. *)
Definition querySelectorAll (sel : Element -> bool) (e : Element) : list Element :=
  List.filter sel (elements (children e)).

(** [element.querySelector(sel)]: the first matching descendant. *)
Definition querySelector (sel : Element -> bool) (e : Element) : option Element :=
  head (querySelectorAll sel e).

(** [document.querySelectorAll(sel)] and [document.querySelector(sel)]. *)
Definition documentQuerySelectorAll (sel : Element -> bool)
    (doc : list Element) : list Element :=
  List.filter sel (elements doc).

Definition documentQuerySelector (sel : Element -> bool)
    (doc : list Element) : option Element :=
  head (documentQuerySelectorAll sel doc).

(** *** Updates *)

(** The first element of [e :: ...] in document order that satisfies [sel]
    is replaced by the elements [f] makes of it (none: it is removed).
    [None] when nothing matches. *)
Fixpoint replaceFirst (sel : Element -> bool) (f : Element -> list Element)
    (e : Element) : option (list Element) :=
  if sel e then Some (f e)
  else
    match e with
    | Elem u a cs =>
        match
          (fix inForest (cs : list Element) : option (list Element) :=
             match cs with
             | [] => None
             | c :: cs' =>
                 match replaceFirst sel f c with
                 | Some r => Some (r ++ cs')
                 | None =>
                     match inForest cs' with
                     | Some r => Some (c :: r)
                     | None => None
                     end
                 end
             end) cs
        with
        | Some cs' => Some [Elem u a cs']
        | None => None
        end
    end.

Fixpoint replaceFirstIn (sel : Element -> bool) (f : Element -> list Element)
    (forest : list Element) : option (list Element) :=
  match forest with
  | [] => None
  | c :: cs' =>
      match replaceFirst sel f c with
      | Some r => Some (r ++ cs')
      | None =>
          match replaceFirstIn sel f cs' with
          | Some r => Some (c :: r)
          | None => None
          end
      end
  end.

(** The forest after [f] has changed its first element satisfying [sel];
    unchanged when there is none. *)
Definition modifyFirst (sel : Element -> bool) (f : Element -> Element)
    (forest : list Element) : list Element :=
  default forest (replaceFirstIn sel (fun e => [f e]) forest).

(** The forest after its first element satisfying [sel] has been taken
    out. *)
Definition removeFirst (sel : Element -> bool) (forest : list Element)
    : list Element :=
  default forest (replaceFirstIn sel (fun _ => []) forest).

(** The first element satisfying [sel] that has a proper ancestor satisfying
    [anc], for the selector [anc sel]; [inside] tells whether such an
    ancestor has been passed. *)
Fixpoint replaceFirstUnder (anc sel : Element -> bool) (f : Element -> Element)
    (inside : bool) (e : Element) : option Element :=
  if inside && sel e then Some (f e)
  else
    match e with
    | Elem u a cs =>
        match
          (fix inForest (cs : list Element) : option (list Element) :=
             match cs with
             | [] => None
             | c :: cs' =>
                 match replaceFirstUnder anc sel f (inside || anc e) c with
                 | Some c' => Some (c' :: cs')
                 | None =>
                     match inForest cs' with
                     | Some r => Some (c :: r)
                     | None => None
                     end
                 end
             end) cs
        with
        | Some cs' => Some (Elem u a cs')
        | None => None
        end
    end.

Fixpoint replaceFirstUnderIn (anc sel : Element -> bool) (f : Element -> Element)
    (forest : list Element) : option (list Element) :=
  match forest with
  | [] => None
  | c :: cs' =>
      match replaceFirstUnder anc sel f false c with
      | Some c' => Some (c' :: cs')
      | None =>
          match replaceFirstUnderIn anc sel f cs' with
          | Some r => Some (c :: r)
          | None => None
          end
      end
  end.

Definition modifyFirstUnder (anc sel : Element -> bool) (f : Element -> Element)
    (forest : list Element) : list Element :=
  default forest (replaceFirstUnderIn anc sel f forest).

(** *** Writes on one element *)

Definition withAttrs (f : Attrs -> Attrs) (e : Element) : Element :=
  Elem (uid e) (f (attrs e)) (children e).

(** [element.classList.add(name)] *)
Definition classList_add (name : jsstring) : Element -> Element :=
  withAttrs (fun a =>
    {| classList := if bool_decide (name ∈ classList a) then classList a
                    else classList a ++ [name];
       dataset := dataset a; inputValue := inputValue a;
       textContent := textContent a; innerHTML := innerHTML a;
       style := style a; disabled := disabled a |}).

(** [element.style.prop = v] *)
Definition setStyle (prop v : jsstring) : Element -> Element :=
  withAttrs (fun a =>
    {| classList := classList a; dataset := dataset a;
       inputValue := inputValue a; textContent := textContent a;
       innerHTML := innerHTML a; style := <[prop := v]> (style a);
       disabled := disabled a |}).

(** [element.dataset.key = v] *)
Definition setData (key v : jsstring) : Element -> Element :=
  withAttrs (fun a =>
    {| classList := classList a; dataset := <[key := v]> (dataset a);
       inputValue := inputValue a; textContent := textContent a;
       innerHTML := innerHTML a; style := style a; disabled := disabled a |}).

(** [element.disabled = true] *)
Definition setDisabled : Element -> Element :=
  withAttrs (fun a =>
    {| classList := classList a; dataset := dataset a;
       inputValue := inputValue a; textContent := textContent a;
       innerHTML := innerHTML a; style := style a; disabled := true |}).

(** [element.textContent = text]: the text replaces the children. *)
Definition setTextContent (text : jsstring) (e : Element) : Element :=
  Elem (uid e)
    {| classList := classList (attrs e); dataset := dataset (attrs e);
       inputValue := inputValue (attrs e); textContent := text;
       innerHTML := []; style := style (attrs e);
       disabled := disabled (attrs e) |}
    [].

(** [element.appendChild(child)] *)
Definition appendChild (child : Element) (e : Element) : Element :=
  Elem (uid e) (attrs e) (children e ++ [child]).

(** [document.createElement('div')], then [className], [innerHTML] and
    [style] set; [className] is given as the class names it lists. *)
Definition createDiv (u : nat) (className : list jsstring) (markup : jsstring)
    (styles : gmap jsstring jsstring) : Element :=
  Elem u
    {| classList := className; dataset := ∅; inputValue := None;
       textContent := []; innerHTML := markup; style := styles;
       disabled := false |}
    [].

(* ================================================================= *)
(** ** Application state *)

(** A score record of [AppState.quizScores].  The counters only ever grow by
    one, from zero: they are natural numbers. *)
Record ScoreData : Type := mkScore {
  total : nat;
  correct : nat;
  answered : gset jsstring
}.

(** The state the quiz functions run in: the score records, the page, the
    identity the next created element gets, and how many times the confetti
    animation was started. *)
Record World : Type := mkWorld {
  quizScores : gmap jsstring ScoreData;
  document : list Element;
  nextUid : nat;
  confettiBursts : nat
}.

(** A reference to an element: it designates the first element of the page,
    in document order, that fits it. *)
Definition Ref : Type := Element -> bool.

(** [AppState.quizScores] is a plain object: a name that is not a quiz
    identifier of its own may still be found on [Object.prototype]. *)
Definition objectPrototype : list jsstring :=
  map js [ "constructor"; "__defineGetter__"; "__defineSetter__";
           "hasOwnProperty"; "__lookupGetter__"; "__lookupSetter__";
           "isPrototypeOf"; "propertyIsEnumerable"; "toString"; "valueOf";
           "__proto__"; "toLocaleString" ]%string.

(** What [AppState.quizScores[quizId]] evaluates to. *)
Inductive ScoreLookup : Type :=
  | OwnRecord (scoreData : ScoreData)
  | Inherited
  | Undefined.

Definition getScore (scores : gmap jsstring ScoreData) (quizId : jsstring)
    : ScoreLookup :=
  match scores !! quizId with
  | Some scoreData => OwnRecord scoreData
  | None =>
      if bool_decide (quizId ∈ objectPrototype) then Inherited else Undefined
  end.

(** The decimal digits of a count, as a template literal prints it. *)
Definition natToString (n : nat) : jsstring :=
  js (NilZero.string_of_uint (Nat.to_uint n)).

(** The key a value that is a string or [undefined] indexes, and the text a
    template literal prints for it. *)
Definition toKey (v : option jsstring) : jsstring :=
  default (js "undefined") v.

(* ================================================================= *)
(** ** Quiz functions *)

(** [triggerConfetti()]: fifty particles are scheduled, each appended to the
    body and removed when its animation ends; the page of the quizzes keeps
    no trace of them. *)
Definition triggerConfetti (w : World) : World :=
  {| quizScores := quizScores w; document := document w;
     nextUid := nextUid w; confettiBursts := S (confettiBursts w) |}.

(** The text of the celebration panel; the styling of its markup is left
    out. *)
Definition celebrationMarkup : jsstring :=
  js "Perfect Score! You've mastered this concept!".

(** What [showCelebration] makes of the quiz container: the first
    [.quiz-celebration] below it is removed, a new panel is appended. *)
Definition celebrate (u : nat) (quizContainer : Element) : Element :=
  appendChild (createDiv u [js "quiz-celebration"] celebrationMarkup ∅)
    (Elem (uid quizContainer) (attrs quizContainer)
       (removeFirst (hasClass (js "quiz-celebration")) (children quizContainer))).

(** [showCelebration(quizContainer)] *)
Definition showCelebration (quizContainer : Ref) (w : World) : World :=
  triggerConfetti
    {| quizScores := quizScores w;
       document := modifyFirst quizContainer (celebrate (nextUid w)) (document w);
       nextUid := S (nextUid w);
       confettiBursts := confettiBursts w |}.

(** [checkQuizCompletion(quizId)].  The source pastes [quizId] between the
    double quotes of the selector [[data-quiz-id="..."]]; the selector is
    read here as what that text means for an identifier that needs no
    escaping there, the elements whose attribute is [quizId].  The quiz is
    the first of them in the page, whether it is a quiz container or not. *)
Definition checkQuizCompletion (quizId : jsstring) (w : World) : option World :=
  let scoreData := getScore (quizScores w) quizId in
  let byId := dataIs (js "quizId") quizId in
  match documentQuerySelector byId (document w) with
  | None => Some w
  | Some quizContainer =>
      let totalQuestions := length (querySelectorAll gradable quizContainer) in
      match scoreData with
      | OwnRecord scoreData =>
          if (correct scoreData =? totalQuestions)%nat
             && (0 <? correct scoreData)%nat
          then Some (showCelebration byId w)
          else Some w
      | Inherited => Some w       (* [scoreData.correct] is undefined *)
      | Undefined => None         (* TypeError *)
      end
  end.

(** The block of [updateQuizScore] that counts a question once. *)
Definition countOnce (questionId : jsstring) (isCorrect : bool)
    (scoreData : ScoreData) : ScoreData :=
  if bool_decide (questionId ∈ answered scoreData) then scoreData
  else
    {| total := S (total scoreData);
       correct := if isCorrect then S (correct scoreData) else correct scoreData;
       answered := answered scoreData ∪ {[ questionId ]} |}.

(** The score label of [updateQuizScore]: the first [.quiz-score] below an
    element with that [data-quiz-id].  As in [checkQuizCompletion], the
    selector is read as it is meant for an identifier that needs no
    escaping between the double quotes it is pasted into. *)
Definition showScore (quizId : jsstring) (scoreData : ScoreData)
    (doc : list Element) : list Element :=
  modifyFirstUnder (dataIs (js "quizId") quizId) (hasClass (js "quiz-score"))
    (fun scoreDisplay =>
       setStyle (js "color")
         (if (correct scoreData =? total scoreData)%nat
          then js "#10b981" else js "#3b82f6")
         (setTextContent
            (js "Score: " ++ natToString (correct scoreData) ++ js "/"
               ++ natToString (total scoreData))
            scoreDisplay))
    doc.

(** [updateQuizScore(quizId, questionId, isCorrect)]; [None] is the
    TypeError raised when [quizId] has no score record. *)
Definition updateQuizScore (quizId questionId : jsstring) (isCorrect : bool)
    (w : World) : option World :=
  match getScore (quizScores w) quizId with
  | OwnRecord scoreData =>
      let scoreData := countOnce questionId isCorrect scoreData in
      checkQuizCompletion quizId
        {| quizScores := <[quizId := scoreData]> (quizScores w);
           document := showScore quizId scoreData (document w);
           nextUid := nextUid w;
           confettiBursts := confettiBursts w |}
  | Inherited | Undefined => None
  end.

(** What [showQuizFeedback] makes of the quiz container: the first
    [.quiz-feedback] below it is removed, a new block is appended.  Of the
    markup of the block, the label and the explanation are kept, as text:
    the block is what the source builds for an explanation that holds no
    markup of its own, and so adds no element to the page. *)
Definition feedback (u : nat) (isCorrect : bool) (explanation : jsstring)
    (quizContainer : Element) : Element :=
  let color := if isCorrect then js "#10b981" else js "#ef4444" in
  appendChild
    (createDiv u
       [js "quiz-feedback"; if isCorrect then js "correct" else js "incorrect"]
       ((if isCorrect then js "Correct!" else js "Incorrect") ++ explanation)
       (<[js "background" :=
            if isCorrect then js "rgba(16, 185, 129, 0.1)"
            else js "rgba(239, 68, 68, 0.1)"]>
          (<[js "borderLeft" := js "4px solid " ++ color]> ∅)))
    (Elem (uid quizContainer) (attrs quizContainer)
       (removeFirst (hasClass (js "quiz-feedback")) (children quizContainer))).

(** [showQuizFeedback(quizContainer, isCorrect, explanation = '')] *)
Definition showQuizFeedback (quizContainer : Ref) (isCorrect : bool)
    (explanation : option jsstring) (w : World) : World :=
  {| quizScores := quizScores w;
     document :=
       modifyFirst quizContainer
         (feedback (nextUid w) isCorrect (default [] explanation)) (document w);
     nextUid := S (nextUid w);
     confettiBursts := confettiBursts w |}.

(** The panels of a quiz: the [.quiz-celebration] elements below it. *)
Definition panels (quizContainer : Element) : nat :=
  length (querySelectorAll (hasClass (js "quiz-celebration")) quizContainer).

(** A quiz is complete, in the words of the specification: the correct count
    equals the number of gradable elements of the quiz, and is not zero. *)
Definition complete (scoreData : ScoreData) (quizContainer : Element) : Prop :=
  correct scoreData = length (querySelectorAll gradable quizContainer)
  /\ 0 < correct scoreData.

Definition onDocument (f : list Element -> list Element) (w : World) : World :=
  {| quizScores := quizScores w; document := f (document w);
     nextUid := nextUid w; confettiBursts := confettiBursts w |}.

Section QuizHandlers.

(** [String.prototype.toLowerCase] of the host. *)
Variable toLowerCase : jsstring -> jsstring.

(** The comparison of [handleQuizSubmit]:
    [input.value.trim().toLowerCase() === correctAnswer.toLowerCase()]. *)
Definition gradeAnswer (inputValue_ correctAnswer : jsstring) : bool :=
  bool_decide (toLowerCase (trim inputValue_) = toLowerCase correctAnswer).

(** [handleQuizSubmit(quizContainer)].  [None] is a TypeError, or a
    [quizContainer] that is not part of the page. *)
Definition handleQuizSubmit (quizContainer : Ref) (w : World) : option World :=
  match documentQuerySelector quizContainer (document w) with
  | None => None
  | Some container =>
      let quizId := dataset (attrs container) !! js "quizId" in
      match querySelector (hasClass (js "quiz-input")) container with
      | None => Some w                                   (* [!input] *)
      | Some input =>
          let correctAnswer := dataset (attrs input) !! js "correctAnswer" in
          match inputValue (attrs input) with
          | None => None               (* [input.value] is undefined *)
          | Some v =>
              let questionId :=
                or_string (dataset (attrs input) !! js "questionId")
                  (js "input-question") in
              match correctAnswer with
              | None | Some [] => Some w                 (* [!correctAnswer] *)
              | Some correctAnswer =>
                  let isCorrect := gradeAnswer v correctAnswer in
                  let inputRef := hasUid (uid input) in
                  let w1 :=
                    if isCorrect then
                      onDocument
                        (modifyFirst inputRef
                           (fun i =>
                              setStyle (js "background") (js "rgba(16, 185, 129, 0.1)")
                                (setStyle (js "borderColor") (js "#10b981")
                                   (classList_add (js "correct") i))))
                        w
                    else
                      onDocument
                        (modifyFirst inputRef
                           (fun i =>
                              setStyle (js "background") (js "rgba(239, 68, 68, 0.1)")
                                (setStyle (js "borderColor") (js "#ef4444")
                                   (classList_add (js "incorrect") i))))
                        w in
                  let explanation := dataset (attrs input) !! js "explanation" in
                  let w2 :=
                    if isCorrect then showQuizFeedback quizContainer true explanation w1
                    else
                      showQuizFeedback quizContainer false
                        (Some (or_string explanation
                                 (js "Correct answer: " ++ correctAnswer)))
                        w1 in
                  match updateQuizScore (toKey quizId) questionId isCorrect w2 with
                  | None => None
                  | Some w3 =>
                      let w4 := onDocument (modifyFirst inputRef setDisabled) w3 in
                      let submitBtn :=
                        documentQuerySelector quizContainer (document w4)
                          ≫= querySelector (hasClass (js "quiz-submit")) in
                      match submitBtn with
                      | Some btn =>
                          Some (onDocument
                                  (modifyFirst (hasUid (uid btn)) setDisabled) w4)
                      | None => Some w4
                      end
                  end
              end
          end
      end
  end.

End QuizHandlers.

(** One round of the loop of [initializeQuizzes]: the container gets its
    identifier, and a score record unless the name already yields
    something. *)
Definition initializeQuiz (w : World) (iq : nat * Element) : World :=
  let '(index, quiz) := iq in
  let quizId :=
    or_string (dataset (attrs quiz) !! js "quizId")
      (js "quiz-" ++ natToString index) in
  {| quizScores :=
       match getScore (quizScores w) quizId with
       | Undefined =>
           <[quizId := {| total := 0; correct := 0; answered := ∅ |}]>
             (quizScores w)
       | _ => quizScores w
       end;
     document :=
       modifyFirst (hasUid (uid quiz)) (setData (js "quizId") quizId) (document w);
     nextUid := nextUid w;
     confettiBursts := confettiBursts w |}.

(** [initializeQuizzes()], without the listeners it attaches: those are the
    calls of the handlers. *)
Definition initializeQuizzes (w : World) : World :=
  fold_left initializeQuiz
    (imap pair (documentQuerySelectorAll (hasClass (js "quiz-container")) (document w)))
    w.

(** The state when the script is loaded on a page. *)
Definition loaded (page : list Element) (firstFreeUid : nat) : World :=
  initializeQuizzes
    {| quizScores := ∅; document := page; nextUid := firstFreeUid;
       confettiBursts := 0 |}.

(** The states the quizzes of a page go through: the script is loaded, then
    answers are graded, by [updateQuizScore] (as [handleQuizAnswer] does for
    an option) or through [handleQuizSubmit]; in between, the page may
    change in any way. *)
Inductive reachable (toLowerCase : jsstring -> jsstring) : World -> Prop :=
  | reach_loaded (page : list Element) (firstFreeUid : nat) :
      reachable toLowerCase (loaded page firstFreeUid)
  | reach_update (w w' : World) (quizId questionId : jsstring) (isCorrect : bool) :
      reachable toLowerCase w ->
      updateQuizScore quizId questionId isCorrect w = Some w' ->
      reachable toLowerCase w'
  | reach_submit (w w' : World) (quizContainer : Ref) :
      reachable toLowerCase w ->
      handleQuizSubmit toLowerCase quizContainer w = Some w' ->
      reachable toLowerCase w'
  | reach_page (w : World) (change : list Element -> list Element) :
      reachable toLowerCase w ->
      reachable toLowerCase (onDocument change w).

(** Grading events for one question, one after the other. *)
Fixpoint gradeRepeatedly (quizId questionId : jsstring) (answers : list bool)
    (w : World) : option World :=
  match answers with
  | [] => Some w
  | isCorrect :: rest =>
      match updateQuizScore quizId questionId isCorrect w with
      | Some w' => gradeRepeatedly quizId questionId rest w'
      | None => None
      end
  end.

(** Grading events of one quiz, for any questions in any order. *)
Fixpoint gradeEvents (quizId : jsstring) (events : list (jsstring * bool))
    (w : World) : option World :=
  match events with
  | [] => Some w
  | (questionId, isCorrect) :: rest =>
      match updateQuizScore quizId questionId isCorrect w with
      | Some w' => gradeEvents quizId rest w'
      | None => None
      end
  end.

(** The questions a list of events is about. *)
Definition questions (events : list (jsstring * bool)) : gset jsstring :=
  list_to_set (map fst events).

(** [showCelebration] triggered [n] times on the same quiz. *)
Fixpoint celebrateRepeatedly (n : nat) (quizContainer : Ref) (w : World) : World :=
  match n with
  | 0 => w
  | S n' => celebrateRepeatedly n' quizContainer (showCelebration quizContainer w)
  end.

(** *** Invariants *)

(** What holds of every score record: no more correct answers than
    answers, and as many answers as questions counted. *)
Definition score_ok (scoreData : ScoreData) : Prop :=
  correct scoreData <= total scoreData
  /\ total scoreData = size (answered scoreData).

(** The records of a state are all in order. *)
Definition scores_ok (w : World) : Prop :=
  forall quizId sd, quizScores w !! quizId = Some sd -> score_ok sd.

(** A selector of the script looks at the element itself, not below it. *)
Definition shallow (sel : Element -> bool) : Prop :=
  forall u a cs cs', sel (Elem u a cs) = sel (Elem u a cs').

(** *** Pages to evaluate the handlers on *)

Definition plain (u : nat) (classes : list jsstring)
    (data : list (jsstring * jsstring)) (v : option jsstring)
    (cs : list Element) : Element :=
  Elem u
    {| classList := classes; dataset := list_to_map data; inputValue := v;
       textContent := []; innerHTML := []; style := ∅; disabled := false |}
    cs.

(** A quiz with one free-text question: a score label, an input holding
    [submitted] whose expected answer is [expected], a submit button. *)
Definition textQuizPage (submitted expected : jsstring) : list Element :=
  [ plain 0 [js "quiz-container"] [] None
      [ plain 1 [js "quiz-score"] [] None [];
        plain 2 [js "quiz-input"] [(js "correctAnswer", expected)] (Some submitted) [];
        plain 3 [js "quiz-submit"] [] None [] ] ].

(** The state of that page once the script is loaded, and its quiz as the
    completion check finds it after a first, correct answer. *)
Definition textQuizLoaded (submitted expected : jsstring) : World :=
  loaded (textQuizPage submitted expected) 4.

Definition textQuizContainer (submitted expected : jsstring) : Element :=
  default (plain 0 [] [] None [])
    (documentQuerySelector (dataIs (js "quizId") (js "quiz-0"))
       (showScore (js "quiz-0")
          (countOnce (js "input-question") true
             {| total := 0; correct := 0; answered := ∅ |})
          (document (textQuizLoaded submitted expected)))).

(** *** Identifiers inside a selector *)

(** A code unit that stands for itself between the double quotes of a
    selector: not the double quote that ends the string, not the backslash
    that starts an escape, not a line break (line feed, form feed, carriage
    return) that makes the string bad, not NUL or a surrogate, which the
    parser replaces. *)
Definition plainChar (c : N) : bool :=
  negb ((c =? 34) || (c =? 92) || (c =? 10) || (c =? 12) || (c =? 13)
        || (c =? 0) || (55296 <=? c) && (c <=? 57343))%N.

(** An identifier for which [[data-quiz-id="..."]], with the identifier
    pasted in, selects the elements whose attribute equals it. *)
Definition plainId (quizId : jsstring) : bool := forallb plainChar quizId.

(** A quiz with one free-text question that comes with two celebration
    panels already in its markup. *)
Definition twoPanelQuizPage : list Element :=
  [ plain 0 [js "quiz-container"] [] None
      [ plain 1 [js "quiz-input"] [(js "correctAnswer", js "Paris")]
          (Some (js "Paris")) [];
        plain 2 [js "quiz-celebration"] [] None [];
        plain 3 [js "quiz-celebration"] [] None [] ] ].

(** A quiz with one free-text question, after an element that is no quiz
    and carries the identifier the quiz is given. *)
Definition shadowedQuizPage : list Element :=
  [ plain 0 [] [(js "quizId", js "quiz-0")] None [];
    plain 1 [js "quiz-container"] [] None
      [ plain 2 [js "quiz-input"] [(js "correctAnswer", js "Paris")]
          (Some (js "Paris")) [] ] ].

(* ================================================================= *)
(** ** Traces of a debounced function *)

(** The arguments the wrapper was invoked with, in order. *)
Definition invoked {Args : Type} (es : list (Event Args)) : list Args :=
  omap (fun e => match e with Invoke args => Some args | Elapse _ => None end) es.

(** Invocations each followed by a pause. *)
Definition spaced {Args : Type} (steps : list (Args * nat)) : list (Event Args) :=
  flat_map (fun ag => [Invoke (fst ag); Elapse (snd ag)]) steps.

(** What the wrapper keeps true: at most one timer is pending; it is the one
    [timeout] names, and it has not been handed out again. *)
Definition tidy {Args St : Type} (l : Loop Args St) : Prop :=
  timers l = []
  \/ exists t, timers l = [t] /\ timeout l = Some (handle t).

(* ================================================================= *)
(** ** Answering an option *)

(** The chain of elements from [e] down to the first element, in document
    order, that [ref] designates; [None] when [ref] designates nothing in
    [e]. *)
Fixpoint pathTo (ref : Element -> bool) (e : Element) : option (list Element) :=
  if ref e then Some [e]
  else
    match e with
    | Elem _ _ cs =>
        match
          (fix inForest (cs : list Element) : option (list Element) :=
             match cs with
             | [] => None
             | c :: cs' =>
                 match pathTo ref c with
                 | Some p => Some p
                 | None => inForest cs'
                 end
             end) cs
        with
        | Some p => Some (e :: p)
        | None => None
        end
    end.

Fixpoint pathToIn (ref : Element -> bool) (forest : list Element)
    : option (list Element) :=
  match forest with
  | [] => None
  | c :: cs' =>
      match pathTo ref c with
      | Some p => Some p
      | None => pathToIn ref cs'
      end
  end.

(** [element.closest(sel)]: the element itself or its nearest ancestor that
    matches; [None] is null. *)
Definition closest (sel : Element -> bool) (element : Ref)
    (doc : list Element) : option Element :=
  pathToIn element doc ≫= fun path => List.find sel (rev path).

(** [element.classList.remove(...names)] *)
Definition classList_remove (names : list jsstring) : Element -> Element :=
  withAttrs (fun a =>
    {| classList := List.filter (fun c => negb (bool_decide (c ∈ names))) (classList a);
       dataset := dataset a; inputValue := inputValue a;
       textContent := textContent a; innerHTML := innerHTML a;
       style := style a; disabled := disabled a |}).

(** [list.forEach(element => change(element))] on the page: each element of
    the list is changed where it now is. *)
Definition forEachElement (change : Element -> Element) (list_ : list Element)
    (doc : list Element) : list Element :=
  fold_left (fun d e => modifyFirst (hasUid (uid e)) change d) list_ doc.

(** [opt.dataset.correct === 'true'] *)
Definition markedCorrect (opt : Element) : bool :=
  bool_decide (dataset (attrs opt) !! js "correct" = Some (js "true")).

(** [handleQuizAnswer(quizContainer, selectedOption)].  [None] is a
    TypeError, or an argument that is not part of the page. *)
Definition handleQuizAnswer (quizContainer selectedOption : Ref) (w : World)
    : option World :=
  match documentQuerySelector quizContainer (document w),
        documentQuerySelector selectedOption (document w) with
  | Some container, Some option_ =>
      let quizId := dataset (attrs container) !! js "quizId" in
      let questionId :=
        or_string
          (closest (hasClass (js "quiz-question-group")) selectedOption (document w)
             ≫= fun group => dataset (attrs group) !! js "questionId")
          (js "default") in
      let isCorrect := markedCorrect option_ in
      let allOptions :=
        match closest (hasClass (js "quiz-options")) selectedOption (document w) with
        | Some options => querySelectorAll (hasClass (js "quiz-option")) options
        | None => querySelectorAll (hasClass (js "quiz-option")) container
        end in
      let w1 :=
        onDocument
          (forEachElement
             (classList_remove [js "correct"; js "incorrect"; js "selected"])
             allOptions)
          w in
      let w2 :=
        onDocument (modifyFirst selectedOption (classList_add (js "selected"))) w1 in
      let explanation := dataset (attrs option_) !! js "explanation" in
      let w3 :=
        if isCorrect then
          showQuizFeedback quizContainer true explanation
            (onDocument
               (modifyFirst selectedOption (classList_add (js "correct"))) w2)
        else
          let w2' :=
            onDocument
              (modifyFirst selectedOption (classList_add (js "incorrect"))) w2 in
          let w2'' :=
            match List.find markedCorrect allOptions with
            | Some correctOption =>
                onDocument
                  (modifyFirst (hasUid (uid correctOption))
                     (classList_add (js "correct")))
                  w2'
            | None => w2'
            end in
          showQuizFeedback quizContainer false explanation w2'' in
      match updateQuizScore (toKey quizId) questionId isCorrect w3 with
      | None => None
      | Some w4 =>
          Some (onDocument
                  (forEachElement (setStyle (js "pointerEvents") (js "none"))
                     allOptions)
                  w4)
      end
  | _, _ => None
  end.

(** The blocks of feedback of a quiz: the [.quiz-feedback] elements below
    it. *)
Definition feedbackBlocks (quizContainer : Element) : nat :=
  length (querySelectorAll (hasClass (js "quiz-feedback")) quizContainer).

(** One step of a page with quizzes: an answer is graded by one of the two
    handlers or by [updateQuizScore] itself, or the page changes. *)
Inductive quizStep (toLowerCase : jsstring -> jsstring) : World -> World -> Prop :=
  | step_update (w w' : World) (quizId questionId : jsstring) (isCorrect : bool) :
      updateQuizScore quizId questionId isCorrect w = Some w' ->
      quizStep toLowerCase w w'
  | step_submit (w w' : World) (quizContainer : Ref) :
      handleQuizSubmit toLowerCase quizContainer w = Some w' ->
      quizStep toLowerCase w w'
  | step_answer (w w' : World) (quizContainer selectedOption : Ref) :
      handleQuizAnswer quizContainer selectedOption w = Some w' ->
      quizStep toLowerCase w w'
  | step_page (w : World) (change : list Element -> list Element) :
      quizStep toLowerCase w (onDocument change w).

(** A quiz with two questions of two options each and no question groups. *)
Definition optionQuizPage : list Element :=
  [ plain 0 [js "quiz-container"] [] None
      [ plain 1 [js "quiz-option"] [(js "correct", js "true")] None [];
        plain 2 [js "quiz-option"] [(js "correct", js "false")] None [];
        plain 3 [js "quiz-option"] [(js "correct", js "false")] None [];
        plain 4 [js "quiz-option"] [(js "correct", js "true")] None [] ] ].

Definition optionQuizLoaded : World := loaded optionQuizPage 5.

(** A page whose only quiz is named [constructor]. *)
Definition prototypeQuizPage : list Element :=
  [ plain 0 [js "quiz-container"] [(js "quizId", js "constructor")] None
      [ plain 1 [js "quiz-option"] [(js "correct", js "true")] None [] ] ].

(* ================================================================= *)
(** ** Calculator widgets *)

(** What [displayCalculatorResult] reads of a result: each property may be
    missing on the result of a custom calculator. *)
Record Shown : Type := mkShown {
  shownValue : option float;
  shownFormatted : option jsstring;
  shownPositive : option bool;
  shownInterpretation : option jsstring
}.

(** The result of a calculator of the script, as it is displayed. *)
Definition shown (result : CalcResult) : Shown :=
  {| shownValue := Some (value result);
     shownFormatted := Some (formatted result);
     shownPositive := Some (isPositive result);
     shownInterpretation := interpretation result |}.

(** What [window[calcFunction]] is: nothing that counts (absent or falsy),
    something that cannot be called, or a function from the inputs to a
    result, [None] for a result that is falsy. *)
Inductive Global : Type :=
  | NotDefined
  | NotCallable
  | Function (f : gmap jsstring float -> option Shown).

(** One round of the loop of [initializeCalculators]: the widget gets its
    identifier. *)
Definition initializeCalculator (index : nat) (calculator : Element) : Element :=
  setData (js "calcId")
    (or_string (dataset (attrs calculator) !! js "calcId")
       (js "calc-" ++ natToString index))
    calculator.

(** [initializeCalculators()], without the listeners it attaches: those are
    the calls of [handleCalculatorInput]. *)
Definition initializeCalculators (doc : list Element) : list Element :=
  fold_left
    (fun d ic => modifyFirst (hasUid (uid (snd ic))) (initializeCalculator (fst ic)) d)
    (imap pair (documentQuerySelectorAll (hasClass (js "calculator-widget")) doc))
    doc.

Section CalculatorWidgets.

Variable toLocaleString : float -> NumberFormatOptions -> jsstring.
Variable Math_pow : float -> float -> float.

(** [input.name] of the host: the [name] attribute of a form control, empty
    when there is none; undefined on other elements. *)
Variable name_ : Element -> option jsstring.

(** The properties of [window]. *)
Variable window : jsstring -> Global.

(** [input.name || input.dataset.name], as a property key. *)
Definition inputKey (input : Element) : jsstring :=
  match name_ input with
  | Some (c :: s) => c :: s
  | _ => toKey (dataset (attrs input) !! js "name")
  end.

(** [parseFloat(input.value) || 0] *)
Definition inputNumber (input : Element) : float :=
  calculatorInput
    (match inputValue (attrs input) with
     | Some v => parseFloat v
     | None => nan                  (* [parseFloat(undefined)] *)
     end).

(** The object [inputs] of [handleCalculatorInput]: one property per field,
    a later field of the same name replacing an earlier one.  Assigning a
    number to [__proto__] sets nothing. *)
Definition readInputs (calculator : Element) : gmap jsstring float :=
  fold_left
    (fun inputs input =>
       if bool_decide (inputKey input = js "__proto__") then inputs
       else <[inputKey input := inputNumber input]> inputs)
    (querySelectorAll (hasClass (js "calculator-input")) calculator)
    ∅.

(** [inputs.name] as a calculator uses it: a missing property is
    [undefined], which is NaN in arithmetic and no key of [zScores]. *)
Definition argument (inputs : gmap jsstring float) (name : string) : float :=
  default nan (inputs !! js name).

(** The [switch] of [handleCalculatorInput]; the outer [None] is a
    TypeError, the inner one a result that is not displayed. *)
Definition calculatorResult (calcType calcFunction : option jsstring)
    (inputs : gmap jsstring float) : option (option Shown) :=
  if bool_decide (calcType = Some (js "roi")) then
    Some (Some (shown (calculateROI toLocaleString
                         (argument inputs "initial") (argument inputs "final"))))
  else if bool_decide (calcType = Some (js "sharpe")) then
    Some (Some (shown (calculateSharpeRatio toLocaleString
                         (argument inputs "returns") (argument inputs "riskFree")
                         (argument inputs "stdDev"))))
  else if bool_decide (calcType = Some (js "compound")) then
    Some (Some (shown (calculateCompoundGrowth toLocaleString Math_pow
                         (argument inputs "principal") (argument inputs "rate")
                         (argument inputs "time"))))
  else if bool_decide (calcType = Some (js "var")) then
    Some (Some (shown (calculateVaR toLocaleString
                         (argument inputs "value") (argument inputs "confidence")
                         (argument inputs "volatility"))))
  else
    match calcFunction with
    | None | Some [] => Some None
    | Some calcFunction =>
        match window calcFunction with
        | NotDefined => Some None
        | NotCallable => None
        | Function f => Some (f inputs)
        end
    end.

(** The text [displayCalculatorResult] writes:
    [result.formatted || formatNumber(result.value)]. *)
Definition shownText (result : Shown) : jsstring :=
  or_string (shownFormatted result)
    (formatNumber toLocaleString (default nan (shownValue result)) None).

(** What is done to the element that shows the value. *)
Definition showValue (result : Shown) (resultValue : Element) : Element :=
  let written := setTextContent (shownText result) resultValue in
  match shownPositive result with
  | Some isPositive =>
      setStyle (js "color") (if isPositive then js "#10b981" else js "#ef4444")
        written
  | None => written
  end.

(** [displayCalculatorResult(calculator, result)], as the widget it leaves.
    The class [updated] it adds is taken off again by a timer, half a
    second later. *)
Definition displayCalculatorResult (calculator : Element) (result : option Shown)
    : Element :=
  match result with
  | None => calculator
  | Some result =>
      let resultContainer :=
        querySelector (hasClass (js "calculator-result")) calculator in
      match querySelector (hasClass (js "calculator-result-value")) calculator with
      | None => calculator
      | Some _ =>
          let cs1 :=
            modifyFirst (hasClass (js "calculator-result-value")) (showValue result)
              (children calculator) in
          let cs2 :=
            match shownInterpretation result with
            | Some (c :: s) =>
                modifyFirst (hasClass (js "calculator-additional-info"))
                  (setTextContent (c :: s)) cs1
            | _ => cs1
            end in
          let cs3 :=
            match resultContainer with
            | Some container =>
                modifyFirst (hasUid (uid container))
                  (classList_add (js "updated")) cs2
            | None => cs2
            end in
          Elem (uid calculator) (attrs calculator) cs3
      end
  end.

(** [handleCalculatorInput(calculator)]; [None] is a TypeError. *)
Definition handleCalculatorInput (calculator : Element) : option Element :=
  displayCalculatorResult calculator
    <$> calculatorResult
          (dataset (attrs calculator) !! js "calcType")
          (dataset (attrs calculator) !! js "calcFunction")
          (readInputs calculator).

End CalculatorWidgets.

(** An element of a changed page against the one it comes from: it has the
    attributes it had, or those the change [f] gives it. *)
Definition sameOrChanged (f : Element -> Element) (x' x : Element) : Prop :=
  attrs x' = attrs x \/ attrs x' = attrs (f x).

(** A widget for the return on investment: two fields, a result area that
    holds the value. *)
Definition roiWidget (initial final : jsstring) : Element :=
  plain 0 [js "calculator-widget"] [(js "calcType", js "roi")] None
    [ plain 1 [js "calculator-input"] [(js "name", js "initial")] (Some initial) [];
      plain 2 [js "calculator-input"] [(js "name", js "final")] (Some final) [];
      plain 3 [js "calculator-result"] [] None
        [ plain 4 [js "calculator-result-value"] [] None [] ] ].

(* ================================================================= *)
(** ** Copy buttons *)

(** What a timer of the copy buttons does when it fires: it takes the
    feedback of a copy back, or the notice of a failure. *)
Inductive Task : Type :=
  | ResetCopied (button : nat) (originalHTML buttonId : jsstring)
  | ResetFailed (button : nat).

(** The state the copy buttons run in: the time in milliseconds, the
    buttons by identity, [AppState.copiedButtons], the timers that are set
    with the time each is due, in the order they fire, and how many random
    numbers were drawn. *)
Record CopyState : Type := mkCopyState {
  clock : nat;
  buttons : gmap nat Element;
  copiedButtons : gset jsstring;
  tasks : list (nat * Task);
  randomCalls : nat
}.

(** [element.innerHTML = markup]: the markup replaces the children. *)
Definition setInnerHTML (markup : jsstring) (e : Element) : Element :=
  Elem (uid e)
    {| classList := classList (attrs e); dataset := dataset (attrs e);
       inputValue := inputValue (attrs e); textContent := textContent (attrs e);
       innerHTML := markup; style := style (attrs e);
       disabled := disabled (attrs e) |}
    [].

(** [element.style.prop = '']: the declaration is taken off. *)
Definition clearStyle (prop : jsstring) : Element -> Element :=
  withAttrs (fun a =>
    {| classList := classList a; dataset := dataset a;
       inputValue := inputValue a; textContent := textContent a;
       innerHTML := innerHTML a; style := delete prop (style a);
       disabled := disabled a |}).

(** The label of a copy button, as markup. *)
Definition copyText (label : jsstring) : jsstring :=
  js "<span class=" ++ [34%N] ++ js "copy-text" ++ [34%N] ++ js ">" ++ label
    ++ js "</span>".

(** The markup of a new button and of the feedback: a drawing, left out
    here, and the label. *)
Definition buttonMarkup : jsstring := js "<svg>copy</svg>" ++ copyText (js "Copy").
Definition copiedMarkup : jsstring := js "<svg>check</svg>" ++ copyText (js "Copied!").

(** The markup of a failure and of the button after it: the label alone. *)
Definition failedMarkup : jsstring := copyText (js "Failed").
Definition copyMarkup : jsstring := copyText (js "Copy").

(** [setTimeout(task, delay)]: the timer fires after those that are due no
    later. *)
Fixpoint schedule (due : nat) (task : Task) (queue : list (nat * Task))
    : list (nat * Task) :=
  match queue with
  | [] => [(due, task)]
  | (d, t) :: rest =>
      if (d <=? due)%nat then (d, t) :: schedule due task rest
      else (due, task) :: queue
  end.

Definition onButton (button : nat) (f : Element -> Element)
    (bs : gmap nat Element) : gmap nat Element :=
  match bs !! button with
  | Some e => <[button := f e]> bs
  | None => bs
  end.

Section CopyButtons.

(** [Math.random().toString(36)] at the n-th draw: a text that is not
    empty, given as its first character and the rest. *)
Variable random : nat -> N * jsstring.

(** [showCopySuccess(button)]; nothing happens for a button the page does
    not have. *)
Definition showCopySuccess (button : nat) (s : CopyState) : CopyState :=
  match buttons s !! button with
  | None => s
  | Some e =>
      let originalHTML := innerHTML (attrs e) in
      let '(buttonId, drawn) :=
        match dataset (attrs e) !! js "id" with
        | Some (c :: t) => (c :: t, randomCalls s)
        | _ =>
            (fst (random (randomCalls s)) :: snd (random (randomCalls s)),
             S (randomCalls s))
        end in
      let named := setData (js "id") buttonId e in
      if bool_decide (buttonId ∈ copiedButtons s) then
        {| clock := clock s; buttons := <[button := named]> (buttons s);
           copiedButtons := copiedButtons s; tasks := tasks s;
           randomCalls := drawn |}
      else
        {| clock := clock s;
           buttons :=
             <[button :=
                 setStyle (js "background")
                   (js "linear-gradient(135deg, #10b981 0%, #059669 100%)")
                   (setInnerHTML copiedMarkup
                      (classList_add (js "copied") named))]> (buttons s);
           copiedButtons := copiedButtons s ∪ {[ buttonId ]};
           tasks :=
             schedule (clock s + 2000) (ResetCopied button originalHTML buttonId)
               (tasks s);
           randomCalls := drawn |}
  end.

(** What [document.execCommand('copy')] does. *)
Inductive ExecCommand : Type :=
  | Returns (copied : bool)
  | Throws.

(** [fallbackCopyToClipboard(codeBlock, button)], as far as the button
    goes: the text area it adds to the page is taken off again. *)
Definition fallbackCopyToClipboard (execCommand : ExecCommand) (button : nat)
    (s : CopyState) : CopyState :=
  match execCommand with
  | Returns _ => showCopySuccess button s
  | Throws =>
      {| clock := clock s;
         buttons := onButton button (setInnerHTML failedMarkup) (buttons s);
         copiedButtons := copiedButtons s;
         tasks := schedule (clock s + 2000) (ResetFailed button) (tasks s);
         randomCalls := randomCalls s |}
  end.

(** [copyCodeToClipboard(codeBlock, button)], as far as the button goes;
    [written] tells whether [navigator.clipboard.writeText] is there and
    its promise is fulfilled. *)
Definition copyCodeToClipboard (written : bool) (execCommand : ExecCommand)
    (button : nat) (s : CopyState) : CopyState :=
  if written then showCopySuccess button s
  else fallbackCopyToClipboard execCommand button s.

End CopyButtons.

(** A timer fires. *)
Definition runTask (task : Task) (s : CopyState) : CopyState :=
  match task with
  | ResetCopied button originalHTML buttonId =>
      {| clock := clock s;
         buttons :=
           onButton button
             (fun e =>
                clearStyle (js "background")
                  (setInnerHTML originalHTML
                     (classList_remove [js "copied"] e)))
             (buttons s);
         copiedButtons := copiedButtons s ∖ {[ buttonId ]};
         tasks := tasks s;
         randomCalls := randomCalls s |}
  | ResetFailed button =>
      {| clock := clock s;
         buttons := onButton button (setInnerHTML copyMarkup) (buttons s);
         copiedButtons := copiedButtons s;
         tasks := tasks s;
         randomCalls := randomCalls s |}
  end.

(** [ms] milliseconds pass: the timers due by then fire, in their order. *)
Definition advance (ms : nat) (s : CopyState) : CopyState :=
  let due := List.filter (fun dt => (fst dt <=? clock s + ms)%nat) (tasks s) in
  let later := List.filter (fun dt => negb (fst dt <=? clock s + ms)%nat) (tasks s) in
  fold_left (fun s' dt => runTask (snd dt) s')
    due
    {| clock := clock s + ms; buttons := buttons s;
       copiedButtons := copiedButtons s; tasks := later;
       randomCalls := randomCalls s |}.

(** A copy button as [initializeCopyButtons] makes it. *)
Definition copyButton (u : nat) : Element :=
  Elem u
    {| classList := [js "copy-btn"]; dataset := ∅; inputValue := None;
       textContent := []; innerHTML := buttonMarkup; style := ∅;
       disabled := false |}
    [].

(** The state of a page with one copy button, nothing copied yet. *)
Definition oneButton : CopyState :=
  {| clock := 0; buttons := {[ 7 := copyButton 7 ]}; copiedButtons := ∅;
     tasks := []; randomCalls := 0 |}.

(** Clicks on a copy button, each after a wait, each copying one way or the
    other without an exception: the wait, whether the clipboard took the
    text, what [execCommand] returns. *)
Definition clickCopy (random : nat -> N * jsstring) (button : nat)
    (s : CopyState) (click : nat * (bool * bool)) : CopyState :=
  copyCodeToClipboard random (fst (snd click)) (Returns (snd (snd click))) button
    (advance (fst click) s).

(** *** Adding the buttons *)

(** The button [initializeCopyButtons] creates. *)
Definition newCopyButton (u : nat) : Element :=
  Elem u
    {| classList := [js "copy-btn"]; dataset := ∅; inputValue := None;
       textContent := []; innerHTML := buttonMarkup; style := ∅;
       disabled := false |}
    [].

(** The header it creates for a block that has none, with the button
    appended; the lights of its markup are left out. *)
Definition newCodeHeader (u : nat) (copyBtn : Element) : Element :=
  appendChild copyBtn (createDiv u [js "code-header"] (js "<div>lights</div>") ∅).

(** One round of the loop of [initializeCopyButtons]: the block as it is
    left, and the identity the next created element gets. *)
Definition initializeCopyButton (u : nat) (block : Element) : Element * nat :=
  match querySelector (hasClass (js "copy-btn")) block with
  | Some _ => (block, u)
  | None =>
      let copyBtn := newCopyButton u in
      match querySelector (hasClass (js "code-header")) block with
      | Some _ =>
          (Elem (uid block) (attrs block)
             (modifyFirst (hasClass (js "code-header")) (appendChild copyBtn)
                (children block)),
           S u)
      | None =>
          (Elem (uid block) (attrs block)
             (newCodeHeader (S u) copyBtn :: children block),
           S (S u))
      end
  end.

(** [initializeCopyButtons()], without the listeners it attaches: each code
    block of the page, in order, is given its button where it now is. *)
Definition initializeCopyButtons (doc : list Element) (firstFreeUid : nat)
    : list Element * nat :=
  fold_left
    (fun du block =>
       match documentQuerySelector (hasUid (uid block)) (fst du) with
       | Some current =>
           (modifyFirst (hasUid (uid block))
              (fun b => fst (initializeCopyButton (snd du) b)) (fst du),
            snd (initializeCopyButton (snd du) current))
       | None => du
       end)
    (documentQuerySelectorAll (hasClass (js "code-block")) doc)
    (doc, firstFreeUid).

(** The copy buttons of a block. *)
Definition copyButtons (block : Element) : nat :=
  length (querySelectorAll (hasClass (js "copy-btn")) block).

(* ================================================================= *)
(** ** Toasts *)

(** What a timer of a toast does when it fires: it starts the animation
    that takes the toast out, or it removes the toast. *)
Inductive ToastTask : Type :=
  | SlideOut (toast : nat)
  | Remove (toast : nat).

(** The state the toasts run in: the time in milliseconds, the children of
    [document.body], the timers that are set with the time each is due, in
    the order they fire, and the identity the next created element gets. *)
Record ToastState : Type := mkToastState {
  time : nat;
  body : list Element;
  toastTimers : list (nat * ToastTask);
  freeUid : nat
}.

(** The object literal [colors] of [showToast], in source order. *)
Definition colors : list (jsstring * jsstring) :=
  [ (js "success", js "#10b981"); (js "error", js "#ef4444");
    (js "info", js "#3b82f6"); (js "warning", js "#f59e0b") ].

(** [table[key]] on the own properties of an object literal. *)
Fixpoint ownProperty (table : list (jsstring * jsstring)) (key : jsstring)
    : option jsstring :=
  match table with
  | (k, v) :: rest => if bool_decide (k = key) then Some v else ownProperty rest key
  | [] => None
  end.

(** The class names a [className] lists: its parts between white space,
    each once. *)
Fixpoint classNames (current : jsstring) (className : jsstring) : list jsstring :=
  match className with
  | [] => match current with [] => [] | _ => [rev current] end
  | c :: rest =>
      if bool_decide (c ∈ [9; 10; 12; 13; 32]%N) then
        match current with
        | [] => classNames [] rest
        | _ => rev current :: classNames [] rest
        end
      else classNames (c :: current) rest
  end.

(** [setTimeout(task, delay)] for the toasts: the timer fires after those
    that are due no later. *)
Fixpoint scheduleToast (due : nat) (task : ToastTask)
    (queue : list (nat * ToastTask)) : list (nat * ToastTask) :=
  match queue with
  | [] => [(due, task)]
  | (d, t) :: rest =>
      if (d <=? due)%nat then (d, t) :: scheduleToast due task rest
      else (due, task) :: queue
  end.

Section Toasts.

(** The text a template literal prints for the property of
    [Object.prototype] of that name. *)
Variable inheritedText : jsstring -> jsstring.

(** [colors[type] || colors.info], as the style sheet text prints it. *)
Definition toastBackground (type : jsstring) : jsstring :=
  match ownProperty colors type with
  | Some color => color
  | None =>
      if bool_decide (type ∈ objectPrototype) then inheritedText type
      else js "#3b82f6"
  end.

(** The element [showToast] creates.  Of its style, the background and the
    animation are kept: the other declarations are the same for every
    toast. *)
Definition newToast (u : nat) (message type : jsstring) : Element :=
  Elem u
    {| classList := remove_dups (classNames [] (js "toast toast-" ++ type));
       dataset := ∅; inputValue := None; textContent := message;
       innerHTML := [];
       style := <[js "animation" := js "slideInRight 0.3s ease"]>
                  (<[js "background" := toastBackground type]> ∅);
       disabled := false |}
    [].

(** [showToast(message, type = 'info', duration = 3000)] *)
Definition showToast (message : jsstring) (type : option jsstring)
    (duration : option nat) (s : ToastState) : ToastState :=
  let type := default (js "info") type in
  let duration := default 3000 duration in
  {| time := time s;
     body := body s ++ [newToast (freeUid s) message type];
     toastTimers :=
       scheduleToast (time s + duration) (SlideOut (freeUid s)) (toastTimers s);
     freeUid := S (freeUid s) |}.

End Toasts.

(** A timer that was due at [at_] fires. *)
Definition fireToast (at_ : nat) (task : ToastTask) (s : ToastState) : ToastState :=
  match task with
  | SlideOut toast =>
      {| time := at_;
         body :=
           modifyFirst (hasUid toast)
             (setStyle (js "animation") (js "slideOutRight 0.3s ease")) (body s);
         toastTimers := scheduleToast (at_ + 300) (Remove toast) (toastTimers s);
         freeUid := freeUid s |}
  | Remove toast =>
      {| time := at_; body := removeFirst (hasUid toast) (body s);
         toastTimers := toastTimers s; freeUid := freeUid s |}
  end.

(** The timers due by [deadline] fire, one after the other; a timer set
    meanwhile fires too when it is due. *)
Fixpoint fireUntil (fuel deadline : nat) (s : ToastState) : ToastState :=
  match fuel with
  | 0 => s
  | S fuel' =>
      match toastTimers s with
      | (due, task) :: rest =>
          if (due <=? deadline)%nat then
            fireUntil fuel' deadline
              (fireToast due task
                 {| time := time s; body := body s; toastTimers := rest;
                    freeUid := freeUid s |})
          else s
      | [] => s
      end
  end.

(** [ms] milliseconds pass.  A timer sets at most one other, which sets
    none: twice the number of timers is fuel enough. *)
Definition passTime (ms : nat) (s : ToastState) : ToastState :=
  let s' := fireUntil (2 * length (toastTimers s)) (time s + ms) s in
  {| time := time s + ms; body := body s'; toastTimers := toastTimers s';
     freeUid := freeUid s' |}.

(** A page with one paragraph, no toast shown. *)
Definition quietPage : ToastState :=
  {| time := 0; body := [plain 0 [] [] None []]; toastTimers := [];
     freeUid := 1 |}.

(* ================================================================= *)
(** * Properties of the calculators *)

(** Two distinct binary64 values are told apart by evaluating [=?]. *)
Ltac float_neq :=
  let H := fresh in
  intros H;
  match type of H with
  | ?a = ?b => apply (f_equal (fun x => (x =? b)%float)) in H
  end;
  vm_compute in H; discriminate H.

Lemma SFeqb_sym (x y : spec_float) : SFeqb x y = SFeqb y x.
Proof.
  unfold SFeqb.
  destruct x as [sx|sx| |sx mx ex], y as [sy|sy| |sy my ey]; simpl;
    try reflexivity; try (destruct sx, sy; reflexivity);
    try (destruct sx; reflexivity); try (destruct sy; reflexivity).
  destruct sx, sy; try reflexivity;
    rewrite (Z.compare_antisym ex ey);
    destruct (ex ?= ey)%Z; simpl; try reflexivity;
    fold (Pos.compare mx my); fold (Pos.compare my mx);
    rewrite (Pos.compare_antisym mx my);
    destruct (mx ?= my)%positive; reflexivity.
Qed.

Lemma float_eqb_sym (x y : float) : (x =? y)%float = (y =? x)%float.
Proof. rewrite !FloatAxioms.eqb_spec. apply SFeqb_sym. Qed.

(** The lookup in [zScores], followed by the fallback, is the z-score of the
    specification. *)
Lemma zScores_lookup (confidence : float) :
  or_number (property zScores confidence) 1.645%float = zScore_of confidence.
Proof.
  unfold zScore_of, zScores, property.
  rewrite (float_eqb_sym confidence 90), (float_eqb_sym confidence 95),
    (float_eqb_sym confidence 99).
  destruct (90 =? confidence)%float; [reflexivity|].
  destruct (95 =? confidence)%float; [reflexivity|].
  destruct (99 =? confidence)%float; reflexivity.
Qed.

(** C4: calculateVaR returns value x volatility x z, with z = 1.28 at
    confidence 90, 1.645 at 95, 2.33 at 99 and 1.645 at every other level;
    its sign flag is false whatever the sign of the value.
    calculateVaR(10000, 95, 0.02) is 329, and calculateVaR(10000, 42, 0.02)
    uses z = 1.645. *)
Theorem calculateVaR_spec
    (toLocaleString : float -> NumberFormatOptions -> jsstring)
    (value_ confidence volatility : float) :
  let r := calculateVaR toLocaleString value_ confidence volatility in
  value r = (value_ * volatility * zScore_of confidence)%float
  /\ isPositive r = false
  /\ zScore_of 90 = 1.28%float
  /\ zScore_of 95 = 1.645%float
  /\ zScore_of 99 = 2.33%float
  /\ value (calculateVaR toLocaleString 10000 95 0.02) = 329%float
  /\ value (calculateVaR toLocaleString 10000 42 0.02)
     = (10000 * 0.02 * 1.645)%float
  /\ value (calculateVaR toLocaleString (-10000) 95 0.02) = (-329)%float
  /\ isPositive (calculateVaR toLocaleString (-10000) 95 0.02) = false.
Proof.
  cbv zeta. repeat split; try (vm_compute; reflexivity).
  unfold calculateVaR; cbn [value]. now rewrite zScores_lookup.
Qed.

(** A confidence level that [=?] separates from 90, 95 and 99 gets 1.645;
    this covers NaN. *)
Lemma zScore_of_other (confidence : float) :
  (confidence =? 90)%float = false ->
  (confidence =? 95)%float = false ->
  (confidence =? 99)%float = false ->
  zScore_of confidence = 1.645%float.
Proof. unfold zScore_of. now intros -> -> ->. Qed.

(** C5: calculateROI returns (final - initial) / initial x 100, flagged
    positive exactly when that percentage is >= 0.  The equations hold for
    every initial amount, a fortiori for a nonzero one.
    calculateROI(100, 150) is 50 and positive; calculateROI(100, 50) is -50
    and not positive. *)
Theorem calculateROI_spec
    (toLocaleString : float -> NumberFormatOptions -> jsstring)
    (initial final : float) :
  let r := calculateROI toLocaleString initial final in
  value r = ((final - initial) / initial * 100)%float
  /\ isPositive r = (0 <=? (final - initial) / initial * 100)%float
  /\ value (calculateROI toLocaleString 100 150) = 50%float
  /\ isPositive (calculateROI toLocaleString 100 150) = true
  /\ value (calculateROI toLocaleString 100 50) = (-50)%float
  /\ isPositive (calculateROI toLocaleString 100 50) = false.
Proof. cbv zeta. repeat split. Qed.

(** *** Division by zero in calculateROI *)

(** A number is rebuilt from its specification value. *)
Lemma float_of_SF (x : float) (s : spec_float) :
  Prim2SF x = s -> x = SF2Prim s.
Proof. intros <-. symmetry. apply SF2Prim_Prim2SF. Qed.

(** The quotient computed by calculateROI(0, final), by the class of
    [final]. *)
Lemma roi_zero_SF (final : float) :
  Prim2SF ((final - 0) / 0 * 100)%float =
  match Prim2SF final with
  | S754_nan | S754_zero _ => S754_nan
  | S754_infinity s | S754_finite s _ _ => S754_infinity s
  end.
Proof.
  rewrite mul_spec, div_spec, sub_spec.
  change (Prim2SF 0) with (S754_zero false).
  change (Prim2SF 100) with (S754_finite false 7036874417766400 (-46)).
  destruct (Prim2SF final) as [s|s| |s m e]; try destruct s; reflexivity.
Qed.

Lemma roi_zero_cases (final : float) :
  let x := ((final - 0) / 0 * 100)%float in
  (x = infinity /\ (0 <? final)%float = true
   /\ (final <? 0)%float = false /\ (final =? 0)%float = false)
  \/ (x = neg_infinity /\ (final <? 0)%float = true
      /\ (0 <? final)%float = false /\ (final =? 0)%float = false)
  \/ (x = nan /\ (0 <? final)%float = false /\ (final <? 0)%float = false).
Proof.
  cbv zeta.
  pose proof (float_of_SF _ _ (roi_zero_SF final)) as Hx.
  rewrite !ltb_spec, FloatAxioms.eqb_spec.
  change (Prim2SF 0) with (S754_zero false).
  destruct (Prim2SF final) as [s|s| |s m e]; try destruct s;
    rewrite Hx; cbn; auto 10.
Qed.

(** C9: calculateROI does not guard the division by the initial amount.
    With initial = 0 the value is never finite: +Infinity when final > 0,
    -Infinity when final < 0, NaN when final = 0; in the NaN case the sign
    flag is false and the formatted string is the placeholder "0.00%". *)
Theorem calculateROI_zero_initial
    (toLocaleString : float -> NumberFormatOptions -> jsstring)
    (final : float) :
  let r := calculateROI toLocaleString 0 final in
  is_finite (value r) = false
  /\ ((0 <? final)%float = true -> value r = infinity)
  /\ ((final <? 0)%float = true -> value r = neg_infinity)
  /\ ((final =? 0)%float = true ->
      value r = nan /\ isPositive r = false /\ formatted r = js "0.00%").
Proof.
  cbv zeta. unfold calculateROI, js_ge, formatPercentage. cbn [value isPositive formatted].
  destruct (roi_zero_cases final) as [(-> & Hp & Hn & Hz) | [(-> & Hn & Hp & Hz) | (-> & Hp & Hn)]];
    rewrite ?Hp, ?Hn, ?Hz; repeat split; intros; try discriminate; reflexivity.
Qed.

(** With nothing invested, a gain of 5 is +Infinity percent, a loss of 5 is
    -Infinity percent, and no change is shown as "0.00%". *)
Lemma calculateROI_zero_initial_witness :
  value (calculateROI (fun _ _ => []) 0 5) = infinity
  /\ value (calculateROI (fun _ _ => []) 0 (-5)) = neg_infinity
  /\ formatted (calculateROI (fun _ _ => []) 0 0) = js "0.00%".
Proof.
  split; [|split].
  - apply (proj1 (proj2 (calculateROI_zero_initial (fun _ _ => []) 5))).
    reflexivity.
  - apply (proj1 (proj2 (proj2 (calculateROI_zero_initial (fun _ _ => []) (-5))))).
    reflexivity.
  - apply (proj2 (proj2 (proj2 (calculateROI_zero_initial (fun _ _ => []) 0)))).
    reflexivity.
Defined.

(** The zero a calculator widget passes on is +0: [parseFloat(...) || 0]
    replaces -0 (and NaN) by the literal. *)
Lemma calculatorInput_zero (parsed : float) :
  is_zero (calculatorInput parsed) = true -> calculatorInput parsed = 0%float.
Proof.
  unfold calculatorInput, or_number, truthy_number.
  destruct (is_nan parsed); cbn [orb negb]; [reflexivity|].
  destruct (is_zero parsed) eqn:Hz; cbn [negb]; [reflexivity|].
  rewrite Hz. discriminate.
Qed.

(** A direct call with -0 for the initial amount gets the opposite
    infinity. *)
Example calculateROI_negative_zero :
  value (calculateROI (fun _ _ => []) (-0) 5) = neg_infinity.
Proof. reflexivity. Qed.

(** *** Division by zero in calculateSharpeRatio *)

Lemma sharpe_zero_SF (r : float) : Prim2SF ((r - r) / 0)%float = S754_nan.
Proof.
  rewrite div_spec, sub_spec.
  change (Prim2SF 0) with (S754_zero false).
  destruct (Prim2SF r) as [s|s| |s m e]; try destruct s; try reflexivity;
    unfold SF64sub, SFsub; rewrite Z.sub_diag; reflexivity.
Qed.

(** C10: calculateSharpeRatio does not guard the division by the standard
    deviation.  calculateSharpeRatio(r, r, 0) has the value NaN; NaN fails
    every comparison of getSharpeInterpretation, so the interpretation is the
    top band, while the sign flag is false. *)
Theorem calculateSharpeRatio_zero_stdDev
    (toLocaleString : float -> NumberFormatOptions -> jsstring)
    (r : float) :
  let s := calculateSharpeRatio toLocaleString r r 0 in
  value s = nan
  /\ interpretation s
     = Some (js "Exceptional - Outstanding risk-adjusted returns")
  /\ isPositive s = false
  /\ getSharpeInterpretation nan
     = js "Exceptional - Outstanding risk-adjusted returns".
Proof.
  cbv zeta. unfold calculateSharpeRatio. cbn [value interpretation isPositive].
  rewrite (float_of_SF _ _ (sharpe_zero_SF r)). repeat split.
Qed.

(** *** Compound growth *)

(** The base of the power in calculateCompoundGrowth(1000, 10, 2) is the
    binary64 value printed 1.1000000000000001; its product with itself,
    rounded once, is printed 1.2100000000000002. *)
Lemma growth_base_square :
  (1 + 10 / 100 = 1.1000000000000001)%float
  /\ ((1 + 10 / 100) * (1 + 10 / 100) = 1.2100000000000002)%float.
Proof. split; reflexivity. Qed.

(** The exact square of the base lies strictly between 1.2100000000000002
    and the next binary64 value, 1.2100000000000004: these two are the only
    results within one unit in the last place of the exact power, and the
    first is the nearest.  Both inequalities are between integers, after
    scaling by 2^104. *)
Lemma growth_base_square_bracket :
  Prim2SF (1 + 10 / 100)%float = S754_finite false 4953959590107546 (-52)
  /\ Prim2SF 1.2100000000000002%float = S754_finite false 5449355549118301 (-52)
  /\ next_up 1.2100000000000002%float = 1.2100000000000004%float
  /\ Prim2SF 1.2100000000000004%float = S754_finite false 5449355549118302 (-52)
  /\ (5449355549118301 * 2 ^ 52 < 4953959590107546 * 4953959590107546
      < 5449355549118302 * 2 ^ 52)%Z
  /\ (4953959590107546 * 4953959590107546 - 5449355549118301 * 2 ^ 52
      < 5449355549118302 * 2 ^ 52 - 4953959590107546 * 4953959590107546)%Z.
Proof. repeat split; vm_compute; reflexivity. Qed.

(** Whichever of the two Math.pow returns, the final amount is not 1210. *)
Lemma growth_1000_not_1210 :
  (1000 * 1.2100000000000002)%float <> 1210%float
  /\ (1000 * 1.2100000000000004)%float <> 1210%float
  /\ (1000 * 1.2100000000000002 = 1210.0000000000002)%float.
Proof. repeat split; try float_neq. Qed.

(** C6, as stated, fails at calculateCompoundGrowth(1000, 10, 2): on no host
    whose Math.pow returns the correctly rounded power at (1.1, 2) is the
    final amount 1210. *)
Lemma calculateCompoundGrowth_1210_counterexample :
  ~ (exists (toLocaleString : float -> NumberFormatOptions -> jsstring)
            (Math_pow : float -> float -> float),
        Math_pow (1 + 10 / 100)%float 2%float
          = ((1 + 10 / 100) * (1 + 10 / 100))%float
        /\ value (calculateCompoundGrowth toLocaleString Math_pow 1000 10 2)
           = 1210%float).
Proof.
  intros (tl & pow & Hpow & H).
  unfold calculateCompoundGrowth in H; cbn [value] in H.
  rewrite Hpow in H. revert H. float_neq.
Qed.

(** C6 (amended): calculateCompoundGrowth returns
    principal x Math.pow(1 + rate/100, time) in binary64 arithmetic; its gain
    field is the currency formatting of that amount minus the principal, and
    its sign flag is true exactly when that difference is >= 0.  On a host
    whose Math.pow is correctly rounded at (1.1, 2),
    calculateCompoundGrowth(1000, 10, 2) has the final amount
    1210.0000000000002 and the gain 210.00000000000023, with sign flag
    true. *)
Theorem calculateCompoundGrowth_spec
    (toLocaleString : float -> NumberFormatOptions -> jsstring)
    (Math_pow : float -> float -> float)
    (principal rate time : float) :
  let r := calculateCompoundGrowth toLocaleString Math_pow principal rate time in
  value r = (principal * Math_pow (1 + rate / 100) time)%float
  /\ gain r = Some (formatCurrency toLocaleString (value r - principal)%float None)
  /\ isPositive r = (0 <=? value r - principal)%float
  /\ (Math_pow (1 + 10 / 100)%float 2%float
        = ((1 + 10 / 100) * (1 + 10 / 100))%float ->
      let r0 := calculateCompoundGrowth toLocaleString Math_pow 1000 10 2 in
      value r0 = 1210.0000000000002%float
      /\ (value r0 - 1000)%float = 210.00000000000023%float
      /\ isPositive r0 = true).
Proof.
  cbv zeta. repeat split;
    unfold calculateCompoundGrowth, js_ge; cbn [value isPositive];
    rewrite H; reflexivity.
Qed.

(** A host whose power at exponent 2 is the product, rounded once. *)
Lemma calculateCompoundGrowth_spec_witness :
  value (calculateCompoundGrowth (fun _ _ => []) (fun base _ => base * base)%float
           1000 10 2)
  = 1210.0000000000002%float.
Proof.
  apply (proj2 (proj2 (proj2
    (calculateCompoundGrowth_spec (fun _ _ => []) (fun base _ => base * base)%float
       1000 10 2)))).
  reflexivity.
Defined.

(* ================================================================= *)
(** * Properties of validateNumericInput *)

(** Nothing is below -Infinity and nothing is above +Infinity: the default
    bounds never refuse a number. *)
Lemma ltb_neg_infinity (x : float) : (x <? neg_infinity)%float = false.
Proof.
  rewrite ltb_spec. change (Prim2SF neg_infinity) with (S754_infinity true).
  destruct (Prim2SF x) as [s|s| |s m e]; try destruct s; reflexivity.
Qed.

Lemma infinity_ltb (x : float) : (infinity <? x)%float = false.
Proof.
  rewrite ltb_spec. change (Prim2SF infinity) with (S754_infinity false).
  destruct (Prim2SF x) as [s|s| |s m e]; try destruct s; reflexivity.
Qed.

(** The chain of tests of the source reports the first failing check of the
    ordered list. *)
Lemma validateNumericInput_refines (value_ : jsstring) (o : NumericOptions) :
  validateNumericInput value_ o = validateNumericInput_spec value_ o.
Proof.
  unfold validateNumericInput, validateNumericInput_spec, numericChecks,
    firstFailure, isNaN, js_gt.
  destruct o as [mn mx an ad]; cbn [min_ max_ allowNegative allowDecimal].
  set (num := parseFloat value_).
  destruct (is_nan num); [reflexivity|].
  destruct an as [[|]|]; cbn [default from_option id negb andb];
    try (destruct (num <? 0)%float; [reflexivity|]);
    (destruct ad as [[|]|]; cbn [default from_option id negb andb];
     try (destruct (Number_isInteger num); cbn [negb]; [|reflexivity]);
     (destruct mn as [b|]; cbn [default from_option id];
      [destruct (num <? b)%float; [reflexivity|] | rewrite ltb_neg_infinity];
      (destruct mx as [c|]; cbn [default from_option id];
       [destruct (c <? num)%float; reflexivity
       | rewrite infinity_ltb; reflexivity]))).
Qed.

(** C7: validateNumericInput tries not-a-number, negative disallowed,
    non-integer disallowed, below minimum, above maximum, in that order, and
    reports the first failure; absent bounds refuse nothing and absent flags
    allow; a success carries the parsed number.  "abc" is not a number, "-5"
    is refused as negative when negatives are disallowed, "5.5" as
    non-integer when decimals are disallowed, and "5" as below the minimum
    10. *)
Theorem validateNumericInput_order (value_ : jsstring) (o : NumericOptions) :
  validateNumericInput value_ o
  = match firstFailure (numericChecks o) (parseFloat value_) with
    | Some e => Invalid e
    | None => Valid (parseFloat value_)
    end
  /\ validateNumericInput value_ noOptions
     = (if isNaN (parseFloat value_) then Invalid NotANumber
        else Valid (parseFloat value_))
  /\ match validateNumericInput value_ o with
     | Valid num => num = parseFloat value_
     | Invalid _ => True
     end
  /\ validateNumericInput (js "abc") noOptions = Invalid NotANumber
  /\ validateNumericInput (js "-5")
       {| min_ := None; max_ := None;
          allowNegative := Some false; allowDecimal := None |}
     = Invalid NegativeNotAllowed
  /\ validateNumericInput (js "5.5")
       {| min_ := None; max_ := None;
          allowNegative := None; allowDecimal := Some false |}
     = Invalid WholeNumberRequired
  /\ validateNumericInput (js "5")
       {| min_ := Some 10%float; max_ := None;
          allowNegative := None; allowDecimal := None |}
     = Invalid (BelowMinimum 10)
  /\ validateNumericInput (js "5") noOptions = Valid 5%float.
Proof.
  split; [apply validateNumericInput_refines|].
  split.
  { rewrite validateNumericInput_refines.
    unfold validateNumericInput_spec, numericChecks, firstFailure, noOptions, isNaN.
    cbn [min_ max_ allowNegative allowDecimal].
    destruct (is_nan (parseFloat value_)); reflexivity. }
  split.
  { rewrite validateNumericInput_refines. unfold validateNumericInput_spec.
    destruct (firstFailure _ _); [exact I | reflexivity]. }
  repeat split; vm_compute; reflexivity.
Qed.

(** Every order in which two checks fail at once is settled for the earlier
    one: "-5.5" with both flags off and a minimum of 10 fails three checks
    and is reported as negative. *)
Example validateNumericInput_first_wins :
  validateNumericInput (js "-5.5")
    {| min_ := Some 10%float; max_ := Some (-10)%float;
       allowNegative := Some false; allowDecimal := Some false |}
  = Invalid NegativeNotAllowed
  /\ validateNumericInput (js "5.5")
       {| min_ := Some 10%float; max_ := Some (-10)%float;
          allowNegative := Some false; allowDecimal := Some false |}
     = Invalid WholeNumberRequired
  /\ validateNumericInput (js "5")
       {| min_ := Some 10%float; max_ := Some (-10)%float;
          allowNegative := Some false; allowDecimal := Some false |}
     = Invalid (BelowMinimum 10)
  /\ validateNumericInput (js "50")
       {| min_ := Some 10%float; max_ := Some (-10)%float;
          allowNegative := Some false; allowDecimal := Some false |}
     = Invalid (AboveMaximum (-10)).
Proof. repeat split; vm_compute; reflexivity. Qed.

(* ================================================================= *)
(** * Properties of debounce *)

Section DebounceFacts.

Context {Args St : Type}.
Variable func : Args -> St -> St.

Lemma filter_own_handle (h d : nat) (a : Args) :
  filter (fun t : Timer Args => handle t <> h) [mkTimer h d a] = [].
Proof.
  rewrite filter_cons. cbn. destruct (decide (h <> h)) as [Hne|_]; [|reflexivity].
  now contradiction Hne.
Qed.

Lemma first_invocation_arms (wait : option nat) (t0 h0 : nat) (s0 : St) (a : Args) :
  armed (default 300 wait) s0 a
    (executedFunction Args St a (debounce wait t0 h0 s0)).
Proof. exists h0. repeat split. Qed.

Lemma next_invocation_arms (w : nat) (s0 : St) (a a' : Args) (gap : nat)
    (l : Loop Args St) :
  armed w s0 a l -> gap < w ->
  armed w s0 a' (executedFunction Args St a' (elapse Args St func gap l)).
Proof.
  destruct l as [n nh ts w' to cs st].
  intros (h & Ht & Hto & Hw & Hc & Hs) Hgap. cbn in *. subst.
  unfold elapse. cbn.
  destruct (Nat.leb_spec (n + w) (n + gap)) as [Hle|_]; [lia|].
  unfold executedFunction, setTimeout, clearTimeout. simpl.
  rewrite filter_own_handle. simpl.
  exists nh. repeat split.
Qed.

Lemma burst_keeps_armed (w : nat) (s0 : St) (rest : list (nat * Args)) :
  forall (a : Args) (l : Loop Args St),
    armed w s0 a l ->
    Forall (fun ga => fst ga < w) rest ->
    armed w s0 (default a (last (map snd rest)))
      (run Args St func
         (flat_map (fun ga => [Elapse (fst ga); Invoke (snd ga)]) rest) l).
Proof.
  induction rest as [|[gap a'] rest IH]; intros a l Harm Hgaps; [exact Harm|].
  apply Forall_cons in Hgaps as [Hgap Hgaps]. cbn in Hgap.
  cbn [flat_map app run fold_left step fst snd map].
  replace (default a (last (a' :: map snd rest)))
    with (default a' (last (map snd rest))).
  - apply IH; [|exact Hgaps]. now apply next_invocation_arms with (a := a).
  - rewrite last_cons. now destruct (last (map snd rest)).
Qed.

(** When the quiet period has passed, the pending timer fires: [func] runs
    once, on the captured arguments, and nothing stays pending. *)
Lemma quiet_period_fires (w : nat) (s0 : St) (a : Args) (d : nat)
    (l : Loop Args St) :
  armed w s0 a l -> w <= d ->
  let l' := elapse Args St func d l in
  calls l' = [a] /\ state l' = func a s0 /\ timers l' = [].
Proof.
  destruct l as [n nh ts w' to cs st].
  intros (h & Ht & Hto & Hw & Hc & Hs) Hd. cbn in *. subst.
  unfold elapse. cbn.
  destruct (Nat.leb_spec (n + w) (n + d)) as [_|Hlt]; [|lia].
  destruct (decide (h <> h)) as [Hne|_]; [now contradiction Hne|].
  unfold later, clearTimeout. simpl. repeat split.
Qed.

(** With nothing pending, the passage of time calls nothing. *)
Lemma idle_elapse (d : nat) (l : Loop Args St) :
  timers l = [] -> calls (elapse Args St func d l) = calls l.
Proof. intros Ht. unfold elapse. now rewrite Ht. Qed.


End DebounceFacts.


(* ================================================================= *)
(** * Properties of the quiz scores *)

Lemma countOnce_ok (questionId : jsstring) (isCorrect : bool) (sd : ScoreData) :
  score_ok sd -> score_ok (countOnce questionId isCorrect sd).
Proof.
  intros [Hle Hsize]. unfold countOnce. case_bool_decide as Hin; [now split|].
  split; cbn.
  - destruct isCorrect; lia.
  - rewrite size_union by set_solver. rewrite size_singleton. lia.
Qed.

Lemma countOnce_again (questionId : jsstring) (isCorrect : bool) (sd : ScoreData) :
  questionId ∈ answered sd -> countOnce questionId isCorrect sd = sd.
Proof. intros Hin. unfold countOnce. now rewrite bool_decide_eq_true_2. Qed.

Lemma countOnce_first (questionId : jsstring) (isCorrect : bool) (sd : ScoreData) :
  questionId ∉ answered sd ->
  let sd' := countOnce questionId isCorrect sd in
  total sd' = S (total sd)
  /\ correct sd' = correct sd + (if isCorrect then 1 else 0)
  /\ answered sd' = answered sd ∪ {[ questionId ]}.
Proof.
  intros Hin. cbv zeta. unfold countOnce. rewrite bool_decide_eq_false_2 by exact Hin.
  cbn. destruct isCorrect; repeat split; lia.
Qed.

(** The completion check leaves the score records alone, and finishes as
    soon as the quiz has a record. *)
Lemma checkQuizCompletion_scores (quizId : jsstring) (w w' : World) :
  checkQuizCompletion quizId w = Some w' -> quizScores w' = quizScores w.
Proof.
  unfold checkQuizCompletion.
  destruct (documentQuerySelector _ _); [|now intros [= <-]].
  destruct (getScore _ _); [|now intros [= <-]|discriminate].
  destruct (_ && _); now intros [= <-].
Qed.

Lemma checkQuizCompletion_returns (quizId : jsstring) (w : World) (sd : ScoreData) :
  quizScores w !! quizId = Some sd -> is_Some (checkQuizCompletion quizId w).
Proof.
  intros Hsd. unfold checkQuizCompletion, getScore. rewrite Hsd.
  destruct (documentQuerySelector _ _); [|eauto].
  destruct (_ && _); eauto.
Qed.

(** [updateQuizScore] returns exactly when the quiz has a record, and then
    replaces that record by the one [countOnce] makes of it. *)
Lemma updateQuizScore_returns (quizId questionId : jsstring) (isCorrect : bool)
    (w : World) (sd : ScoreData) :
  quizScores w !! quizId = Some sd ->
  exists w',
    updateQuizScore quizId questionId isCorrect w = Some w'
    /\ quizScores w'
       = <[quizId := countOnce questionId isCorrect sd]> (quizScores w).
Proof.
  intros Hsd. unfold updateQuizScore, getScore. rewrite Hsd.
  match goal with |- exists _, checkQuizCompletion ?q ?w1 = _ /\ _ =>
    destruct (checkQuizCompletion_returns q w1 (countOnce questionId isCorrect sd))
      as [w' Hw']; [cbn; apply lookup_insert_eq|] end.
  exists w'. split; [exact Hw'|].
  now rewrite (checkQuizCompletion_scores _ _ _ Hw').
Qed.

Lemma updateQuizScore_inv (quizId questionId : jsstring) (isCorrect : bool)
    (w w' : World) :
  updateQuizScore quizId questionId isCorrect w = Some w' ->
  exists sd,
    quizScores w !! quizId = Some sd
    /\ quizScores w'
       = <[quizId := countOnce questionId isCorrect sd]> (quizScores w).
Proof.
  intros Hupd. destruct (quizScores w !! quizId) as [sd|] eqn:Hsd.
  - exists sd. split; [reflexivity|].
    destruct (updateQuizScore_returns quizId questionId isCorrect w sd Hsd)
      as (w'' & Hw'' & Hscores). congruence.
  - unfold updateQuizScore, getScore in Hupd. rewrite Hsd in Hupd.
    destruct (bool_decide _); discriminate.
Qed.

Lemma scores_ok_insert (w : World) (scores : gmap jsstring ScoreData)
    (quizId : jsstring) (sd : ScoreData) :
  (forall q s, scores !! q = Some s -> score_ok s) -> score_ok sd ->
  forall q s, <[quizId := sd]> scores !! q = Some s -> score_ok s.
Proof.
  intros Hall Hsd q s. rewrite lookup_insert. case_decide; [|apply Hall].
  now intros [= <-].
Qed.

Lemma updateQuizScore_ok (quizId questionId : jsstring) (isCorrect : bool)
    (w w' : World) :
  scores_ok w -> updateQuizScore quizId questionId isCorrect w = Some w' ->
  scores_ok w'.
Proof.
  intros Hok Hupd.
  destruct (updateQuizScore_inv _ _ _ _ _ Hupd) as (sd & Hsd & Hscores).
  unfold scores_ok. rewrite Hscores.
  apply (scores_ok_insert w); [exact Hok|].
  apply countOnce_ok. exact (Hok _ _ Hsd).
Qed.

Lemma showQuizFeedback_scores (ref : Ref) (b : bool) (e : option jsstring) (w : World) :
  quizScores (showQuizFeedback ref b e w) = quizScores w.
Proof. reflexivity. Qed.

(** Whatever [handleQuizSubmit] does to the records, it does through one
    call of [updateQuizScore]. *)
Lemma handleQuizSubmit_scores (toLowerCase : jsstring -> jsstring)
    (ref : Ref) (w w' : World) :
  handleQuizSubmit toLowerCase ref w = Some w' ->
  quizScores w' = quizScores w
  \/ exists quizId questionId isCorrect w1 w2,
       quizScores w1 = quizScores w
       /\ updateQuizScore quizId questionId isCorrect w1 = Some w2
       /\ quizScores w' = quizScores w2.
Proof.
  unfold handleQuizSubmit.
  destruct (documentQuerySelector ref (document w)) as [container|]; [|discriminate].
  destruct (querySelector _ container) as [input|]; [|intros [= <-]; now left].
  destruct (inputValue (attrs input)) as [v|]; [|discriminate].
  destruct (dataset (attrs input) !! js "correctAnswer") as [[|c expected]|];
    [intros [= <-]; now left| |intros [= <-]; now left].
  match goal with
  | |- match updateQuizScore ?q ?qq ?b ?w2 with _ => _ end = _ -> _ =>
      destruct (updateQuizScore q qq b w2) as [w3|] eqn:Hupd; [|discriminate];
      intros Hres; right; exists q, qq, b, w2, w3
  end.
  split; [|split; [exact Hupd|]].
  - destruct (gradeAnswer _ _ _); reflexivity.
  - destruct (_ ≫= _); injection Hres as <-; reflexivity.
Qed.

Lemma initializeQuiz_ok (w : World) (iq : nat * Element) :
  scores_ok w -> scores_ok (initializeQuiz w iq).
Proof.
  intros Hok. destruct iq as [index quiz]. unfold scores_ok, initializeQuiz. cbn.
  destruct (getScore _ _); try exact Hok.
  apply (scores_ok_insert w); [exact Hok|].
  split; cbn; [lia|]. now rewrite size_empty.
Qed.

Lemma initializeQuizzes_ok (l : list (nat * Element)) :
  forall w : World, scores_ok w -> scores_ok (fold_left initializeQuiz l w).
Proof.
  induction l as [|iq l IH]; intros w Hok; [exact Hok|].
  cbn. apply IH, initializeQuiz_ok, Hok.
Qed.

Lemma loaded_ok (page : list Element) (firstFreeUid : nat) :
  scores_ok (loaded page firstFreeUid).
Proof.
  apply initializeQuizzes_ok. intros q s. cbn. now rewrite lookup_empty.
Qed.

Lemma reachable_ok (toLowerCase : jsstring -> jsstring) (w : World) :
  reachable toLowerCase w -> scores_ok w.
Proof.
  induction 1 as [page u | w w' quizId questionId isCorrect _ IH Hupd
                  | w w' ref _ IH Hsub | w change _ IH]; [| | |exact IH].
  - apply loaded_ok.
  - exact (updateQuizScore_ok _ _ _ _ _ IH Hupd).
  - destruct (handleQuizSubmit_scores _ _ _ _ Hsub)
      as [Hsame | (q & qq & b & w1 & w2 & H1 & Hupd & H2)].
    + unfold scores_ok. now rewrite Hsame.
    + assert (Hok1 : scores_ok w1) by (unfold scores_ok; now rewrite H1).
      pose proof (updateQuizScore_ok _ _ _ _ _ Hok1 Hupd) as Hok2.
      unfold scores_ok. now rewrite H2.
Qed.

(** Once a question is counted, grading it again changes no record. *)
Lemma gradeRepeatedly_again (quizId questionId : jsstring) (answers : list bool) :
  forall (w : World) (sd : ScoreData),
    quizScores w !! quizId = Some sd -> questionId ∈ answered sd ->
    exists w',
      gradeRepeatedly quizId questionId answers w = Some w'
      /\ quizScores w' = quizScores w.
Proof.
  induction answers as [|b rest IH]; intros w sd Hsd Hin; [now exists w|].
  cbn. destruct (updateQuizScore_returns quizId questionId b w sd Hsd)
    as (w1 & -> & Hscores).
  rewrite countOnce_again, insert_id in Hscores by assumption.
  destruct (IH w1 sd) as (w' & Hw' & Hsame); [now rewrite Hscores|exact Hin|].
  exists w'. split; [exact Hw'|congruence].
Qed.

(** Set identities behind the count of new questions. *)
Lemma questions_none (A : gset (list N)) :
  A ∪ ∅ = A /\ (∅ : gset (list N)) ∖ A = ∅.
Proof. split; set_solver. Qed.

Lemma questions_old (A R : gset (list N)) (q : list N) :
  q ∈ A ->
  A ∪ ({[q]} ∪ R) = A ∪ R /\ ({[q]} ∪ R) ∖ A = R ∖ A.
Proof. intros Hin. split; set_solver. Qed.

Lemma questions_new (A R : gset (list N)) (q : list N) :
  q ∉ A ->
  A ∪ {[q]} ∪ R = A ∪ ({[q]} ∪ R)
  /\ ({[q]} ∪ R) ∖ A = {[q]} ∪ R ∖ (A ∪ {[q]})
  /\ {[q]} ## R ∖ (A ∪ {[q]}).
Proof.
  intros Hnew. split; [|split]; [set_solver | | set_solver].
  apply set_eq. intros x. destruct (decide (x = q)) as [->|Hne]; set_solver.
Qed.

(** Events for any questions, in any order: the record ends with the
    questions of the events added to those it had counted, and with one more
    answer for each question that is new. *)
Lemma gradeEvents_counts (quizId : jsstring) (events : list (jsstring * bool)) :
  forall (w : World) (sd : ScoreData),
    quizScores w !! quizId = Some sd ->
    exists w' sd',
      gradeEvents quizId events w = Some w'
      /\ quizScores w' !! quizId = Some sd'
      /\ answered sd' = answered sd ∪ questions events
      /\ total sd' = total sd + size (questions events ∖ answered sd)
      /\ correct sd <= correct sd'
      /\ correct sd' - correct sd <= total sd' - total sd.
Proof.
  induction events as [|[questionId isCorrect] rest IH]; intros w sd Hsd.
  - exists w, sd. unfold questions. cbn [map list_to_set gradeEvents].
    destruct (questions_none (answered sd)) as [-> ->].
    rewrite size_empty. repeat split; try lia. exact Hsd.
  - cbn [gradeEvents].
    destruct (updateQuizScore_returns quizId questionId isCorrect w sd Hsd)
      as (w1 & -> & Hscores).
    assert (Hsd1 : quizScores w1 !! quizId
                   = Some (countOnce questionId isCorrect sd))
      by (rewrite Hscores; apply lookup_insert_eq).
    destruct (IH w1 _ Hsd1) as (w' & sd' & Hrun & Hrec & Ha & Ht & Hc & Hd).
    exists w', sd'. split; [exact Hrun|]. split; [exact Hrec|].
    unfold questions in *. cbn [map fst list_to_set].
    destruct (decide (questionId ∈ answered sd)) as [Hin|Hnew].
    + rewrite countOnce_again in Ha, Ht, Hc, Hd by exact Hin.
      destruct (questions_old (answered sd) (list_to_set (map fst rest))
                  questionId Hin) as [-> ->].
      repeat split; assumption.
    + destruct (countOnce_first questionId isCorrect sd Hnew) as (Ht1 & Hc1 & Ha1).
      rewrite Ha1 in Ha, Ht. rewrite Ht1 in Ht, Hd. rewrite Hc1 in Hc, Hd.
      destruct (questions_new (answered sd) (list_to_set (map fst rest))
                  questionId Hnew) as (Hu & -> & Hdisj).
      rewrite size_union by exact Hdisj. rewrite size_singleton.
      rewrite <- Hu.
      repeat split; [exact Ha | lia | destruct isCorrect; lia
                    | destruct isCorrect; lia].
Qed.

(** C1: every score record has correct <= total at all times (and total is
    the number of questions counted), and however many grading events
    arrive for one question identifier, the record's counters move at most
    once: at the first of them, total by one and correct by one if that
    answer was correct; from then on the record does not change.  With the
    events of several questions interleaved, total grows by the number of
    questions that are new, whatever the number of events. *)
Theorem quiz_scores_counted_once (toLowerCase : jsstring -> jsstring) :
  (forall w quizId sd,
      reachable toLowerCase w -> quizScores w !! quizId = Some sd ->
      correct sd <= total sd /\ total sd = size (answered sd))
  /\ (forall w quizId questionId first rest sd,
        quizScores w !! quizId = Some sd -> questionId ∉ answered sd ->
        exists w' sd',
          gradeRepeatedly quizId questionId (first :: rest) w = Some w'
          /\ quizScores w' !! quizId = Some sd'
          /\ total sd' = S (total sd)
          /\ correct sd' = correct sd + (if first then 1 else 0)
          /\ answered sd' = answered sd ∪ {[ questionId ]})
  /\ (forall w quizId questionId answers sd,
        quizScores w !! quizId = Some sd -> questionId ∈ answered sd ->
        exists w',
          gradeRepeatedly quizId questionId answers w = Some w'
          /\ quizScores w' !! quizId = Some sd)
  /\ (forall w quizId events sd,
        quizScores w !! quizId = Some sd ->
        exists w' sd',
          gradeEvents quizId events w = Some w'
          /\ quizScores w' !! quizId = Some sd'
          /\ answered sd' = answered sd ∪ questions events
          /\ total sd' = total sd + size (questions events ∖ answered sd)
          /\ correct sd' - correct sd <= total sd' - total sd).
Proof.
  split; [|split; [|split]].
  - intros w quizId sd Hreach Hsd. exact (reachable_ok _ _ Hreach _ _ Hsd).
  - intros w quizId questionId first rest sd Hsd Hnew. cbn.
    destruct (updateQuizScore_returns quizId questionId first w sd Hsd)
      as (w1 & -> & Hscores).
    pose proof (countOnce_first questionId first sd Hnew) as Hfirst.
    cbv zeta in Hfirst. revert Hfirst Hscores.
    generalize (countOnce questionId first sd). intros sd1 (Ht & Hc & Ha) Hscores.
    assert (Hsd1 : quizScores w1 !! quizId = Some sd1)
      by (rewrite Hscores; apply lookup_insert_eq).
    destruct (gradeRepeatedly_again quizId questionId rest w1 sd1 Hsd1)
      as (w' & Hw' & Hsame);
      [rewrite Ha; now apply elem_of_union_r, elem_of_singleton|].
    exists w', sd1. rewrite Hsame. auto.
  - intros w quizId questionId answers sd Hsd Hin.
    destruct (gradeRepeatedly_again quizId questionId answers w sd Hsd Hin)
      as (w' & Hw' & Hsame).
    exists w'. now rewrite Hsame.
  - intros w quizId events sd Hsd.
    destruct (gradeEvents_counts quizId events w sd Hsd)
      as (w' & sd' & Hrun & Hrec & Ha & Ht & _ & Hd).
    exists w', sd'. auto.
Qed.

(** Three answers to one question of the sample page, the first of them
    correct: the question is counted once, as correct. *)
Lemma quiz_scores_counted_once_witness :
  exists w' sd',
    gradeRepeatedly (js "quiz-0") (js "q1") [true; false; true]
      (textQuizLoaded [] []) = Some w'
    /\ quizScores w' !! js "quiz-0" = Some sd'
    /\ total sd' = 1 /\ correct sd' = 1.
Proof.
  destruct (proj1 (proj2 (quiz_scores_counted_once latin_toLowerCase))
              (textQuizLoaded [] []) (js "quiz-0") (js "q1") true [false; true]
              {| total := 0; correct := 0; answered := ∅ |})
    as (w' & sd' & Hrun & Hrec & Ht & Hc & _).
  - vm_compute. reflexivity.
  - apply not_elem_of_empty.
  - exists w', sd'. auto.
Defined.

(* ================================================================= *)
(** * Properties of the page updates *)

(** Induction on an element together with its forest of children. *)
Section ElementInduction.

Variable P : Element -> Prop.
Variable Q : list Element -> Prop.
Hypothesis Helem : forall u a cs, Q cs -> P (Elem u a cs).
Hypothesis Hnil : Q [].
Hypothesis Hcons : forall e es, P e -> Q es -> Q (e :: es).

Lemma Element_forest_ind : forall e : Element, P e.
Proof.
  fix IH 1. intros [u a cs]. apply Helem.
  induction cs as [|c cs IHcs]; [exact Hnil|].
  apply Hcons; [apply IH | exact IHcs].
Qed.

Lemma forest_Element_ind (es : list Element) : Q es.
Proof.
  induction es as [|c es IH]; [exact Hnil|].
  exact (Hcons c es (Element_forest_ind c) IH).
Qed.

End ElementInduction.

Lemma shallow_hasClass (name : jsstring) : shallow (hasClass name).
Proof. intros u a cs cs'. reflexivity. Qed.

Lemma shallow_dataIs (key v : jsstring) : shallow (dataIs key v).
Proof. intros u a cs cs'. reflexivity. Qed.

Lemma shallow_hasUid (n : nat) : shallow (hasUid n).
Proof. intros u a cs cs'. reflexivity. Qed.

Lemma elements_cons (c : Element) (cs : list Element) :
  elements (c :: cs) = subtree c ++ elements cs.
Proof. reflexivity. Qed.

Lemma elements_app (es es' : list Element) :
  elements (es ++ es') = elements es ++ elements es'.
Proof. unfold elements. apply flat_map_app. Qed.

Lemma subtree_Elem (u : nat) (a : Attrs) (cs : list Element) :
  subtree (Elem u a cs) = Elem u a cs :: elements cs.
Proof. reflexivity. Qed.

(** The search below an element is the search in its forest of children. *)
Lemma replaceFirst_Elem (sel : Element -> bool) (f : Element -> list Element)
    (u : nat) (a : Attrs) (cs : list Element) :
  replaceFirst sel f (Elem u a cs)
  = if sel (Elem u a cs) then Some (f (Elem u a cs))
    else match replaceFirstIn sel f cs with
         | Some cs' => Some [Elem u a cs']
         | None => None
         end.
Proof.
  cbn [replaceFirst]. destruct (sel (Elem u a cs)); [reflexivity|].
  match goal with
  | |- match ?inner cs with _ => _ end = _ =>
      assert (Hin : inner cs = replaceFirstIn sel f cs)
  end.
  { induction cs as [|c cs IH]; [reflexivity|].
    cbn [replaceFirstIn]. destruct (replaceFirst sel f c); [reflexivity|].
    now rewrite IH. }
  now rewrite Hin.
Qed.

Section FirstMatch.

Variable sel : Element -> bool.
Hypothesis sel_shallow : shallow sel.

(** Taking out the first match: nothing matched, or fewer elements match
    afterwards. *)
Lemma removeFirst_fewer (forest : list Element) :
  match replaceFirstIn sel (fun _ => []) forest with
  | None => List.filter sel (elements forest) = []
  | Some forest' =>
      length (List.filter sel (elements forest'))
      < length (List.filter sel (elements forest))
  end.
Proof.
  revert forest.
  apply (forest_Element_ind
    (fun e =>
       match replaceFirst sel (fun _ => []) e with
       | None => List.filter sel (subtree e) = []
       | Some es =>
           length (List.filter sel (elements es))
           < length (List.filter sel (subtree e))
       end)).
  - intros u a cs IH. rewrite replaceFirst_Elem, subtree_Elem. cbn [List.filter].
    destruct (sel (Elem u a cs)) eqn:Hsel; [cbn; lia|].
    destruct (replaceFirstIn sel (fun _ => []) cs) as [cs'|]; [|exact IH].
    rewrite elements_cons, subtree_Elem. cbn [app List.filter elements flat_map].
    rewrite (sel_shallow u a cs' cs), Hsel, app_nil_r. exact IH.
  - reflexivity.
  - intros e es IHe IHes. cbn [replaceFirstIn]. rewrite elements_cons.
    destruct (replaceFirst sel (fun _ => []) e) as [r|].
    + rewrite elements_app, !List.filter_app, !length_app. lia.
    + destruct (replaceFirstIn sel (fun _ => []) es) as [r|].
      * rewrite elements_cons, !List.filter_app, !length_app, IHe. cbn. lia.
      * now rewrite List.filter_app, IHe, IHes.
Qed.

(** Changing the first match in place: the first match of the new forest is
    the changed element, provided the change keeps it a match. *)
Lemma modifyFirst_found (f : Element -> Element) (forest : list Element) :
  (forall x, sel x = true -> sel (f x) = true) ->
  match head (List.filter sel (elements forest)) with
  | None => replaceFirstIn sel (fun y => [f y]) forest = None
  | Some x =>
      exists forest',
        replaceFirstIn sel (fun y => [f y]) forest = Some forest'
        /\ head (List.filter sel (elements forest')) = Some (f x)
  end.
Proof.
  intros Hf. revert forest.
  apply (forest_Element_ind
    (fun e =>
       match head (List.filter sel (subtree e)) with
       | None => replaceFirst sel (fun y => [f y]) e = None
       | Some x =>
           exists e',
             replaceFirst sel (fun y => [f y]) e = Some [e']
             /\ head (List.filter sel (subtree e')) = Some (f x)
       end)).
  - intros u a cs IH. rewrite replaceFirst_Elem, subtree_Elem. cbn [List.filter].
    destruct (sel (Elem u a cs)) eqn:Hsel.
    + cbn [head]. exists (f (Elem u a cs)). split; [reflexivity|].
      specialize (Hf _ Hsel). destruct (f (Elem u a cs)) as [u' a' cs'].
      rewrite subtree_Elem. cbn [List.filter]. now rewrite Hf.
    + destruct (head (List.filter sel (elements cs))) as [x|].
      * destruct IH as (cs' & -> & Hhead). exists (Elem u a cs').
        split; [reflexivity|]. rewrite subtree_Elem. cbn [List.filter].
        now rewrite (sel_shallow u a cs' cs), Hsel.
      * now rewrite IH.
  - reflexivity.
  - intros e es IHe IHes. cbn [replaceFirstIn].
    rewrite elements_cons, List.filter_app.
    destruct (List.filter sel (subtree e)) as [|x l] eqn:Hfe; cbn [head app] in *.
    + rewrite IHe.
      destruct (head (List.filter sel (elements es))) as [y|].
      * destruct IHes as (es' & -> & Hhead). exists (e :: es').
        split; [reflexivity|]. now rewrite elements_cons, List.filter_app, Hfe.
      * now rewrite IHes.
    + destruct IHe as (e' & -> & Hhead). exists ([e'] ++ es).
      split; [reflexivity|]. cbn [app]. rewrite elements_cons, List.filter_app.
      destruct (List.filter sel (subtree e')); [discriminate|exact Hhead].
Qed.

Lemma documentQuerySelector_modifyFirst (f : Element -> Element)
    (doc : list Element) :
  (forall x, sel x = true -> sel (f x) = true) ->
  documentQuerySelector sel (modifyFirst sel f doc)
  = f <$> documentQuerySelector sel doc.
Proof.
  intros Hf. unfold documentQuerySelector, documentQuerySelectorAll, modifyFirst.
  pose proof (modifyFirst_found f doc Hf) as H.
  destruct (head (List.filter sel (elements doc))) as [x|] eqn:Hhead.
  - destruct H as (doc' & -> & Hhead'). exact Hhead'.
  - rewrite H. cbn. exact Hhead.
Qed.

End FirstMatch.

(** *** The celebration panel *)

Lemma celebrate_panels (u : nat) (c : Element) :
  1 <= panels (celebrate u c) <= Nat.max 1 (panels c).
Proof.
  unfold panels, querySelectorAll, celebrate, appendChild, removeFirst. cbn [children].
  rewrite elements_app, List.filter_app, length_app.
  assert (Hnew : length (List.filter (hasClass (js "quiz-celebration"))
                   (elements [createDiv u [js "quiz-celebration"] celebrationMarkup ∅]))
                 = 1) by reflexivity.
  rewrite Hnew.
  pose proof (removeFirst_fewer (hasClass (js "quiz-celebration"))
                (shallow_hasClass _) (children c)) as H.
  destruct (replaceFirstIn _ _ (children c)) as [cs'|]; cbn [default from_option id].
  - lia.
  - rewrite H. cbn [length]. lia.
Qed.

Lemma celebrate_last (u : nat) (c : Element) :
  hasClass (js "quiz-celebration") <$> last (children (celebrate u c)) = Some true.
Proof.
  unfold celebrate, appendChild. cbn [children]. now rewrite last_snoc.
Qed.

Lemma celebrate_keeps (sel : Element -> bool) (u : nat) (c : Element) :
  shallow sel -> sel (celebrate u c) = sel c.
Proof.
  intros Hs. destruct c as [u' a cs]. unfold celebrate, appendChild. cbn.
  apply Hs.
Qed.

(** After [showCelebration], the quiz is the one before with its panel
    renewed. *)
Lemma showCelebration_found (ref : Ref) (w : World) :
  shallow ref ->
  documentQuerySelector ref (document (showCelebration ref w))
  = celebrate (nextUid w) <$> documentQuerySelector ref (document w).
Proof.
  intros Hs. cbn. apply documentQuerySelector_modifyFirst; [exact Hs|].
  intros x Hx. now rewrite celebrate_keeps.
Qed.

(** However often the celebration is triggered, the quiz keeps one panel
    (or no more than it had, if the page came with several). *)
Lemma celebrateRepeatedly_panels (ref : Ref) (n : nat) :
  shallow ref ->
  forall (w : World) (c : Element),
    documentQuerySelector ref (document w) = Some c ->
    exists c',
      documentQuerySelector ref (document (celebrateRepeatedly (S n) ref w)) = Some c'
      /\ 1 <= panels c' <= Nat.max 1 (panels c).
Proof.
  intros Hs. induction n as [|n IH]; intros w c Hc.
  - exists (celebrate (nextUid w) c). cbn [celebrateRepeatedly].
    rewrite showCelebration_found, Hc by exact Hs. split; [reflexivity|].
    apply celebrate_panels.
  - cbn [celebrateRepeatedly].
    destruct (IH (showCelebration ref w) (celebrate (nextUid w) c))
      as (c' & Hc' & Hp).
    { now rewrite showCelebration_found, Hc by exact Hs. }
    exists c'. split; [exact Hc'|].
    pose proof (celebrate_panels (nextUid w) c). lia.
Qed.

(* ================================================================= *)
(** * Completion of a quiz *)

Lemma complete_test (sd : ScoreData) (c : Element) :
  (correct sd =? length (querySelectorAll gradable c))%nat && (0 <? correct sd)%nat
  = true <-> complete sd c.
Proof.
  unfold complete. rewrite andb_true_iff, Nat.eqb_eq, Nat.ltb_lt. reflexivity.
Qed.

(** The claim C3, as stated, fails on two pages.  On a page whose quiz comes
    with two celebration panels, the update that completes the quiz starts
    the confetti and leaves two panels: the first is removed, one is
    appended.  On a page where an element that is no quiz carries the
    identifier of the quiz and comes before it, the quiz is complete (its
    one gradable element is answered correctly) and nothing is celebrated:
    the gradable elements are counted in that first element. *)
Lemma quiz_completion_celebration_counterexample :
  (exists w' c',
     updateQuizScore (js "quiz-0") (js "input-question") true
       (loaded twoPanelQuizPage 4) = Some w'
     /\ confettiBursts w' = 1
     /\ documentQuerySelector (dataIs (js "quizId") (js "quiz-0")) (document w')
        = Some c'
     /\ panels c' = 2)
  /\ (exists w' quiz sd',
        updateQuizScore (js "quiz-0") (js "input-question") true
          (loaded shadowedQuizPage 3) = Some w'
        /\ documentQuerySelector (hasClass (js "quiz-container")) (document w')
           = Some quiz
        /\ dataset (attrs quiz) !! js "quizId" = Some (js "quiz-0")
        /\ quizScores w' !! js "quiz-0" = Some sd'
        /\ complete sd' quiz
        /\ confettiBursts w' = 0
        /\ panels quiz = 0).
Proof.
  split.
  - eexists _, _. split; [vm_compute; reflexivity|].
    repeat split; vm_compute; reflexivity.
  - eexists _, _, _. split; [vm_compute; reflexivity|].
    split; [vm_compute; reflexivity|].
    split; [vm_compute; reflexivity|].
    split; [vm_compute; reflexivity|].
    split; [split; vm_compute; [reflexivity | lia]|].
    split; vm_compute; reflexivity.
Qed.

(** C3 (amended): for a quiz identifier that needs no escaping in the
    selector it is pasted into, and the first element of the page that
    carries it (the quiz, unless an element before it carries the same
    identifier): after a score update the celebration is rendered if and
    only if the record's correct count equals the number of gradable
    elements below that element (options with a correctness attribute, text
    inputs with an expected answer) and is not zero.  Rendering starts the
    confetti once and leaves a panel as the last child of the element; it
    removes the first panel that was there, so that the panels are never
    more than they were, or one: an element that had at most one panel has
    exactly one, however often the celebration is triggered again. *)
Theorem quiz_completion_celebration
    (quizId questionId : jsstring) (isCorrect : bool)
    (w : World) (sd : ScoreData) (c : Element) :
  plainId quizId = true ->
  quizScores w !! quizId = Some sd ->
  let sd' := countOnce questionId isCorrect sd in
  let byId := dataIs (js "quizId") quizId in
  let panel := hasClass (js "quiz-celebration") in
  documentQuerySelector byId (showScore quizId sd' (document w)) = Some c ->
  exists w',
    updateQuizScore quizId questionId isCorrect w = Some w'
    /\ (confettiBursts w' = S (confettiBursts w) <-> complete sd' c)
    /\ (complete sd' c ->
        exists c',
          documentQuerySelector byId (document w') = Some c'
          /\ panel <$> last (children c') = Some true
          /\ 1 <= panels c' <= Nat.max 1 (panels c)
          /\ (panels c <= 1 -> panels c' = 1))
    /\ (~ complete sd' c ->
        document w' = showScore quizId sd' (document w)
        /\ confettiBursts w' = confettiBursts w)
    /\ (forall n,
        exists c',
          documentQuerySelector byId
            (document (celebrateRepeatedly (S n) byId w')) = Some c'
          /\ 1 <= panels c' <= Nat.max 1 (panels c)
          /\ (panels c <= 1 -> panels c' = 1)).
Proof.
  intros _ Hsd sd' byId panel Hc.
  unfold updateQuizScore, getScore. rewrite Hsd. fold sd'.
  unfold checkQuizCompletion, getScore. cbn [document quizScores].
  fold byId. rewrite Hc, lookup_insert_eq.
  pose proof (complete_test sd' c) as Htest.
  destruct ((correct sd' =? length (querySelectorAll gradable c))%nat
            && (0 <? correct sd')%nat) eqn:Hcond.
  - assert (Hcomplete : complete sd' c) by now apply Htest.
    eexists. split; [reflexivity|].
    assert (Hfound :
      documentQuerySelector byId
        (document (showCelebration byId
           {| quizScores := <[quizId := sd']> (quizScores w);
              document := showScore quizId sd' (document w);
              nextUid := nextUid w; confettiBursts := confettiBursts w |}))
      = Some (celebrate (nextUid w) c)).
    { rewrite showCelebration_found by apply shallow_dataIs.
      cbn [document]. now rewrite Hc. }
    pose proof (celebrate_panels (nextUid w) c) as Hp.
    split; [split; [intros _; exact Hcomplete | reflexivity]|].
    split; [intros _; exists (celebrate (nextUid w) c);
            split; [exact Hfound | split; [apply celebrate_last | split; [exact Hp | lia]]]|].
    split; [intros Hn; now contradiction Hn|].
    intros n.
    destruct (celebrateRepeatedly_panels byId n (shallow_dataIs _ _) _ _ Hfound)
      as (c' & Hc' & Hp').
    exists c'. split; [exact Hc'|]. split; lia.
  - assert (Hincomplete : ~ complete sd' c).
    { intros Hcomplete. apply Htest in Hcomplete. discriminate. }
    eexists. split; [reflexivity|]. cbn [confettiBursts document].
    split; [split; [lia | intros Hcomplete; now contradiction Hincomplete]|].
    split; [intros Hcomplete; now contradiction Hincomplete|].
    split; [intros _; split; reflexivity|].
    intros n.
    destruct (celebrateRepeatedly_panels byId n (shallow_dataIs _ _)
                {| quizScores := <[quizId := sd']> (quizScores w);
                   document := showScore quizId sd' (document w);
                   nextUid := nextUid w; confettiBursts := confettiBursts w |}
                c Hc) as (c' & Hc' & Hp').
    exists c'. split; [exact Hc'|]. split; lia.
Qed.

(** On the page with one free-text question, a first correct answer
    completes the quiz: the confetti starts. *)
Lemma quiz_completion_celebration_witness :
  exists w',
    updateQuizScore (js "quiz-0") (js "input-question") true
      (textQuizLoaded (js "Paris") (js "paris")) = Some w'
    /\ confettiBursts w' = 1.
Proof.
  destruct (quiz_completion_celebration (js "quiz-0") (js "input-question") true
              (textQuizLoaded (js "Paris") (js "paris"))
              {| total := 0; correct := 0; answered := ∅ |}
              (textQuizContainer (js "Paris") (js "paris")))
    as (w' & Hupd & Hiff & _).
  - reflexivity.
  - vm_compute. reflexivity.
  - vm_compute. reflexivity.
  - exists w'. split; [exact Hupd|].
    apply Hiff. split; vm_compute; [reflexivity | lia].
Defined.

(* ================================================================= *)
(** * Grading of free-text answers *)

(** *** The Basic Latin case mapping *)

Lemma isWhiteSpace_range (c : N) :
  isWhiteSpace c = true -> (c <= 32 \/ 160 <= c)%N.
Proof.
  unfold isWhiteSpace.
  rewrite !orb_true_iff, !andb_true_iff, !N.leb_le, !N.eqb_eq. lia.
Qed.

Lemma latin_lower_idem (c : N) : latin_lower (latin_lower c) = latin_lower c.
Proof.
  unfold latin_lower.
  destruct ((65 <=? c) && (c <=? 90))%N eqn:Hc; [|now rewrite Hc].
  apply andb_true_iff in Hc as [H1 H2]. apply N.leb_le in H1, H2.
  destruct (N.leb_spec (c + 32) 90); [lia|]. now rewrite andb_false_r.
Qed.

Lemma latin_lower_space (c : N) : isWhiteSpace (latin_lower c) = isWhiteSpace c.
Proof.
  unfold latin_lower.
  destruct ((65 <=? c) && (c <=? 90))%N eqn:Hc; [|reflexivity].
  apply andb_true_iff in Hc as [H1 H2]. apply N.leb_le in H1, H2.
  destruct (isWhiteSpace (c + 32)) eqn:Hup; destruct (isWhiteSpace c) eqn:Hlo;
    try reflexivity;
    try (apply isWhiteSpace_range in Hup; lia);
    try (apply isWhiteSpace_range in Hlo; lia).
Qed.

Lemma latin_toLowerCase_idem (s : jsstring) :
  latin_toLowerCase (latin_toLowerCase s) = latin_toLowerCase s.
Proof.
  unfold latin_toLowerCase. rewrite List.map_map.
  apply List.map_ext. intros c. apply latin_lower_idem.
Qed.

Lemma trimStart_map_lower (s : jsstring) :
  trimStart (List.map latin_lower s) = List.map latin_lower (trimStart s).
Proof.
  induction s as [|c s IH]; [reflexivity|].
  cbn [List.map trimStart]. rewrite latin_lower_space.
  destruct (isWhiteSpace c); [exact IH | reflexivity].
Qed.

Lemma trim_latin_toLowerCase (s : jsstring) :
  trim (latin_toLowerCase s) = latin_toLowerCase (trim s).
Proof.
  unfold latin_toLowerCase, trim, trimEnd.
  repeat (rewrite trimStart_map_lower || rewrite <- List.map_rev). reflexivity.
Qed.

(** *** The handler *)

(** The comparison [handleQuizSubmit] makes: the submitted value, trimmed
    and lower-cased, against the expected value lower-cased as it is, the
    question being counted as correct exactly when the two are equal. *)
Lemma handleQuizSubmit_grading
    (toLowerCase : jsstring -> jsstring)
    (quizContainer : Ref) (w : World) (container input : Element)
    (v expected : jsstring) (sd : ScoreData) :
  documentQuerySelector quizContainer (document w) = Some container ->
  querySelector (hasClass (js "quiz-input")) container = Some input ->
  inputValue (attrs input) = Some v ->
  dataset (attrs input) !! js "correctAnswer" = Some expected ->
  expected <> [] ->
  let quizId := toKey (dataset (attrs container) !! js "quizId") in
  let questionId :=
    or_string (dataset (attrs input) !! js "questionId") (js "input-question") in
  quizScores w !! quizId = Some sd ->
  questionId ∉ answered sd ->
  exists w' sd',
    handleQuizSubmit toLowerCase quizContainer w = Some w'
    /\ quizScores w' !! quizId = Some sd'
    /\ total sd' = S (total sd)
    /\ (correct sd' = S (correct sd)
        <-> toLowerCase (trim v) = toLowerCase expected)
    /\ (correct sd' = correct sd
        <-> toLowerCase (trim v) <> toLowerCase expected)
    /\ ((forall s, toLowerCase (toLowerCase s) = toLowerCase s) ->
        (forall s, trim (toLowerCase s) = toLowerCase (trim s)) ->
        trim expected = expected ->
        v = toLowerCase expected ->
        correct sd' = S (correct sd)).
Proof.
  intros Hcont Hinput Hv Hexp Hne quizId questionId Hsd Hnew.
  unfold handleQuizSubmit. rewrite Hcont, Hinput, Hv, Hexp.
  destruct expected as [|e0 expected']; [contradiction|].
  cbv zeta. fold quizId. fold questionId.
  set (isCorrect := gradeAnswer toLowerCase v (e0 :: expected')).
  match goal with
  | |- context [updateQuizScore quizId questionId isCorrect ?w2] =>
      destruct (updateQuizScore_returns quizId questionId isCorrect w2 sd)
        as (w3 & Hupd & Hscores);
      [destruct isCorrect; exact Hsd | rewrite Hupd]
  end.
  assert (Hrec : quizScores w3 !! quizId
                 = Some (countOnce questionId isCorrect sd)).
  { rewrite Hscores. apply lookup_insert_eq. }
  destruct (countOnce_first questionId isCorrect sd Hnew) as (Ht & Hc & _).
  assert (Hgrade : isCorrect = true
                   <-> toLowerCase (trim v) = toLowerCase (e0 :: expected')).
  { unfold isCorrect, gradeAnswer. apply bool_decide_eq_true. }
  assert (Hfacts :
    (correct (countOnce questionId isCorrect sd) = S (correct sd)
     <-> toLowerCase (trim v) = toLowerCase (e0 :: expected'))
    /\ (correct (countOnce questionId isCorrect sd) = correct sd
        <-> toLowerCase (trim v) <> toLowerCase (e0 :: expected'))).
  { rewrite Hc, <- Hgrade. destruct isCorrect; split; split;
      try lia; try congruence; intros; exfalso; auto. }
  destruct Hfacts as [Hyes Hno].
  match goal with
  | |- exists w' sd', match ?btn with _ => _ end = _ /\ _ =>
      destruct btn; eexists; exists (countOnce questionId isCorrect sd)
  end.
  all: split; [reflexivity|]; split; [exact Hrec|]; split; [exact Ht|];
    split; [exact Hyes|]; split; [exact Hno|];
    intros Hidem Hcomm Htrim ->; apply Hyes;
    now rewrite Hcomm, Hidem, Htrim.
Qed.

(** *** What trimming leaves at the ends *)

Lemma trimStart_head (s : jsstring) (c : N) (t : jsstring) :
  trimStart s = c :: t -> isWhiteSpace c = false.
Proof.
  induction s as [|a s IH]; [discriminate|].
  cbn [trimStart]. destruct (isWhiteSpace a) eqn:Ha; [exact IH|].
  intros [= <- _]. exact Ha.
Qed.

Lemma trimStart_snoc (l : jsstring) (a : N) :
  isWhiteSpace a = false -> exists l', trimStart (l ++ [a]) = l' ++ [a].
Proof.
  intros Ha. induction l as [|b l [l' IH]]; cbn [app trimStart].
  - rewrite Ha. now exists [].
  - destruct (isWhiteSpace b); [now exists l' | now exists (b :: l)].
Qed.

Lemma trim_head (v : jsstring) (c : N) (t : jsstring) :
  trim v = c :: t -> isWhiteSpace c = false.
Proof.
  unfold trim, trimEnd.
  destruct (trimStart v) as [|a r] eqn:Hstart; [discriminate|].
  pose proof (trimStart_head v a r Hstart) as Ha.
  cbn [rev]. destruct (trimStart_snoc (rev r) a Ha) as [l' ->].
  rewrite rev_unit. intros [= <- _]. exact Ha.
Qed.

Lemma trim_last (v : jsstring) (c : N) :
  last (trim v) = Some c -> isWhiteSpace c = false.
Proof.
  unfold trim, trimEnd.
  destruct (trimStart (rev (trimStart v))) as [|a r] eqn:Hstart;
    [discriminate|].
  cbn [rev]. rewrite last_snoc. intros [= <-].
  exact (trimStart_head _ a r Hstart).
Qed.

(** C2: the code breaks the claim.  [handleQuizSubmit] trims the submitted
    value and not the expected one: for an expected answer that starts or
    ends with white space no submission whatever is graded correct, the
    trimmed, lower-cased form of the expected answer included; the question
    is counted, never as correct.  Of the case mapping only this is used:
    it keeps whether a text starts, and ends, with white space. *)
Theorem handleQuizSubmit_padded_expected_never_correct
    (toLowerCase : jsstring -> jsstring)
    (quizContainer : Ref) (w : World) (container input : Element)
    (v expected : jsstring) (sd : ScoreData) :
  (forall s, isWhiteSpace <$> head (toLowerCase s) = isWhiteSpace <$> head s) ->
  (forall s, isWhiteSpace <$> last (toLowerCase s) = isWhiteSpace <$> last s) ->
  documentQuerySelector quizContainer (document w) = Some container ->
  querySelector (hasClass (js "quiz-input")) container = Some input ->
  inputValue (attrs input) = Some v ->
  dataset (attrs input) !! js "correctAnswer" = Some expected ->
  isWhiteSpace <$> head expected = Some true
  \/ isWhiteSpace <$> last expected = Some true ->
  let quizId := toKey (dataset (attrs container) !! js "quizId") in
  let questionId :=
    or_string (dataset (attrs input) !! js "questionId") (js "input-question") in
  quizScores w !! quizId = Some sd ->
  questionId ∉ answered sd ->
  gradeAnswer toLowerCase v expected = false
  /\ exists w' sd',
       handleQuizSubmit toLowerCase quizContainer w = Some w'
       /\ quizScores w' !! quizId = Some sd'
       /\ total sd' = S (total sd)
       /\ correct sd' = correct sd.
Proof.
  intros Hhead Hlast Hcont Hinput Hv Hexp Hpad quizId questionId Hsd Hnew.
  assert (Hne : toLowerCase (trim v) <> toLowerCase expected).
  { intros Heq. destruct Hpad as [Hpad | Hpad].
    - apply (f_equal (fun s => isWhiteSpace <$> head s)) in Heq.
      rewrite !Hhead, Hpad in Heq.
      destruct (trim v) as [|c t] eqn:Htrim; [discriminate Heq|].
      cbn in Heq. injection Heq as Heq.
      pose proof (trim_head v c t Htrim). congruence.
    - apply (f_equal (fun s => isWhiteSpace <$> last s)) in Heq.
      rewrite !Hlast, Hpad in Heq.
      destruct (last (trim v)) as [c|] eqn:Htrim; [|discriminate Heq].
      cbn in Heq. injection Heq as Heq.
      pose proof (trim_last v c Htrim). congruence. }
  split; [unfold gradeAnswer; now apply bool_decide_eq_false|].
  assert (Hnonempty : expected <> []).
  { intros ->. destruct Hpad as [Hpad | Hpad]; discriminate Hpad. }
  destruct (handleQuizSubmit_grading toLowerCase quizContainer w container input
              v expected sd Hcont Hinput Hv Hexp Hnonempty Hsd Hnew)
    as (w' & sd' & Hsub & Hrec & Htotal & _ & Hno & _).
  exists w', sd'. repeat split; try assumption. now apply Hno.
Qed.

Lemma latin_toLowerCase_head (s : jsstring) :
  isWhiteSpace <$> head (latin_toLowerCase s) = isWhiteSpace <$> head s.
Proof.
  destruct s as [|c s]; [reflexivity|]. cbn. now rewrite latin_lower_space.
Qed.

Lemma latin_toLowerCase_last (s : jsstring) :
  isWhiteSpace <$> last (latin_toLowerCase s) = isWhiteSpace <$> last s.
Proof.
  unfold latin_toLowerCase.
  induction s as [|c s IH]; [reflexivity|].
  destruct s as [|d s]; [cbn; now rewrite latin_lower_space|].
  exact IH.
Qed.

(** The failing input: the expected answer " Paris " and the submission
    "paris", its trimmed, lower-cased form.  The answer is graded incorrect:
    the question is counted, not as correct. *)
Lemma handleQuizSubmit_padded_expected_never_correct_witness :
  latin_toLowerCase (trim (js " Paris ")) = js "paris"
  /\ gradeAnswer latin_toLowerCase (js "paris") (js " Paris ") = false
  /\ exists w' sd',
       handleQuizSubmit latin_toLowerCase (hasUid 0)
         (textQuizLoaded (js "paris") (js " Paris ")) = Some w'
       /\ quizScores w' !! js "quiz-0" = Some sd'
       /\ total sd' = 1
       /\ correct sd' = 0.
Proof.
  split; [vm_compute; reflexivity|].
  destruct (handleQuizSubmit_padded_expected_never_correct latin_toLowerCase
              (hasUid 0) (textQuizLoaded (js "paris") (js " Paris "))
              (default (plain 0 [] [] None [])
                 (documentQuerySelector (hasUid 0)
                    (document (textQuizLoaded (js "paris") (js " Paris ")))))
              (plain 2 [js "quiz-input"] [(js "correctAnswer", js " Paris ")]
                 (Some (js "paris")) [])
              (js "paris") (js " Paris ")
              {| total := 0; correct := 0; answered := ∅ |})
    as (Hgrade & w' & sd' & Hsub & Hrec & Htotal & Hcorrect).
  - exact latin_toLowerCase_head.
  - exact latin_toLowerCase_last.
  - vm_compute. reflexivity.
  - vm_compute. reflexivity.
  - reflexivity.
  - vm_compute. reflexivity.
  - left. vm_compute. reflexivity.
  - vm_compute. reflexivity.
  - apply not_elem_of_empty.
  - split; [exact Hgrade|]. exists w', sd'. now repeat split.
Defined.

(* ================================================================= *)
(** * Further properties of the calculators *)

(** Comparing the other way round gives the opposite answer. *)
Lemma SFcompare_antisym (x y : spec_float) :
  SFcompare y x = CompOpp <$> SFcompare x y.
Proof.
  destruct x as [sx|sx| |sx mx ex], y as [sy|sy| |sy my ey]; cbn;
    try reflexivity; try (destruct sx, sy; reflexivity);
    try (destruct sx; reflexivity); try (destruct sy; reflexivity).
  destruct sx, sy; try reflexivity;
    rewrite (Z.compare_antisym ex ey);
    destruct (ex ?= ey)%Z; cbn; try reflexivity;
    fold (Pos.compare mx my); fold (Pos.compare my mx);
    rewrite (Pos.compare_antisym mx my);
    destruct (mx ?= my)%positive; reflexivity.
Qed.

Lemma is_nan_SF (x : float) : is_nan x = true <-> Prim2SF x = S754_nan.
Proof.
  unfold is_nan. rewrite FloatAxioms.eqb_spec. unfold SFeqb.
  destruct (Prim2SF x) as [s|s| |s m e]; cbn.
  - split; discriminate.
  - destruct s; split; discriminate.
  - split; reflexivity.
  - destruct s; rewrite Z.compare_refl, Pos.compare_cont_refl; split; discriminate.
Qed.

(** Between two numbers, [x < y] fails exactly when [y <= x] holds; with a
    NaN both fail. *)
Lemma ltb_leb (x y : float) :
  (x <? y)%float = negb (y <=? x)%float && negb (is_nan x) && negb (is_nan y).
Proof.
  destruct (is_nan x) eqn:Hx; [|destruct (is_nan y) eqn:Hy].
  - apply is_nan_SF in Hx. rewrite ltb_spec, leb_spec, Hx.
    now destruct (Prim2SF y).
  - apply is_nan_SF in Hy. rewrite ltb_spec, leb_spec, Hy.
    now destruct (Prim2SF x).
  - rewrite ltb_spec, leb_spec. unfold SFltb, SFleb.
    rewrite (SFcompare_antisym (Prim2SF x) (Prim2SF y)).
    assert (Hnx : Prim2SF x <> S754_nan)
      by (intros H; apply is_nan_SF in H; congruence).
    assert (Hny : Prim2SF y <> S754_nan)
      by (intros H; apply is_nan_SF in H; congruence).
    destruct (SFcompare (Prim2SF x) (Prim2SF y)) as [[| |]|] eqn:Hc;
      try reflexivity.
    destruct (Prim2SF x), (Prim2SF y); cbn in Hc; congruence.
Qed.

Lemma leb_nan_l (x : float) : is_nan x = true -> forall y, (y <=? x)%float = false.
Proof.
  intros Hx y. apply is_nan_SF in Hx. rewrite leb_spec, Hx.
  now destruct (Prim2SF y).
Qed.

Lemma ltb_nan_l (x : float) : is_nan x = true -> forall y, (x <? y)%float = false.
Proof.
  intros Hx y. apply is_nan_SF in Hx. rewrite ltb_spec, Hx. reflexivity.
Qed.

(** Two strings that start differently are different. *)
Ltac js_neq :=
  let H := fresh in
  intros H; apply (f_equal head) in H; vm_compute in H; discriminate H.

(** The thresholds of the bands are in order. *)
Lemma band_thresholds (x : float) :
  ((x <? 0)%float = true -> (x <? 1)%float = true)
  /\ ((x <? 1)%float = true -> (x <? 2)%float = true)
  /\ ((x <? 2)%float = true -> (x <? 3)%float = true).
Proof.
  rewrite !ltb_spec. change (Prim2SF 0) with (S754_zero false).
  change (Prim2SF 1) with (S754_finite false 4503599627370496 (-52)).
  change (Prim2SF 2) with (S754_finite false 4503599627370496 (-51)).
  change (Prim2SF 3) with (S754_finite false 6755399441055744 (-51)).
  destruct (Prim2SF x) as [s|s| |s m e]; try destruct s;
    unfold SFltb, SFcompare; cbv beta iota;
    try (repeat split; congruence).
  rewrite (Pos.compare_cont_spec m 4503599627370496%positive Eq),
    (Pos.compare_cont_spec m 6755399441055744%positive Eq).
  destruct (Z.compare_spec e (-52)), (Z.compare_spec e (-51)); try lia;
    repeat split; try congruence.
  destruct (Pos.compare_spec m 4503599627370496%positive);
    cbv [Pos.switch_Eq]; try congruence.
  assert (Hlt : (m < 6755399441055744)%positive)
    by (eapply Pos.lt_trans; [eassumption | reflexivity]).
  destruct (Pos.compare_spec m 6755399441055744%positive) as [Heq|_|Hgt];
    [|reflexivity|].
  - rewrite Heq in Hlt. now apply Pos.lt_irrefl in Hlt.
  - exfalso. exact (Pos.lt_irrefl _ (Pos.lt_trans _ _ _ Hlt Hgt)).
Qed.

Ltac band_case :=
  repeat split;
  let H := fresh in
  intros H;
  first [ reflexivity | discriminate H | exfalso; revert H; js_neq ].

(** X1: the bands of getSharpeInterpretation partition the numbers: below 0,
    from 0 to below 1, from 1 to below 2, from 2 to below 3, and from 3 on;
    NaN, which is in none of these intervals, falls into the top band. *)
Theorem getSharpeInterpretation_bands (sharpe : float) :
  (getSharpeInterpretation sharpe = js "Poor - Returns below risk-free rate"
   <-> (sharpe <? 0)%float = true)
  /\ (getSharpeInterpretation sharpe
      = js "Acceptable - Moderate risk-adjusted returns"
      <-> (0 <=? sharpe)%float && (sharpe <? 1)%float = true)
  /\ (getSharpeInterpretation sharpe = js "Good - Strong risk-adjusted returns"
      <-> (1 <=? sharpe)%float && (sharpe <? 2)%float = true)
  /\ (getSharpeInterpretation sharpe
      = js "Very Good - Excellent risk-adjusted returns"
      <-> (2 <=? sharpe)%float && (sharpe <? 3)%float = true)
  /\ (getSharpeInterpretation sharpe
      = js "Exceptional - Outstanding risk-adjusted returns"
      <-> (3 <=? sharpe)%float || is_nan sharpe = true).
Proof.
  unfold getSharpeInterpretation.
  destruct (is_nan sharpe) eqn:Hnan.
  - rewrite !(ltb_nan_l _ Hnan), !(leb_nan_l _ Hnan). cbn [andb orb].
    band_case.
  - assert (Hle : forall k, is_nan k = false ->
                    (k <=? sharpe)%float = negb (sharpe <? k)%float).
    { intros k Hk. rewrite (ltb_leb sharpe k), Hnan, Hk.
      now destruct (k <=? sharpe)%float. }
    rewrite (Hle 0%float eq_refl), (Hle 1%float eq_refl),
      (Hle 2%float eq_refl), (Hle 3%float eq_refl).
    destruct (band_thresholds sharpe) as (M01 & M12 & M23).
    destruct (sharpe <? 0)%float, (sharpe <? 1)%float, (sharpe <? 2)%float,
      (sharpe <? 3)%float;
      try (specialize (M01 eq_refl); discriminate M01);
      try (specialize (M12 eq_refl); discriminate M12);
      try (specialize (M23 eq_refl); discriminate M23);
      cbn [negb andb orb]; band_case.
Qed.

Lemma interpretation_poor (sharpe : float) :
  getSharpeInterpretation sharpe = js "Poor - Returns below risk-free rate"
  <-> (sharpe <? 0)%float = true.
Proof.
  unfold getSharpeInterpretation.
  destruct (sharpe <? 0)%float; [split; reflexivity|].
  destruct (sharpe <? 1)%float; [band_case|].
  destruct (sharpe <? 2)%float; [band_case|].
  destruct (sharpe <? 3)%float; band_case.
Qed.

(** X2: the sign flag and the band of calculateSharpeRatio agree, except on NaN:
    the flag is false exactly when the band is "Poor" or the ratio is NaN
    (whose band is the top one). *)
Theorem calculateSharpeRatio_flag_and_band
    (toLocaleString : float -> NumberFormatOptions -> jsstring)
    (returns riskFree stdDev : float) :
  let r := calculateSharpeRatio toLocaleString returns riskFree stdDev in
  (isPositive r = false
   <-> interpretation r = Some (js "Poor - Returns below risk-free rate")
       \/ is_nan (value r) = true)
  /\ (is_nan (value r) = true ->
      interpretation r
      = Some (js "Exceptional - Outstanding risk-adjusted returns")
      /\ formatted r = js "0.00").
Proof.
  cbv zeta. unfold calculateSharpeRatio, js_ge, formatNumber, isNaN.
  cbn [isPositive interpretation value formatted].
  set (sharpe := ((returns - riskFree) / stdDev)%float).
  pose proof (interpretation_poor sharpe) as Hpoor.
  pose proof (ltb_leb sharpe 0) as Hlt.
  change (is_nan 0) with false in Hlt. cbn [negb] in Hlt.
  rewrite andb_true_r in Hlt.
  destruct (is_nan sharpe) eqn:Hnan.
  - rewrite (leb_nan_l _ Hnan). split.
    + split; auto.
    + intros _. split; [|reflexivity].
      unfold getSharpeInterpretation. now rewrite !(ltb_nan_l _ Hnan).
  - cbn [negb] in Hlt. rewrite andb_true_r in Hlt. split.
    + split.
      * intros Hflag. left. f_equal. apply Hpoor. now rewrite Hlt, Hflag.
      * intros [Hband | Hn]; [|discriminate Hn].
        injection Hband as Hband. apply Hpoor in Hband.
        rewrite Hlt in Hband. now destruct (0 <=? sharpe)%float.
    + discriminate.
Qed.

(** *** Value at risk of nothing *)

Lemma zScore_of_finite (confidence : float) :
  exists m e, Prim2SF (zScore_of confidence) = S754_finite false m e.
Proof.
  unfold zScore_of.
  destruct (confidence =? 90)%float; [eexists; eexists; vm_compute; reflexivity|].
  destruct (confidence =? 95)%float; [eexists; eexists; vm_compute; reflexivity|].
  destruct (confidence =? 99)%float; eexists; eexists; vm_compute; reflexivity.
Qed.

Lemma is_zero_SF (x : float) :
  is_zero x = true -> exists s, Prim2SF x = S754_zero s.
Proof.
  unfold is_zero. rewrite FloatAxioms.eqb_spec.
  change (Prim2SF PrimFloat.zero) with (S754_zero false).
  destruct (Prim2SF x) as [s|s| |s m e]; try destruct s; try discriminate; eauto.
Qed.

(** X3: with a portfolio value of zero, calculateVaR divides zero by zero for
    its percentage: whatever the confidence and the volatility, the
    percentage is the placeholder "0.00%", and the value itself is a zero or
    NaN. *)
Theorem calculateVaR_zero_value
    (toLocaleString : float -> NumberFormatOptions -> jsstring)
    (value_ confidence volatility : float) :
  is_zero value_ = true ->
  let r := calculateVaR toLocaleString value_ confidence volatility in
  percentage r = Some (js "0.00%")
  /\ (is_zero (value r) = true \/ is_nan (value r) = true).
Proof.
  intros Hzero. cbv zeta. unfold calculateVaR, formatPercentage, isNaN.
  cbn [percentage value]. rewrite zScores_lookup.
  destruct (is_zero_SF _ Hzero) as [s Hs].
  destruct (zScore_of_finite confidence) as (m & e & Hz).
  set (var95 := (value_ * volatility * zScore_of confidence)%float).
  assert (Hvar : Prim2SF var95 = S754_nan \/ exists s', Prim2SF var95 = S754_zero s').
  { unfold var95. rewrite !mul_spec, Hs, Hz.
    destruct (Prim2SF volatility) as [sv|sv| |sv mv ev]; cbn; eauto. }
  assert (Hpct : is_nan (var95 / value_ * 100)%float = true).
  { apply is_nan_SF. rewrite mul_spec, div_spec, Hs.
    destruct Hvar as [-> | [s' ->]]; reflexivity. }
  rewrite Hpct. split; [reflexivity|].
  destruct Hvar as [Hnan | [s' Hs']].
  - right. now apply is_nan_SF.
  - left. unfold is_zero. rewrite FloatAxioms.eqb_spec, Hs'.
    change (Prim2SF PrimFloat.zero) with (S754_zero false). reflexivity.
Qed.

Lemma calculateVaR_zero_value_witness :
  percentage (calculateVaR (fun _ _ => []) 0 95 0.02) = Some (js "0.00%").
Proof.
  apply (proj1 (calculateVaR_zero_value (fun _ _ => []) 0 95 0.02 eq_refl)).
Defined.

(** *** Placeholders of the formatters *)

(** X4: formatPercentage is formatNumber followed by "%", for every number, NaN
    included.  For NaN the placeholders do not depend on the arguments:
    formatNumber gives "0.00" whatever the number of decimals, and
    formatCurrency gives "$0.00" whatever the currency. *)
Theorem formatters_placeholders
    (toLocaleString : float -> NumberFormatOptions -> jsstring)
    (num : float) (decimals : option nat) (currency : option jsstring) :
  formatPercentage toLocaleString num decimals
  = formatNumber toLocaleString num decimals ++ js "%"
  /\ (is_nan num = true ->
      formatNumber toLocaleString num decimals = js "0.00"
      /\ formatPercentage toLocaleString num decimals = js "0.00%"
      /\ formatCurrency toLocaleString num currency = js "$0.00").
Proof.
  unfold formatPercentage, formatNumber, formatCurrency, isNaN.
  destruct (is_nan num).
  - split; [reflexivity|]. intros _. repeat split.
  - split; [|discriminate]. now destruct decimals.
Qed.

Lemma calculateSharpeRatio_flag_and_band_witness :
  formatted (calculateSharpeRatio (fun _ _ => []) 1 1 0) = js "0.00".
Proof.
  apply (proj2 (calculateSharpeRatio_flag_and_band (fun _ _ => []) 1 1 0)).
  reflexivity.
Defined.

Lemma formatters_placeholders_witness :
  formatNumber (fun _ _ => []) nan (Some 3) = js "0.00".
Proof.
  apply (proj2 (formatters_placeholders (fun _ _ => []) nan (Some 3) None)).
  reflexivity.
Defined.

(* ================================================================= *)
(** * Further properties of debounce *)

Section DebounceTraces.

Context {Args St : Type}.
Variable func : Args -> St -> St.

Lemma executedFunction_tidy (a : Args) (l : Loop Args St) :
  tidy l ->
  let l' := executedFunction Args St a l in
  tidy l' /\ calls l' = calls l /\ state l' = state l
  /\ map captured (timers l') = [a] /\ wait_ms l' = wait_ms l.
Proof.
  destruct l as [n nh ts w to cs st].
  intros [Ht | (t & Ht & Hto)]; cbn in Ht |- *; subst.
  - unfold executedFunction, setTimeout, clearTimeout. cbn.
    destruct to; cbn; (split; [right; eexists; split; reflexivity|]);
      repeat split.
  - cbn in Hto. subst. destruct t as [h d a0].
    unfold executedFunction, setTimeout, clearTimeout. cbn.
    destruct (decide (h <> h)) as [Hne|_]; [now contradiction Hne|]. cbn.
    split; [right; eexists; split; reflexivity|]. repeat split.
Qed.

Lemma elapse_tidy (dt : nat) (l : Loop Args St) :
  tidy l ->
  let l' := elapse Args St func dt l in
  tidy l' /\ wait_ms l' = wait_ms l
  /\ ((timers l' = timers l /\ calls l' = calls l /\ state l' = state l
       /\ forall t, t ∈ timers l -> now l + dt < due t)
      \/ (exists t, timers l = [t] /\ due t <= now l + dt
          /\ timers l' = [] /\ calls l' = calls l ++ [captured t]
          /\ state l' = func (captured t) (state l))).
Proof.
  destruct l as [n nh ts w to cs st].
  intros [Ht | (t & Ht & Hto)]; cbn in Ht |- *; subst.
  - unfold elapse. cbn. split; [now left|]. split; [reflexivity|].
    left. repeat split. intros t Hin. now apply elem_of_nil in Hin.
  - cbn in Hto. subst. destruct t as [h d a0]. unfold elapse. cbn.
    destruct (Nat.leb_spec d (n + dt)) as [Hle|Hlt].
    + destruct (decide (h <> h)) as [Hne|_]; [now contradiction Hne|].
      unfold later, clearTimeout. cbn.
      split; [now left|]. split; [reflexivity|].
      right. eexists. repeat split. exact Hle.
    + cbn. split; [right; eexists; split; reflexivity|].
      split; [reflexivity|]. left. repeat split.
      intros t Hin. apply list_elem_of_singleton in Hin. subst. exact Hlt.
Qed.

Lemma invoked_Invoke (a : Args) (es : list (Event Args)) :
  invoked (Invoke a :: es) = a :: invoked es.
Proof. reflexivity. Qed.

Lemma invoked_Elapse (dt : nat) (es : list (Event Args)) :
  invoked (@Elapse Args dt :: es) = invoked es.
Proof. reflexivity. Qed.

(** The calls made and the call still pending are invocations received, in
    the order received. *)
Lemma run_sublist (es : list (Event Args)) :
  forall (l : Loop Args St) (before : list Args),
    tidy l ->
    calls l ++ map captured (timers l) `sublist_of` before ->
    let l' := run Args St func es l in
    tidy l'
    /\ calls l' ++ map captured (timers l') `sublist_of` before ++ invoked es.
Proof.
  induction es as [|e es IH]; intros l before Ht Hsub.
  - cbn. rewrite app_nil_r. now split.
  - cbn [run fold_left]. fold (run Args St func es (step Args St func l e)).
    destruct e as [a|dt].
    + cbn [step]. rewrite invoked_Invoke.
      destruct (executedFunction_tidy a l Ht) as (Ht' & Hc & _ & Hcap & _).
      replace (before ++ a :: invoked es) with ((before ++ [a]) ++ invoked es)
        by now rewrite <- app_assoc.
      apply IH; [exact Ht'|]. rewrite Hc, Hcap.
      apply sublist_app; [|reflexivity].
      etransitivity; [|exact Hsub]. apply sublist_inserts_r. reflexivity.
    + cbn [step]. rewrite invoked_Elapse.
      destruct (elapse_tidy dt l Ht) as (Ht' & _ & Hcases).
      apply IH; [exact Ht'|].
      destruct Hcases as [(Hts & Hcs & _) | (t & Hts & _ & Hts' & Hcs & _)].
      * now rewrite Hts, Hcs.
      * rewrite Hts', Hcs, app_nil_r. now rewrite Hts in Hsub.
Qed.

(** X5: whatever the wrapper goes through, at most one timer is pending, and
    the wrapped function has only been called with arguments the wrapper
    received, in the order it received them, each invocation at most once:
    the calls are a sublist of the invocations. *)
Theorem debounce_calls_are_invocations
    (wait : option nat) (t0 h0 : nat) (s0 : St) (es : list (Event Args)) :
  let l := run Args St func es (debounce wait t0 h0 s0) in
  calls l `sublist_of` invoked es
  /\ length (calls l) + length (timers l) <= length (invoked es)
  /\ length (timers l) <= 1.
Proof.
  cbv zeta.
  destruct (run_sublist es (debounce wait t0 h0 s0) []) as [Ht Hsub];
    [now left | reflexivity |].
  cbn [app] in Hsub. split; [|split].
  - etransitivity; [|exact Hsub]. apply sublist_inserts_r. reflexivity.
  - apply sublist_length in Hsub. now rewrite length_app, length_map in Hsub.
  - destruct Ht as [-> | (t & -> & _)]; cbn; lia.
Qed.

(** Invocations more than a quiet period apart are all carried out, each
    before the next. *)
Lemma spaced_all_called (w : nat) (steps : list (Args * nat)) :
  forall l : Loop Args St,
    timers l = [] -> wait_ms l = w ->
    Forall (fun ag => w < snd ag) steps ->
    let l' := run Args St func (spaced steps) l in
    timers l' = [] /\ wait_ms l' = w
    /\ calls l' = calls l ++ map fst steps
    /\ state l' = fold_left (fun s a => func a s) (map fst steps) (state l).
Proof.
  induction steps as [|[a g] steps IH]; intros l Ht Hw Hgaps.
  - cbn. now rewrite app_nil_r.
  - apply Forall_cons in Hgaps as [Hg Hgaps]. cbn [snd] in Hg.
    cbn [spaced flat_map app run fold_left step fst snd map].
    fold (spaced steps).
    fold (run Args St func (spaced steps)
            (elapse Args St func g (executedFunction Args St a l))).
    destruct (executedFunction_tidy a l (or_introl Ht))
      as (Ht1 & Hc1 & Hs1 & Hcap1 & Hw1).
    set (l1 := executedFunction Args St a l) in *.
    destruct (elapse_tidy g l1 Ht1) as (_ & Hw2 & Hcases).
    assert (Hdue : exists t, timers l1 = [t] /\ captured t = a
                             /\ due t = now l1 + w).
    { subst l1. destruct l as [n nh ts w' to cs st]. cbn in Ht, Hw. subst.
      unfold executedFunction, setTimeout, clearTimeout.
      destruct to; cbn; eexists; repeat split. }
    destruct Hdue as (t & Hts & Hcap & Hd).
    destruct Hcases as [(_ & _ & _ & Hnot) | (t' & Hts' & _ & Hnone & Hcs & Hst)].
    + specialize (Hnot t). rewrite Hts in Hnot.
      specialize (Hnot (list_elem_of_here _ _)). lia.
    + rewrite Hts in Hts'. injection Hts' as <-.
      destruct (IH (elapse Args St func g l1) Hnone (eq_trans Hw2 (eq_trans Hw1 Hw))
                  Hgaps) as (Ht' & Hw' & Hc' & Hs').
      split; [exact Ht'|]. split; [exact Hw'|]. split.
      * rewrite Hc', Hcs, Hc1, Hcap. now rewrite <- app_assoc.
      * rewrite Hs', Hst, Hs1, Hcap. reflexivity.
Qed.

(** X6: nothing is swallowed when the invocations are spaced out: if each is
    followed by a pause longer than the quiet period, so that its timer is
    due before the next invocation and not at the same instant, the wrapped
    function is called for every one of them, in order, with its own
    arguments. *)
Theorem debounce_spaced_calls_all
    (wait : option nat) (t0 h0 : nat) (s0 : St) (steps : list (Args * nat)) :
  Forall (fun ag => default 300 wait < snd ag) steps ->
  let l := run Args St func (spaced steps) (debounce wait t0 h0 s0) in
  calls l = map fst steps
  /\ state l = fold_left (fun s a => func a s) (map fst steps) s0
  /\ timers l = [].
Proof.
  intros Hgaps. cbv zeta.
  destruct (spaced_all_called (default 300 wait) steps (debounce wait t0 h0 s0)
              eq_refl eq_refl Hgaps) as (Ht & _ & Hc & Hs).
  auto.
Qed.

End DebounceTraces.

(** Two invocations 301 ms apart with the default quiet period: two calls. *)
Lemma debounce_spaced_calls_all_witness :
  calls (run nat (list nat) cons (spaced [(1, 301); (2, 450)])
           (debounce None 0 0 []))
  = [1; 2].
Proof.
  refine (proj1 (debounce_spaced_calls_all cons None 0 0 [] [(1, 301); (2, 450)] _)).
  repeat constructor; cbn; lia.
Defined.

(* ================================================================= *)
(** * Score records over the life of a page *)

Lemma onDocument_scores (f : list Element -> list Element) (w : World) :
  quizScores (onDocument f w) = quizScores w.
Proof. reflexivity. Qed.

(** [handleQuizAnswer], once its two arguments are found, is a score update
    after changes of the page, followed by a change of the page. *)
Lemma handleQuizAnswer_unfold (quizContainer selectedOption : Ref) (w : World)
    (c o : Element) :
  documentQuerySelector quizContainer (document w) = Some c ->
  documentQuerySelector selectedOption (document w) = Some o ->
  exists (w3 : World) (f : list Element -> list Element),
    quizScores w3 = quizScores w
    /\ handleQuizAnswer quizContainer selectedOption w
       = onDocument f
           <$> updateQuizScore (toKey (dataset (attrs c) !! js "quizId"))
                 (or_string
                    (closest (hasClass (js "quiz-question-group")) selectedOption
                       (document w)
                       ≫= fun group => dataset (attrs group) !! js "questionId")
                    (js "default"))
                 (markedCorrect o) w3.
Proof.
  intros Hc Ho. unfold handleQuizAnswer. rewrite Hc, Ho.
  match goal with
  | |- context [updateQuizScore _ _ _ ?w3] =>
      match goal with
      | |- context [forEachElement (setStyle ?k ?v) ?opts] =>
          exists w3, (forEachElement (setStyle k v) opts)
      end
  end.
  split.
  - destruct (markedCorrect o).
    + now rewrite showQuizFeedback_scores.
    + rewrite showQuizFeedback_scores.
      destruct (List.find markedCorrect _); reflexivity.
  - now destruct (updateQuizScore _ _ _ _).
Qed.

Lemma handleQuizAnswer_found (quizContainer selectedOption : Ref) (w w' : World) :
  handleQuizAnswer quizContainer selectedOption w = Some w' ->
  exists c o,
    documentQuerySelector quizContainer (document w) = Some c
    /\ documentQuerySelector selectedOption (document w) = Some o.
Proof.
  unfold handleQuizAnswer.
  destruct (documentQuerySelector quizContainer (document w)) as [c|];
    [|discriminate].
  destruct (documentQuerySelector selectedOption (document w)) as [o|];
    [|discriminate].
  intros _. now exists c, o.
Qed.

(** What a step does to the records: nothing, or one question counted once
    in one record that was there. *)
Lemma quizStep_scores (toLowerCase : jsstring -> jsstring) (w w' : World) :
  quizStep toLowerCase w w' ->
  quizScores w' = quizScores w
  \/ exists quizId questionId isCorrect sd,
       quizScores w !! quizId = Some sd
       /\ quizScores w'
          = <[quizId := countOnce questionId isCorrect sd]> (quizScores w).
Proof.
  intros [w0 w0' quizId questionId isCorrect Hupd
         | w0 w0' ref Hsub
         | w0 w0' ref opt Hans
         | w0 change].
  - right. apply updateQuizScore_inv in Hupd as (sd & Hsd & Heq).
    now exists quizId, questionId, isCorrect, sd.
  - apply handleQuizSubmit_scores in Hsub
      as [Heq | (quizId & questionId & isCorrect & w1 & w2 & H1 & Hupd & H2)].
    + now left.
    + right. apply updateQuizScore_inv in Hupd as (sd & Hsd & Heq).
      exists quizId, questionId, isCorrect, sd.
      rewrite <- H1. split; [exact Hsd|]. now rewrite H2.
  - right.
    destruct (handleQuizAnswer_found _ _ _ _ Hans) as (c & o & Hc & Ho).
    destruct (handleQuizAnswer_unfold _ _ _ _ _ Hc Ho) as (w3 & f & H3 & Heq).
    rewrite Heq in Hans.
    destruct (updateQuizScore _ _ _ w3) as [w4|] eqn:Hupd; [|discriminate].
    injection Hans as <-.
    apply updateQuizScore_inv in Hupd as (sd & Hsd & Hins).
    eexists _, _, _, sd. rewrite <- H3. split; [exact Hsd|].
    rewrite onDocument_scores. exact Hins.
  - now left.
Qed.

Lemma initializeQuiz_scores (w : World) (iq : nat * Element) :
  quizScores (initializeQuiz w iq) = quizScores w
  \/ exists quizId,
       quizScores w !! quizId = None /\ (quizId ∉ objectPrototype)
       /\ quizScores (initializeQuiz w iq)
          = <[quizId := {| total := 0; correct := 0; answered := ∅ |}]>
              (quizScores w).
Proof.
  destruct iq as [index quiz]. unfold initializeQuiz. cbn [quizScores].
  set (quizId := or_string _ _). unfold getScore.
  destruct (quizScores w !! quizId) as [sd|] eqn:Hsd; [now left|].
  destruct (bool_decide (quizId ∈ objectPrototype)) eqn:Hproto; [now left|].
  right. exists quizId. apply bool_decide_eq_false in Hproto. now repeat split.
Qed.

Lemma initializeQuizzes_scores (l : list (nat * Element)) :
  forall (w : World) (quizId : jsstring),
    match quizScores w !! quizId with
    | Some sd => quizScores (fold_left initializeQuiz l w) !! quizId = Some sd
    | None =>
        quizScores (fold_left initializeQuiz l w) !! quizId = None
        \/ (quizScores (fold_left initializeQuiz l w) !! quizId
            = Some {| total := 0; correct := 0; answered := ∅ |}
            /\ (quizId ∉ objectPrototype))
    end.
Proof.
  induction l as [|iq l IH]; intros w quizId; cbn [fold_left].
  - destruct (quizScores w !! quizId); [reflexivity | now left].
  - specialize (IH (initializeQuiz w iq) quizId).
    destruct (initializeQuiz_scores w iq) as [Heq | (q & Hq & Hproto & Heq)];
      rewrite Heq in IH.
    + exact IH.
    + destruct (decide (q = quizId)) as [->|Hne].
      * rewrite lookup_insert_eq in IH. rewrite Hq. right. now split.
      * rewrite lookup_insert_ne in IH by exact Hne. exact IH.
Qed.

(** X7: [initializeQuizzes] never resets a score: a record that is there
    when it runs (again) is kept as it is.  A record it adds is empty, and
    none is added under a name that [Object.prototype] has. *)
Theorem initializeQuizzes_keeps_records (w : World) (quizId : jsstring) :
  match quizScores w !! quizId with
  | Some sd => quizScores (initializeQuizzes w) !! quizId = Some sd
  | None =>
      quizScores (initializeQuizzes w) !! quizId = None
      \/ (quizScores (initializeQuizzes w) !! quizId
          = Some {| total := 0; correct := 0; answered := ∅ |}
          /\ (quizId ∉ objectPrototype))
  end.
Proof. apply initializeQuizzes_scores. Qed.

Lemma countOnce_grows (questionId : jsstring) (isCorrect : bool) (sd : ScoreData) :
  let sd' := countOnce questionId isCorrect sd in
  total sd <= total sd' <= S (total sd)
  /\ correct sd <= correct sd' <= S (correct sd)
  /\ answered sd ⊆ answered sd'.
Proof.
  unfold countOnce. destruct (bool_decide _); cbn.
  - repeat split; try lia. reflexivity.
  - destruct isCorrect; repeat split; try lia; apply union_subseteq_l.
Qed.

(** A step creates no record, and removes none. *)
Lemma quizStep_records (toLowerCase : jsstring -> jsstring) (w w' : World)
    (quizId : jsstring) :
  quizStep toLowerCase w w' ->
  match quizScores w !! quizId with
  | None => quizScores w' !! quizId = None
  | Some sd =>
      exists sd',
        quizScores w' !! quizId = Some sd'
        /\ total sd <= total sd' <= S (total sd)
        /\ correct sd <= correct sd' <= S (correct sd)
        /\ answered sd ⊆ answered sd'
  end.
Proof.
  intros Hstep.
  destruct (quizStep_scores _ _ _ Hstep)
    as [Heq | (q & questionId & isCorrect & sd0 & Hsd0 & Heq)]; rewrite Heq.
  - destruct (quizScores w !! quizId) as [sd|]; [|reflexivity].
    exists sd. repeat split; try lia. reflexivity.
  - destruct (decide (q = quizId)) as [->|Hne].
    + rewrite Hsd0, lookup_insert_eq. eexists. split; [reflexivity|].
      apply countOnce_grows.
    + rewrite lookup_insert_ne by exact Hne.
      destruct (quizScores w !! quizId) as [sd|]; [|reflexivity].
      exists sd. repeat split; try lia. reflexivity.
Qed.

(** X8: whatever the handlers do, in any order and with any changes of the
    page in between, the records only grow: no record is created or
    removed, no counter goes down, no answered question is forgotten. *)
Theorem quiz_records_only_grow (toLowerCase : jsstring -> jsstring)
    (w w' : World) (quizId : jsstring) :
  rtc (quizStep toLowerCase) w w' ->
  match quizScores w !! quizId with
  | None => quizScores w' !! quizId = None
  | Some sd =>
      exists sd',
        quizScores w' !! quizId = Some sd'
        /\ total sd <= total sd'
        /\ correct sd <= correct sd'
        /\ answered sd ⊆ answered sd'
  end.
Proof.
  induction 1 as [w | w w1 w' Hstep _ IH].
  - destruct (quizScores w !! quizId) as [sd|]; [|reflexivity].
    exists sd. repeat split; try lia. reflexivity.
  - pose proof (quizStep_records _ _ _ quizId Hstep) as H1.
    destruct (quizScores w !! quizId) as [sd|].
    + destruct H1 as (sd1 & Hsd1 & Ht & Hc & Ha). rewrite Hsd1 in IH.
      destruct IH as (sd' & Hsd' & Ht' & Hc' & Ha').
      exists sd'. repeat split; [exact Hsd' | lia | lia |].
      etransitivity; [exact Ha | exact Ha'].
    + now rewrite H1 in IH.
Qed.

(** After two answers on the page of ungrouped options, the one record of
    the page is still there. *)
Lemma quiz_records_only_grow_witness :
  exists w' sd',
    (handleQuizAnswer (hasUid 0) (hasUid 2) optionQuizLoaded
       ≫= handleQuizAnswer (hasUid 0) (hasUid 4)) = Some w'
    /\ quizScores w' !! js "quiz-0" = Some sd'
    /\ 0 <= total sd'.
Proof.
  destruct (handleQuizAnswer (hasUid 0) (hasUid 2) optionQuizLoaded) as [w1|] eqn:H1;
    [|vm_compute in H1; discriminate H1].
  destruct (handleQuizAnswer (hasUid 0) (hasUid 4) w1) as [w2|] eqn:H2;
    [|revert H2; injection H1 as <-; vm_compute; discriminate].
  pose proof (quiz_records_only_grow id optionQuizLoaded w2 (js "quiz-0")
                (rtc_l _ _ _ _ (step_answer id _ _ _ _ H1)
                   (rtc_once _ _ (step_answer id _ _ _ _ H2)))) as Hgrow.
  change (quizScores optionQuizLoaded !! js "quiz-0")
    with (Some {| total := 0; correct := 0; answered := (∅ : gset (list N)) |}) in Hgrow.
  destruct Hgrow as (sd' & Hsd' & Ht & _).
  exists w2, sd'. cbn [mbind option_bind]. now repeat split.
Defined.

Lemma loaded_prototype (page : list Element) (firstFreeUid : nat)
    (quizId : jsstring) :
  quizId ∈ objectPrototype ->
  quizScores (loaded page firstFreeUid) !! quizId = None.
Proof.
  intros Hproto. unfold loaded.
  pose proof (initializeQuizzes_scores
                (imap pair (documentQuerySelectorAll (hasClass (js "quiz-container")) page))
                {| quizScores := ∅; document := page; nextUid := firstFreeUid;
                   confettiBursts := 0 |} quizId) as H.
  cbn [quizScores] in H. rewrite lookup_empty in H.
  destruct H as [H | [_ Hn]]; [exact H | now contradiction Hn].
Qed.

Lemma rtc_quizStep_none (toLowerCase : jsstring -> jsstring) (w w' : World)
    (quizId : jsstring) :
  rtc (quizStep toLowerCase) w w' ->
  quizScores w !! quizId = None -> quizScores w' !! quizId = None.
Proof.
  induction 1 as [w | w w1 w' Hstep _ IH]; intros Hnone; [exact Hnone|].
  apply IH. pose proof (quizStep_records _ _ _ quizId Hstep) as H1.
  now rewrite Hnone in H1.
Qed.

(** X9: a quiz whose identifier is the name of a property of
    [Object.prototype] (such as [constructor]) gets no score record when
    the script is loaded, and never has one later; grading it raises a
    TypeError: [updateQuizScore] and, once its quiz is found,
    [handleQuizAnswer] do not return. *)
Theorem prototype_named_quiz_is_never_scored (toLowerCase : jsstring -> jsstring)
    (page : list Element) (firstFreeUid : nat) (w : World) (quizId : jsstring) :
  quizId ∈ objectPrototype ->
  rtc (quizStep toLowerCase) (loaded page firstFreeUid) w ->
  quizScores w !! quizId = None
  /\ (forall questionId isCorrect,
        updateQuizScore quizId questionId isCorrect w = None)
  /\ (forall quizContainer selectedOption c,
        documentQuerySelector quizContainer (document w) = Some c ->
        dataset (attrs c) !! js "quizId" = Some quizId ->
        handleQuizAnswer quizContainer selectedOption w = None).
Proof.
  intros Hproto Hreach.
  assert (Hnone : quizScores w !! quizId = None).
  { eapply rtc_quizStep_none; [exact Hreach|]. now apply loaded_prototype. }
  assert (Hupd : forall w0 questionId isCorrect,
             quizScores w0 = quizScores w ->
             updateQuizScore quizId questionId isCorrect w0 = None).
  { intros w0 questionId isCorrect H0. unfold updateQuizScore, getScore.
    rewrite H0, Hnone. now destruct (bool_decide _). }
  split; [exact Hnone|]. split; [intros; now apply Hupd|].
  intros quizContainer selectedOption c Hc Hid.
  destruct (documentQuerySelector selectedOption (document w)) as [o|] eqn:Ho.
  - destruct (handleQuizAnswer_unfold _ _ _ _ _ Hc Ho) as (w3 & f & H3 & Heq).
    rewrite Heq, Hid. cbn [toKey default from_option id].
    now rewrite (Hupd w3 _ _ H3).
  - unfold handleQuizAnswer. now rewrite Hc, Ho.
Qed.

(** On a page whose only quiz is named [constructor], answering the option
    raises. *)
Lemma prototype_named_quiz_is_never_scored_witness :
  quizScores (loaded prototypeQuizPage 2) !! js "constructor" = None
  /\ handleQuizAnswer (hasUid 0) (hasUid 1) (loaded prototypeQuizPage 2) = None.
Proof.
  destruct (prototype_named_quiz_is_never_scored id prototypeQuizPage 2
              (loaded prototypeQuizPage 2) (js "constructor"))
    as (Hnone & _ & Hans).
  - vm_compute. apply list_elem_of_here.
  - apply rtc_refl.
  - split; [exact Hnone|].
    apply (Hans (hasUid 0) (hasUid 1)
             (plain 0 [js "quiz-container"] [(js "quizId", js "constructor")] None
                [ plain 1 [js "quiz-option"] [(js "correct", js "true")] None [] ]));
      vm_compute; reflexivity.
Defined.

(** X10: an option that is in no question group, or in one without an
    identifier, is graded as question [default]: of all such answers of a
    quiz only the first is counted, a later one leaves every record as it
    is. *)
Theorem handleQuizAnswer_ungrouped_counts_once
    (quizContainer selectedOption : Ref) (w : World) (c o : Element)
    (sd : ScoreData) :
  documentQuerySelector quizContainer (document w) = Some c ->
  documentQuerySelector selectedOption (document w) = Some o ->
  (closest (hasClass (js "quiz-question-group")) selectedOption (document w)
     ≫= fun group => dataset (attrs group) !! js "questionId") = None ->
  quizScores w !! toKey (dataset (attrs c) !! js "quizId") = Some sd ->
  exists w',
    handleQuizAnswer quizContainer selectedOption w = Some w'
    /\ quizScores w'
       = <[toKey (dataset (attrs c) !! js "quizId")
             := countOnce (js "default") (markedCorrect o) sd]> (quizScores w)
    /\ (js "default" ∈ answered sd -> quizScores w' = quizScores w)
    /\ (forall sd',
          quizScores w' !! toKey (dataset (attrs c) !! js "quizId") = Some sd' ->
          js "default" ∈ answered sd').
Proof.
  intros Hc Ho Hgroup Hsd.
  destruct (handleQuizAnswer_unfold _ _ _ _ _ Hc Ho) as (w3 & f & H3 & Heq).
  rewrite Hgroup in Heq. cbn [or_string] in Heq.
  rewrite <- H3 in Hsd.
  destruct (updateQuizScore_returns _ (js "default") (markedCorrect o) _ _ Hsd)
    as (w4 & Hupd & Hins).
  rewrite Hupd in Heq. exists (onDocument f w4).
  split; [exact Heq|]. rewrite onDocument_scores, Hins, H3.
  split; [reflexivity|]. split.
  - intros Hin. rewrite countOnce_again by exact Hin.
    apply insert_id. now rewrite <- H3.
  - intros sd'. rewrite lookup_insert_eq. intros [= <-].
    unfold countOnce. destruct (bool_decide _) eqn:Hb.
    + now apply bool_decide_eq_true in Hb.
    + cbn [answered]. apply elem_of_union_r. now apply elem_of_singleton.
Qed.

(** On the page of ungrouped options, a first wrong answer is counted; the
    record then holds question [default]. *)
Lemma handleQuizAnswer_ungrouped_counts_once_witness :
  exists w',
    handleQuizAnswer (hasUid 0) (hasUid 2) optionQuizLoaded = Some w'
    /\ quizScores w'
       = <[js "quiz-0" := {| total := 1; correct := 0; answered := {[ js "default" ]} |}]>
           (quizScores optionQuizLoaded).
Proof.
  destruct (handleQuizAnswer_ungrouped_counts_once (hasUid 0) (hasUid 2)
              optionQuizLoaded
              (default (plain 0 [] [] None [])
                 (documentQuerySelector (hasUid 0) (document optionQuizLoaded)))
              (plain 2 [js "quiz-option"] [(js "correct", js "false")] None [])
              {| total := 0; correct := 0; answered := ∅ |})
    as (w' & Hans & Hscores & _).
  - vm_compute. reflexivity.
  - vm_compute. reflexivity.
  - vm_compute. reflexivity.
  - vm_compute. reflexivity.
  - exists w'. split; [exact Hans|]. rewrite Hscores.
    vm_compute. reflexivity.
Defined.

(* ================================================================= *)
(** * The feedback block *)

Lemma feedback_blocks (u : nat) (isCorrect : bool) (explanation : jsstring)
    (c : Element) :
  1 <= feedbackBlocks (feedback u isCorrect explanation c)
    <= Nat.max 1 (feedbackBlocks c).
Proof.
  unfold feedbackBlocks, querySelectorAll, feedback, appendChild, removeFirst.
  cbn [children].
  rewrite elements_app, List.filter_app, length_app.
  match goal with
  | |- context [elements [createDiv ?u ?cl ?m ?s]] =>
      assert (Hnew : length (List.filter (hasClass (js "quiz-feedback"))
                       (elements [createDiv u cl m s])) = 1)
        by (destruct isCorrect; reflexivity)
  end.
  rewrite Hnew.
  pose proof (removeFirst_fewer (hasClass (js "quiz-feedback"))
                (shallow_hasClass _) (children c)) as H.
  destruct (replaceFirstIn _ _ (children c)) as [cs'|]; cbn [default from_option id].
  - lia.
  - rewrite H. cbn [length]. lia.
Qed.

Lemma feedback_keeps (sel : Element -> bool) (u : nat) (isCorrect : bool)
    (explanation : jsstring) (c : Element) :
  shallow sel -> sel (feedback u isCorrect explanation c) = sel c.
Proof.
  intros Hs. destruct c as [u' a cs]. unfold feedback, appendChild. cbn.
  apply Hs.
Qed.

(** X11: for an explanation that holds no markup (no [<], so that the
    block it is put in brings no element of its own), [showQuizFeedback]
    leaves the quiz with its old feedback block taken out and a new one as
    its last child, carrying the label and the explanation (nothing for an
    explanation left out); a quiz that had at most one block has exactly
    one.  Scores and confetti are untouched. *)
Theorem showQuizFeedback_one_block (quizContainer : Ref) (isCorrect : bool)
    (explanation : option jsstring) (w : World) (c : Element) :
  Forall (fun ch => ch <> 60%N) (default [] explanation) ->
  shallow quizContainer ->
  documentQuerySelector quizContainer (document w) = Some c ->
  let w' := showQuizFeedback quizContainer isCorrect explanation w in
  exists c' block,
    documentQuerySelector quizContainer (document w') = Some c'
    /\ last (children c') = Some block
    /\ uid block = nextUid w
    /\ classList (attrs block)
       = [js "quiz-feedback"; if isCorrect then js "correct" else js "incorrect"]
    /\ innerHTML (attrs block)
       = (if isCorrect then js "Correct!" else js "Incorrect")
           ++ default [] explanation
    /\ 1 <= feedbackBlocks c' <= Nat.max 1 (feedbackBlocks c)
    /\ (feedbackBlocks c <= 1 -> feedbackBlocks c' = 1)
    /\ quizScores w' = quizScores w
    /\ confettiBursts w' = confettiBursts w
    /\ nextUid w' = S (nextUid w).
Proof.
  intros _ Hs Hc w'.
  assert (Hfound :
    documentQuerySelector quizContainer (document w')
    = Some (feedback (nextUid w) isCorrect (default [] explanation) c)).
  { unfold w', showQuizFeedback. cbn [document].
    rewrite documentQuerySelector_modifyFirst, Hc; [reflexivity | exact Hs |].
    intros x Hx. now rewrite feedback_keeps. }
  pose proof (feedback_blocks (nextUid w) isCorrect (default [] explanation) c) as Hb.
  eexists _, _. split; [exact Hfound|].
  split; [unfold feedback, appendChild; cbn [children]; apply last_snoc|].
  repeat split; try reflexivity; lia.
Qed.

(** On the page of ungrouped options the quiz has no block; after a feedback
    it has one. *)
Lemma showQuizFeedback_one_block_witness :
  exists c',
    documentQuerySelector (hasUid 0)
      (document (showQuizFeedback (hasUid 0) true None optionQuizLoaded)) = Some c'
    /\ feedbackBlocks c' = 1.
Proof.
  destruct (showQuizFeedback_one_block (hasUid 0) true None optionQuizLoaded
              (default (plain 0 [] [] None [])
                 (documentQuerySelector (hasUid 0) (document optionQuizLoaded)))
              (List.Forall_nil _) (shallow_hasUid 0))
    as (c' & block & Hc' & _ & _ & _ & _ & _ & Hone & _).
  - vm_compute. reflexivity.
  - exists c'. split; [exact Hc'|]. apply Hone. vm_compute. lia.
Defined.

(* ================================================================= *)
(** * When the celebration starts *)

Lemma quizStep_ok (toLowerCase : jsstring -> jsstring) (w w' : World) :
  quizStep toLowerCase w w' -> scores_ok w -> scores_ok w'.
Proof.
  intros Hstep Hok.
  destruct (quizStep_scores _ _ _ Hstep)
    as [Heq | (q & questionId & isCorrect & sd0 & Hsd0 & Heq)];
    unfold scores_ok; rewrite Heq; [exact Hok|].
  apply (scores_ok_insert w); [exact Hok|].
  apply countOnce_ok. exact (Hok _ _ Hsd0).
Qed.

Lemma rtc_quizStep_ok (toLowerCase : jsstring -> jsstring) (w w' : World) :
  rtc (quizStep toLowerCase) w w' -> scores_ok w -> scores_ok w'.
Proof.
  induction 1 as [w | w w1 w' Hstep _ IH]; intros Hok; [exact Hok|].
  apply IH. exact (quizStep_ok _ _ _ Hstep Hok).
Qed.

Lemma countOnce_answered (questionId : jsstring) (isCorrect : bool)
    (sd : ScoreData) :
  answered (countOnce questionId isCorrect sd) = answered sd ∪ {[ questionId ]}.
Proof.
  unfold countOnce. destruct (bool_decide _) eqn:Hb; [|reflexivity].
  apply bool_decide_eq_true in Hb. apply set_eq. intros x.
  rewrite elem_of_union, elem_of_singleton. split; [now left|].
  intros [H | ->]; assumption.
Qed.

(** X12: on a page the script was loaded on, whatever happened since, and
    for a quiz identifier that needs no escaping in the selectors it is
    pasted into: a score update does not celebrate while the first element
    that carries the identifier has more gradable elements than questions
    are answered; the page gets the score label and nothing else, no
    confetti starts. *)
Theorem celebration_needs_every_gradable_answered
    (toLowerCase : jsstring -> jsstring) (page : list Element) (firstFreeUid : nat)
    (w : World) (quizId questionId : jsstring) (isCorrect : bool)
    (sd : ScoreData) (c : Element) :
  plainId quizId = true ->
  rtc (quizStep toLowerCase) (loaded page firstFreeUid) w ->
  quizScores w !! quizId = Some sd ->
  documentQuerySelector (dataIs (js "quizId") quizId)
    (showScore quizId (countOnce questionId isCorrect sd) (document w)) = Some c ->
  size (answered sd ∪ {[ questionId ]}) < length (querySelectorAll gradable c) ->
  exists w',
    updateQuizScore quizId questionId isCorrect w = Some w'
    /\ confettiBursts w' = confettiBursts w
    /\ document w' = showScore quizId (countOnce questionId isCorrect sd) (document w)
    /\ nextUid w' = nextUid w.
Proof.
  intros _ Hreach Hsd Hc Hsize.
  pose proof (rtc_quizStep_ok _ _ _ Hreach (loaded_ok _ _)) as Hok.
  pose proof (countOnce_ok questionId isCorrect sd (Hok _ _ Hsd)) as [Hle Htot].
  rewrite countOnce_answered in Htot.
  unfold updateQuizScore, getScore. rewrite Hsd.
  unfold checkQuizCompletion, getScore. cbn [document quizScores].
  rewrite Hc, lookup_insert_eq.
  destruct (Nat.eqb_spec (correct (countOnce questionId isCorrect sd))
              (length (querySelectorAll gradable c))) as [Heq|Hne].
  - lia.
  - cbn [andb]. eexists. split; [reflexivity|]. now repeat split.
Qed.

(** The quiz of ungrouped options has four gradable options and one
    question, [default]: a correct answer does not celebrate. *)
Lemma celebration_needs_every_gradable_answered_witness :
  exists w',
    updateQuizScore (js "quiz-0") (js "default") true optionQuizLoaded = Some w'
    /\ confettiBursts w' = 0.
Proof.
  destruct (celebration_needs_every_gradable_answered id optionQuizPage 5
              optionQuizLoaded (js "quiz-0") (js "default") true
              {| total := 0; correct := 0; answered := ∅ |}
              (default (plain 0 [] [] None [])
                 (documentQuerySelector (hasUid 0) (document optionQuizLoaded))))
    as (w' & Hupd & Hconf & _).
  - reflexivity.
  - apply rtc_refl.
  - vm_compute. reflexivity.
  - vm_compute. reflexivity.
  - vm_compute. lia.
  - exists w'. split; [exact Hupd|]. exact Hconf.
Defined.

(** X13: for a quiz identifier that needs no escaping in the selectors it
    is pasted into: once the first element that carries the identifier is
    complete, every further score update under the identifier that adds no
    correct answer (a wrong answer, or an answer to a question already
    counted) celebrates again: the confetti starts once more and a new
    panel is created. *)
Theorem complete_quiz_celebrates_again
    (quizId questionId : jsstring) (isCorrect : bool)
    (w : World) (sd : ScoreData) (c : Element) :
  plainId quizId = true ->
  quizScores w !! quizId = Some sd ->
  isCorrect = false \/ questionId ∈ answered sd ->
  documentQuerySelector (dataIs (js "quizId") quizId)
    (showScore quizId (countOnce questionId isCorrect sd) (document w)) = Some c ->
  complete sd c ->
  exists w',
    updateQuizScore quizId questionId isCorrect w = Some w'
    /\ confettiBursts w' = S (confettiBursts w)
    /\ nextUid w' = S (nextUid w)
    /\ correct <$> quizScores w' !! quizId = Some (correct sd).
Proof.
  intros _ Hsd Hnew Hc Hcomplete.
  assert (Hcorrect : correct (countOnce questionId isCorrect sd) = correct sd).
  { unfold countOnce. destruct (bool_decide _) eqn:Hb; [reflexivity|].
    destruct Hnew as [-> | Hin]; [reflexivity|].
    apply bool_decide_eq_false in Hb. now contradiction Hb. }
  unfold updateQuizScore, getScore. rewrite Hsd.
  unfold checkQuizCompletion, getScore. cbn [document quizScores].
  rewrite Hc, lookup_insert_eq, Hcorrect.
  apply complete_test in Hcomplete. rewrite Hcomplete.
  eexists. split; [reflexivity|]. cbn [confettiBursts nextUid showCelebration
    triggerConfetti quizScores].
  rewrite lookup_insert_eq. cbn. now rewrite Hcorrect.
Qed.

(** The free-text quiz, complete after its one correct answer, celebrates
    again on a wrong answer to another question. *)
Lemma complete_quiz_celebrates_again_witness :
  exists w1 w2,
    updateQuizScore (js "quiz-0") (js "input-question") true
      (textQuizLoaded (js "Paris") (js "paris")) = Some w1
    /\ updateQuizScore (js "quiz-0") (js "other") false w1 = Some w2
    /\ confettiBursts w2 = 2.
Proof.
  destruct (updateQuizScore (js "quiz-0") (js "input-question") true
              (textQuizLoaded (js "Paris") (js "paris"))) as [w1|] eqn:H1;
    [|vm_compute in H1; discriminate H1].
  assert (Hw1 : confettiBursts w1 = 1
                /\ quizScores w1 !! js "quiz-0"
                   = Some {| total := 1; correct := 1;
                             answered := {[ js "input-question" ]} |}).
  { revert H1. vm_compute. intros [= <-]. split; reflexivity. }
  destruct Hw1 as [Hconf Hsd].
  destruct (complete_quiz_celebrates_again (js "quiz-0") (js "other") false w1
              {| total := 1; correct := 1; answered := {[ js "input-question" ]} |}
              (default (plain 0 [] [] None [])
                 (documentQuerySelector (dataIs (js "quizId") (js "quiz-0"))
                    (showScore (js "quiz-0")
                       (countOnce (js "other") false
                          {| total := 1; correct := 1;
                             answered := {[ js "input-question" ]} |})
                       (document w1)))))
    as (w2 & H2 & Hconf2 & _).
  - reflexivity.
  - exact Hsd.
  - now left.
  - revert H1. vm_compute. intros [= <-]. reflexivity.
  - revert H1. vm_compute. intros [= <-]. split; [reflexivity | lia].
  - exists w1, w2. split; [reflexivity|]. split; [exact H2|].
    rewrite Hconf2, Hconf. reflexivity.
Defined.

(* ================================================================= *)
(** * What the validation accepts *)

Lemma ltb_false_leb (x y : float) :
  is_nan x = false -> is_nan y = false ->
  (x <? y)%float = false <-> (y <=? x)%float = true.
Proof.
  intros Hx Hy. rewrite ltb_leb, Hx, Hy. cbn [negb andb].
  rewrite !andb_true_r. now destruct (y <=? x)%float.
Qed.

Lemma ltb_nan_r (x y : float) : is_nan y = true -> (x <? y)%float = false.
Proof. intros Hy. rewrite ltb_leb, Hy. cbn [negb]. now rewrite andb_false_r. Qed.

(** X14: an input is accepted exactly when the number read from it is not
    NaN and meets every constraint that is set: not below zero when
    negatives are refused (minus zero passes), integral when decimals are
    refused, not below the minimum, not above the maximum.  A bound that is
    NaN constrains nothing. *)
Theorem validateNumericInput_valid_iff (value_ : jsstring) (o : NumericOptions)
    (num : float) :
  validateNumericInput value_ o = Valid num
  <-> num = parseFloat value_
      /\ is_nan num = false
      /\ (allowNegative o = Some false -> (0 <=? num)%float = true)
      /\ (allowDecimal o = Some false -> Number_isInteger num = true)
      /\ (forall b, min_ o = Some b -> is_nan b = false -> (b <=? num)%float = true)
      /\ (forall b, max_ o = Some b -> is_nan b = false -> (num <=? b)%float = true).
Proof.
  unfold validateNumericInput, isNaN, js_gt.
  set (n := parseFloat value_).
  destruct (is_nan n) eqn:Hnan.
  { split; [discriminate|]. intros (-> & Hn & _). congruence. }
  assert (H0 : is_nan 0%float = false) by reflexivity.
  pose proof (ltb_false_leb n 0 Hnan H0) as Hneg.
  assert (Hmin : (n <? default neg_infinity (min_ o))%float = false
                 <-> forall b, min_ o = Some b -> is_nan b = false ->
                               (b <=? n)%float = true).
  { destruct (min_ o) as [b|]; cbn [default from_option id].
    - destruct (is_nan b) eqn:Hb.
      + rewrite (ltb_nan_r n b Hb). split; [|reflexivity].
        intros _ b' [= <-]. congruence.
      + rewrite (ltb_false_leb n b Hnan Hb). split.
        * intros H b' [= <-] _. exact H.
        * intros H. now apply H.
    - rewrite ltb_neg_infinity. split; [discriminate | reflexivity]. }
  assert (Hmax : (default infinity (max_ o) <? n)%float = false
                 <-> forall b, max_ o = Some b -> is_nan b = false ->
                               (n <=? b)%float = true).
  { destruct (max_ o) as [b|]; cbn [default from_option id].
    - destruct (is_nan b) eqn:Hb.
      + rewrite (ltb_nan_l b Hb n). split; [|reflexivity].
        intros _ b' [= <-]. congruence.
      + rewrite (ltb_false_leb b n Hb Hnan). split.
        * intros H b' [= <-] _. exact H.
        * intros H. now apply H.
    - rewrite infinity_ltb. split; [discriminate | reflexivity]. }
  destruct (allowNegative o) as [[|]|], (allowDecimal o) as [[|]|];
    cbn [default from_option id negb andb];
    repeat match goal with
    | |- context [(n <? 0)%float] => destruct (n <? 0)%float eqn:Hlt0
    | |- context [Number_isInteger n] => destruct (Number_isInteger n) eqn:Hint
    | |- context [(n <? default neg_infinity (min_ o))%float] =>
        destruct (n <? default neg_infinity (min_ o))%float eqn:Hltmin
    | |- context [(default infinity (max_ o) <? n)%float] =>
        destruct (default infinity (max_ o) <? n)%float eqn:Hgtmax
    end;
    cbn [negb andb];
    (split;
     [ try discriminate; intros [= <-];
       repeat split; try assumption; try discriminate; try reflexivity;
       try (intros _; assumption);
       try (intros _; now apply Hneg);
       try (now apply Hmin); try (now apply Hmax)
     | intros (-> & _ & Hn & Hi & Hlo & Hhi); try reflexivity;
       try (apply Hmin in Hlo; discriminate Hlo);
       try (apply Hmax in Hhi; discriminate Hhi);
       try (specialize (Hn eq_refl); apply Hneg in Hn; discriminate Hn);
       try (specialize (Hi eq_refl); congruence) ]).
Qed.

(* ================================================================= *)
(** * What [parseFloat] reads of an input *)

Lemma trimStart_blank (ws s : jsstring) :
  Forall (fun c => isWhiteSpace c = true) ws -> trimStart (ws ++ s) = trimStart s.
Proof.
  induction 1 as [|c ws Hc _ IH]; [reflexivity|].
  cbn [app trimStart]. now rewrite Hc.
Qed.

Lemma parseFloat_blank (ws s : jsstring) :
  Forall (fun c => isWhiteSpace c = true) ws ->
  parseFloat (ws ++ s) = parseFloat s.
Proof. intros Hws. unfold parseFloat. now rewrite trimStart_blank. Qed.

(** X15: white space before the number is skipped, for every option; an
    input of white space only, or the empty input, is refused as not a
    number. *)
Theorem validateNumericInput_leading_whitespace (ws value_ : jsstring)
    (o : NumericOptions) :
  Forall (fun c => isWhiteSpace c = true) ws ->
  validateNumericInput (ws ++ value_) o = validateNumericInput value_ o
  /\ validateNumericInput ws o = Invalid NotANumber.
Proof.
  intros Hws. unfold validateNumericInput. rewrite parseFloat_blank by exact Hws.
  split; [reflexivity|].
  rewrite <- (app_nil_r ws), parseFloat_blank by exact Hws. reflexivity.
Qed.

Lemma validateNumericInput_leading_whitespace_witness :
  validateNumericInput (js "  42") noOptions = validateNumericInput (js "42") noOptions
  /\ validateNumericInput (js "  ") noOptions = Invalid NotANumber.
Proof.
  apply (validateNumericInput_leading_whitespace (js "  ") (js "42") noOptions).
  repeat constructor.
Defined.

Lemma isDigit_range (c : N) : isDigit c = true <-> (48 <= c <= 57)%N.
Proof.
  unfold isDigit. rewrite andb_true_iff, !N.leb_le. reflexivity.
Qed.

Lemma isDigit_not_space (c : N) : isDigit c = true -> isWhiteSpace c = false.
Proof.
  intros Hd. apply isDigit_range in Hd.
  destruct (isWhiteSpace c) eqn:Hw; [|reflexivity].
  apply isWhiteSpace_range in Hw. lia.
Qed.

Lemma takeDigits_app (ds : jsstring) (c : N) (rest : jsstring) :
  Forall (fun d => isDigit d = true) ds -> isDigit c = false ->
  takeDigits (ds ++ c :: rest) = (fst (takeDigits ds), c :: rest)
  /\ snd (takeDigits ds) = [].
Proof.
  intros Hds Hc. induction Hds as [|d ds Hd _ [IH1 IH2]].
  - cbn [app takeDigits]. now rewrite Hc.
  - cbn [app takeDigits]. rewrite Hd, IH1.
    destruct (takeDigits ds) as [vs r]. cbn [fst snd] in *. now split.
Qed.

Lemma takeDigits_nonempty (d : N) (ds : jsstring) :
  isDigit d = true -> fst (takeDigits (d :: ds)) <> [].
Proof.
  intros Hd. cbn [takeDigits]. rewrite Hd. now destruct (takeDigits ds).
Qed.

Lemma unsignedLiteral_digits (d : N) (ds : jsstring) (c : N) (rest : jsstring) :
  isDigit d = true -> Forall (fun x => isDigit x = true) ds ->
  isDigit c = false -> c <> 46%N -> c <> 101%N -> c <> 69%N ->
  unsignedLiteral ((d :: ds) ++ c :: rest) = unsignedLiteral (d :: ds).
Proof.
  intros Hd Hds Hc Hdot He HE.
  assert (Hall : Forall (fun x => isDigit x = true) (d :: ds)) by now constructor.
  destruct (takeDigits_app (d :: ds) c rest Hall Hc) as [Htake Hrest].
  pose proof (takeDigits_nonempty d ds Hd) as Hne.
  unfold unsignedLiteral.
  assert (Hinf : forall s, stripPrefix (js "Infinity") (d :: s) = None).
  { intros s. change (js "Infinity") with (73%N :: js "nfinity").
    cbn [stripPrefix]. destruct (73 =? d)%N eqn:H73; [|reflexivity].
    apply N.eqb_eq in H73. subst d. discriminate Hd. }
  rewrite Htake. change ((d :: ds) ++ c :: rest) with (d :: (ds ++ c :: rest)).
  rewrite !Hinf.
  destruct (takeDigits (d :: ds)) as [int r]. cbn [fst snd] in *. subst r.
  assert (Hexp : exponentPart (c :: rest) = 0%Z).
  { cbn [exponentPart].
    destruct (c =? 101)%N eqn:H1; [apply N.eqb_eq in H1; contradiction|].
    destruct (c =? 69)%N eqn:H2; [apply N.eqb_eq in H2; contradiction|].
    reflexivity. }
  destruct int as [|i int]; [now contradiction Hne|].
  rewrite Hexp. change (exponentPart []) with 0%Z.
  destruct c as [|p]; [reflexivity|].
  do 6 (try destruct p as [p|p|]; try reflexivity; try (now contradiction Hdot)).
Qed.

(** X16: text after a run of digits is not looked at: an input that starts
    with digits and goes on with anything that cannot continue a number is
    validated as its digits alone. *)
Theorem validateNumericInput_trailing_text (d : N) (ds : jsstring) (c : N)
    (rest : jsstring) (o : NumericOptions) :
  isDigit d = true -> Forall (fun x => isDigit x = true) ds ->
  isDigit c = false -> c <> 46%N -> c <> 101%N -> c <> 69%N ->
  validateNumericInput ((d :: ds) ++ c :: rest) o = validateNumericInput (d :: ds) o.
Proof.
  intros Hd Hds Hc Hdot He HE.
  assert (Hparse : parseFloat ((d :: ds) ++ c :: rest) = parseFloat (d :: ds)).
  { unfold parseFloat. cbn [app trimStart].
    rewrite (isDigit_not_space d Hd).
    apply isDigit_range in Hd as Hr.
    destruct (d =? 45)%N eqn:H45; [apply N.eqb_eq in H45; lia|].
    destruct (d =? 43)%N eqn:H43; [apply N.eqb_eq in H43; lia|].
    change (d :: ds ++ c :: rest) with ((d :: ds) ++ c :: rest).
    now rewrite unsignedLiteral_digits. }
  unfold validateNumericInput. now rewrite Hparse.
Qed.

Lemma validateNumericInput_trailing_text_witness :
  validateNumericInput (js "12abc") noOptions = Valid 12%float.
Proof.
  change (js "12abc") with ([49%N; 50%N] ++ 97%N :: js "bc").
  rewrite (validateNumericInput_trailing_text 49 [50%N] 97 (js "bc") noOptions);
    try reflexivity; try discriminate.
  repeat constructor.
Defined.

(* ================================================================= *)
(** * Calculator widgets *)

Section OtherMatches.

Variable sel : Element -> bool.
Hypothesis sel_shallow : shallow sel.

Variable p : Element -> bool.
Variable f : Element -> Element.
Hypothesis f_sel : forall e, sel (f e) = sel e.

Lemma sameOrChanged_refl (l : list Element) : Forall2 (sameOrChanged f) l l.
Proof. induction l; constructor; [now left | assumption]. Qed.

(** A change of the first [p] that keeps the children keeps the matches of
    [sel], each with its attributes but for the changed element. *)
Lemma modifyFirst_matches (forest : list Element) :
  (forall e, children (f e) = children e) ->
  Forall2 (sameOrChanged f)
    (List.filter sel (elements (modifyFirst p f forest)))
    (List.filter sel (elements forest)).
Proof.
  intros Hchildren. unfold modifyFirst.
  enough (H : match replaceFirstIn p (fun y => [f y]) forest with
              | Some forest' =>
                  Forall2 (sameOrChanged f) (List.filter sel (elements forest'))
                    (List.filter sel (elements forest))
              | None => True
              end).
  { destruct (replaceFirstIn p _ forest); cbn [default from_option id];
      [exact H | apply sameOrChanged_refl]. }
  revert forest.
  apply (forest_Element_ind
    (fun e =>
       match replaceFirst p (fun y => [f y]) e with
       | Some es =>
           Forall2 (sameOrChanged f) (List.filter sel (elements es))
             (List.filter sel (subtree e))
       | None => True
       end)).
  - intros u a cs IH. rewrite replaceFirst_Elem.
    destruct (p (Elem u a cs)) eqn:Hp.
    + pose proof (f_sel (Elem u a cs)) as Hs.
      pose proof (Hchildren (Elem u a cs)) as Hc.
      assert (Hright : sameOrChanged f (f (Elem u a cs)) (Elem u a cs)) by now right.
      destruct (f (Elem u a cs)) as [u' a' cs'] eqn:Hfe. cbn [children] in Hc.
      subst cs'. cbn [elements flat_map]. rewrite app_nil_r, !subtree_Elem.
      cbn [List.filter]. fold (elements cs). rewrite Hs.
      destruct (sel (Elem u a cs)); [constructor; [exact Hright|]|];
        apply sameOrChanged_refl.
    + destruct (replaceFirstIn p (fun y => [f y]) cs) as [cs'|]; [|exact I].
      cbn [elements flat_map]. rewrite app_nil_r, !subtree_Elem.
      cbn [List.filter]. rewrite (sel_shallow u a cs' cs).
      destruct (sel (Elem u a cs)); [constructor; [now left|]|]; exact IH.
  - exact I.
  - intros e es IHe IHes. cbn [replaceFirstIn].
    destruct (replaceFirst p (fun y => [f y]) e) as [r|].
    + rewrite elements_app, elements_cons, !List.filter_app.
      apply Forall2_app; [exact IHe | apply sameOrChanged_refl].
    + destruct (replaceFirstIn p (fun y => [f y]) es) as [r|]; [|exact I].
      rewrite !elements_cons, !List.filter_app.
      apply Forall2_app; [apply sameOrChanged_refl | exact IHes].
Qed.

(** A change of the first [p] that leaves no match of [sel] below the
    changed element makes no match where there was none. *)
Lemma modifyFirst_no_match (forest : list Element) :
  (forall e, List.filter sel (elements (children (f e))) = []) ->
  List.filter sel (elements forest) = [] ->
  List.filter sel (elements (modifyFirst p f forest)) = [].
Proof.
  intros Hbelow. unfold modifyFirst.
  enough (H : List.filter sel (elements forest) = [] ->
              match replaceFirstIn p (fun y => [f y]) forest with
              | Some forest' => List.filter sel (elements forest') = []
              | None => True
              end).
  { intros Hnone. specialize (H Hnone).
    destruct (replaceFirstIn p _ forest); cbn [default from_option id];
      [exact H | exact Hnone]. }
  revert forest.
  apply (forest_Element_ind
    (fun e =>
       List.filter sel (subtree e) = [] ->
       match replaceFirst p (fun y => [f y]) e with
       | Some es => List.filter sel (elements es) = []
       | None => True
       end)
    (fun forest =>
       List.filter sel (elements forest) = [] ->
       match replaceFirstIn p (fun y => [f y]) forest with
       | Some forest' => List.filter sel (elements forest') = []
       | None => True
       end)).
  - intros u a cs IH. rewrite replaceFirst_Elem, subtree_Elem.
    cbn [List.filter]. destruct (sel (Elem u a cs)) eqn:Hs; [discriminate|].
    intros Hnone. destruct (p (Elem u a cs)).
    + pose proof (f_sel (Elem u a cs)) as Hfs. rewrite Hs in Hfs.
      pose proof (Hbelow (Elem u a cs)) as Hb.
      destruct (f (Elem u a cs)) as [u' a' cs'] eqn:Hfe. cbn [children] in Hb.
      cbn [elements flat_map]. rewrite app_nil_r, subtree_Elem.
      cbn [List.filter]. now rewrite Hfs.
    + specialize (IH Hnone).
      destruct (replaceFirstIn p (fun y => [f y]) cs) as [cs'|]; [|exact I].
      cbn [elements flat_map]. rewrite app_nil_r, subtree_Elem.
      cbn [List.filter]. now rewrite (sel_shallow u a cs' cs), Hs.
  - intros _. exact I.
  - intros e es IHe IHes. cbn [replaceFirstIn].
    rewrite elements_cons, List.filter_app. intros Hnone.
    apply app_eq_nil in Hnone as [He Hes].
    specialize (IHe He). specialize (IHes Hes).
    destruct (replaceFirst p (fun y => [f y]) e) as [r|].
    + now rewrite elements_app, List.filter_app, IHe, Hes.
    + destruct (replaceFirstIn p (fun y => [f y]) es) as [r|]; [|exact I].
      now rewrite elements_cons, List.filter_app, He, IHes.
Qed.

End OtherMatches.

Section WidgetFacts.

Variable toLocaleString : float -> NumberFormatOptions -> jsstring.
Variable Math_pow : float -> float -> float.
Variable name_ : Element -> option jsstring.
Variable window : jsstring -> Global.

Lemma showValue_attrs (result : Shown) (e : Element) :
  classList (attrs (showValue toLocaleString result e)) = classList (attrs e)
  /\ textContent (attrs (showValue toLocaleString result e))
     = shownText toLocaleString result
  /\ children (showValue toLocaleString result e) = []
  /\ style (attrs (showValue toLocaleString result e)) !! js "color"
     = match shownPositive result with
       | Some isPositive => Some (if isPositive then js "#10b981" else js "#ef4444")
       | None => style (attrs e) !! js "color"
       end.
Proof.
  unfold showValue. destruct (shownPositive result) as [b|]; cbn.
  - now rewrite lookup_insert_eq.
  - now repeat split.
Qed.

Lemma showValue_hasClass (name : jsstring) (result : Shown) (e : Element) :
  hasClass name (showValue toLocaleString result e) = hasClass name e.
Proof.
  unfold hasClass. now destruct (showValue_attrs result e) as [-> _].
Qed.

Lemma classList_add_hasClass (name added : jsstring) (e : Element) :
  hasClass name e = true -> hasClass name (classList_add added e) = true.
Proof.
  unfold hasClass, classList_add, withAttrs. cbn [attrs classList].
  rewrite !bool_decide_eq_true. intros Hin.
  destruct (bool_decide (added ∈ classList (attrs e))); [exact Hin|].
  apply elem_of_app. now left.
Qed.

Lemma classList_add_hasClass_other (name added : jsstring) (e : Element) :
  name <> added -> hasClass name (classList_add added e) = hasClass name e.
Proof.
  intros Hne. unfold hasClass, classList_add, withAttrs. cbn [attrs classList].
  destruct (bool_decide (added ∈ classList (attrs e))); [reflexivity|].
  apply bool_decide_ext. rewrite elem_of_app, list_elem_of_singleton.
  split; [intros [H | H]; [exact H | contradiction] | now left].
Qed.

(** The value element after [displayCalculatorResult]: the one before, with
    the value written, and perhaps the class [updated]. *)
Lemma displayCalculatorResult_value (calculator : Element) (result : Shown)
    (resultValue : Element) :
  querySelector (hasClass (js "calculator-result-value")) calculator
    = Some resultValue ->
  or_string (shownInterpretation result) [] = []
  \/ querySelector (hasClass (js "calculator-additional-info")) calculator = None ->
  exists resultValue',
    querySelector (hasClass (js "calculator-result-value"))
      (displayCalculatorResult toLocaleString calculator (Some result))
      = Some resultValue'
    /\ textContent (attrs resultValue') = shownText toLocaleString result
    /\ style (attrs resultValue') !! js "color"
       = match shownPositive result with
         | Some isPositive =>
             Some (if isPositive then js "#10b981" else js "#ef4444")
         | None => style (attrs resultValue) !! js "color"
         end.
Proof.
  intros Hrv Hinfo. unfold displayCalculatorResult. rewrite Hrv.
  set (rvSel := hasClass (js "calculator-result-value")) in *.
  set (aiSel := hasClass (js "calculator-additional-info")) in *.
  unfold querySelector, querySelectorAll in Hrv, Hinfo |- *. cbn [children].
  (* the value is written *)
  pose proof (modifyFirst_found rvSel (shallow_hasClass _)
                (showValue toLocaleString result) (children calculator)) as H1.
  rewrite Hrv in H1.
  destruct H1 as (cs1 & Hcs1 & Hhead1).
  { intros x Hx. unfold rvSel. now rewrite showValue_hasClass. }
  assert (Hm1 : modifyFirst rvSel (showValue toLocaleString result)
                   (children calculator) = cs1)
    by (unfold modifyFirst; now rewrite Hcs1).
  rewrite Hm1.
  (* the interpretation is written nowhere *)
  set (cs2 := match shownInterpretation result with
              | Some (c :: s) => modifyFirst aiSel (setTextContent (c :: s)) cs1
              | _ => cs1
              end).
  assert (Hcs2 : cs2 = cs1).
  { unfold cs2. destruct (shownInterpretation result) as [[|c s]|]; try reflexivity.
    destruct Hinfo as [Hfalsy | Hnone]; [discriminate Hfalsy|].
    assert (Hno : List.filter aiSel (elements cs1) = []).
    { rewrite <- Hm1. apply modifyFirst_no_match.
      - apply shallow_hasClass.
      - intros e. unfold aiSel. apply showValue_hasClass.
      - intros e. now destruct (showValue_attrs result e) as (_ & _ & -> & _).
      - destruct (List.filter aiSel (elements (children calculator)));
          [reflexivity | discriminate Hnone]. }
    pose proof (modifyFirst_found aiSel (shallow_hasClass _)
                  (setTextContent (c :: s)) cs1) as H2.
    rewrite Hno in H2. cbn [head] in H2. unfold modifyFirst. rewrite H2.
    - reflexivity.
    - intros x Hx. exact Hx. }
  rewrite Hcs2.
  (* the class is added *)
  assert (Hshown : forall x,
    attrs x = attrs (showValue toLocaleString result resultValue)
    \/ attrs x = attrs (classList_add (js "updated")
                          (showValue toLocaleString result resultValue)) ->
    textContent (attrs x) = shownText toLocaleString result
    /\ style (attrs x) !! js "color"
       = match shownPositive result with
         | Some isPositive =>
             Some (if isPositive then js "#10b981" else js "#ef4444")
         | None => style (attrs resultValue) !! js "color"
         end).
  { intros x [-> | ->];
      destruct (showValue_attrs result resultValue) as (_ & Ht & _ & Hc);
      [now split|]. cbn. now split. }
  destruct (head (List.filter (hasClass (js "calculator-result"))
                    (elements (children calculator)))) as [container|].
  - pose proof (modifyFirst_matches rvSel (shallow_hasClass _)
                  (hasUid (uid container)) (classList_add (js "updated"))) as H3.
    assert (Hne : js "calculator-result-value" <> js "updated") by js_neq.
    specialize (H3 (fun e => classList_add_hasClass_other _ _ e Hne) cs1
                  (fun e => eq_refl)).
    destruct (List.filter rvSel (elements cs1)) as [|x l]; [discriminate Hhead1|].
    injection Hhead1 as ->.
    inversion H3 as [|x' ? l' ? Hx' _ Heq]; subst.
    exists x'. split; [reflexivity|]. now apply Hshown.
  - exists (showValue toLocaleString result resultValue).
    split; [exact Hhead1|]. apply Hshown. now left.
Qed.

(** X17: [displayCalculatorResult] leaves the widget as it is when there is
    no result or no value element.  Otherwise, when the result has no
    interpretation or the widget no place for one, the first value element
    of the widget ends up with the formatted text (the formatted value when
    that text is missing) and the colour of the sign, whatever the result
    area and the class added to it are. *)
Theorem displayCalculatorResult_shows (calculator : Element) (result : Shown) :
  displayCalculatorResult toLocaleString calculator None = calculator
  /\ (querySelector (hasClass (js "calculator-result-value")) calculator = None ->
      displayCalculatorResult toLocaleString calculator (Some result) = calculator)
  /\ (forall resultValue,
        querySelector (hasClass (js "calculator-result-value")) calculator
          = Some resultValue ->
        or_string (shownInterpretation result) [] = []
        \/ querySelector (hasClass (js "calculator-additional-info")) calculator
           = None ->
        exists resultValue',
          querySelector (hasClass (js "calculator-result-value"))
            (displayCalculatorResult toLocaleString calculator (Some result))
            = Some resultValue'
          /\ textContent (attrs resultValue')
             = or_string (shownFormatted result)
                 (formatNumber toLocaleString (default nan (shownValue result)) None)
          /\ style (attrs resultValue') !! js "color"
             = match shownPositive result with
               | Some isPositive =>
                   Some (if isPositive then js "#10b981" else js "#ef4444")
               | None => style (attrs resultValue) !! js "color"
               end).
Proof.
  split; [reflexivity|]. split.
  - intros Hnone. unfold displayCalculatorResult. now rewrite Hnone.
  - intros resultValue Hrv Hinfo.
    exact (displayCalculatorResult_value calculator result resultValue Hrv Hinfo).
Qed.

Lemma readInputs_from (calculator : Element) (name : jsstring) (v : float) :
  readInputs name_ calculator !! name = Some v ->
  exists input,
    input ∈ querySelectorAll (hasClass (js "calculator-input")) calculator
    /\ name = inputKey name_ input
    /\ v = inputNumber input
    /\ name <> js "__proto__".
Proof.
  unfold readInputs.
  generalize (querySelectorAll (hasClass (js "calculator-input")) calculator).
  intros l.
  enough (H : forall acc : gmap jsstring float,
    fold_left
      (fun inputs input =>
         if bool_decide (inputKey name_ input = js "__proto__") then inputs
         else <[inputKey name_ input := inputNumber input]> inputs) l acc
      !! name = Some v ->
    acc !! name = Some v
    \/ exists input,
         input ∈ l /\ name = inputKey name_ input /\ v = inputNumber input
         /\ name <> js "__proto__").
  { intros Hlook. destruct (H ∅ Hlook) as [Hempty | Hin]; [|exact Hin].
    now rewrite lookup_empty in Hempty. }
  induction l as [|input l IH]; intros acc Hlook; cbn [fold_left] in Hlook.
  - now left.
  - destruct (IH _ Hlook) as [Hacc | (i & Hi & Hname & Hv & Hproto)].
    + destruct (bool_decide (inputKey name_ input = js "__proto__")) eqn:Hp;
        [now left|].
      apply bool_decide_eq_false in Hp.
      destruct (decide (inputKey name_ input = name)) as [Heq | Hne].
      * rewrite Heq, lookup_insert_eq in Hacc. injection Hacc as <-.
        right. exists input. repeat split; [apply list_elem_of_here | | ]; congruence.
      * rewrite lookup_insert_ne in Hacc by exact Hne. now left.
    + right. exists i. repeat split; try assumption.
      now apply list_elem_of_further.
Qed.

Lemma calculatorInput_number (parsed : float) :
  is_nan (calculatorInput parsed) = false
  /\ Prim2SF (calculatorInput parsed) <> S754_zero true.
Proof.
  unfold calculatorInput, or_number, truthy_number.
  destruct (is_nan parsed) eqn:Hnan; cbn [orb negb];
    [split; [reflexivity | discriminate]|].
  destruct (is_zero parsed) eqn:Hz; cbn [negb];
    [split; [reflexivity | discriminate]|].
  split; [exact Hnan|]. intros Hneg.
  unfold is_zero in Hz. rewrite FloatAxioms.eqb_spec, Hneg in Hz.
  discriminate Hz.
Qed.

(** X18: what a widget hands to its calculator is never NaN and never minus
    zero: every field yields a number, zero for a field that is blank or
    does not start with one, and no field is read under the name
    [__proto__]. *)
Theorem readInputs_numbers (calculator : Element) (name : jsstring) (v : float) :
  readInputs name_ calculator !! name = Some v ->
  is_nan v = false
  /\ Prim2SF v <> S754_zero true
  /\ name <> js "__proto__"
  /\ exists input,
       input ∈ querySelectorAll (hasClass (js "calculator-input")) calculator
       /\ v = or_number
                (Some (match inputValue (attrs input) with
                       | Some text => parseFloat text
                       | None => nan
                       end)) 0.
Proof.
  intros Hlook.
  destruct (readInputs_from calculator name v Hlook)
    as (input & Hin & _ & -> & Hproto).
  destruct (calculatorInput_number
              (match inputValue (attrs input) with
               | Some text => parseFloat text
               | None => nan
               end)) as [Hnan Hzero].
  repeat split; try assumption. now exists input.
Qed.

Lemma argument_zero (calculator : Element) (name : string) :
  Forall (fun input => inputNumber input = 0%float)
    (querySelectorAll (hasClass (js "calculator-input")) calculator) ->
  argument (readInputs name_ calculator) name = 0%float
  \/ argument (readInputs name_ calculator) name = nan.
Proof.
  intros Hall. unfold argument.
  destruct (readInputs name_ calculator !! js name) as [v|] eqn:Hlook;
    cbn [default from_option id]; [left | now right].
  destruct (readInputs_from calculator _ v Hlook) as (input & Hin & _ & -> & _).
  rewrite Forall_forall in Hall. now apply Hall.
Qed.

(** X19: a widget for the return on investment whose fields are all blank,
    zero or unreadable shows [0.00%], in the colour of a loss. *)
Theorem handleCalculatorInput_blank_roi (calculator resultValue : Element) :
  dataset (attrs calculator) !! js "calcType" = Some (js "roi") ->
  querySelector (hasClass (js "calculator-result-value")) calculator
    = Some resultValue ->
  Forall (fun input => inputNumber input = 0%float)
    (querySelectorAll (hasClass (js "calculator-input")) calculator) ->
  exists calculator' resultValue',
    handleCalculatorInput toLocaleString Math_pow name_ window calculator
      = Some calculator'
    /\ querySelector (hasClass (js "calculator-result-value")) calculator'
       = Some resultValue'
    /\ textContent (attrs resultValue') = js "0.00%"
    /\ style (attrs resultValue') !! js "color" = Some (js "#ef4444").
Proof.
  intros Htype Hrv Hall.
  unfold handleCalculatorInput, calculatorResult. rewrite Htype.
  rewrite bool_decide_eq_true_2 by reflexivity. cbn [fmap option_fmap option_map].
  set (r := calculateROI toLocaleString _ _).
  assert (Hr : formatted r = js "0.00%" /\ isPositive r = false
               /\ interpretation r = None).
  { unfold r.
    destruct (argument_zero calculator "initial" Hall) as [-> | ->],
             (argument_zero calculator "final" Hall) as [-> | ->];
      repeat split; reflexivity. }
  destruct Hr as (Hf & Hp & Hi).
  destruct (displayCalculatorResult_value calculator (shown r) resultValue Hrv)
    as (rv' & Hrv' & Htext & Hcolor).
  { left. cbn [shown shownInterpretation]. now rewrite Hi. }
  eexists _, rv'. split; [reflexivity|]. split; [exact Hrv'|].
  split.
  - rewrite Htext. unfold shownText. cbn [shown shownFormatted]. now rewrite Hf.
  - rewrite Hcolor. cbn [shown shownPositive]. now rewrite Hp.
Qed.

End WidgetFacts.

Lemma displayCalculatorResult_shows_witness :
  exists resultValue',
    querySelector (hasClass (js "calculator-result-value"))
      (displayCalculatorResult (fun _ _ => js "n/a") (roiWidget (js "100") (js "150"))
         (Some {| shownValue := Some 50%float; shownFormatted := Some (js "50.00%");
                  shownPositive := Some true; shownInterpretation := None |}))
      = Some resultValue'
    /\ textContent (attrs resultValue') = js "50.00%"
    /\ style (attrs resultValue') !! js "color" = Some (js "#10b981").
Proof.
  destruct (displayCalculatorResult_shows (fun _ _ => js "n/a")
              (roiWidget (js "100") (js "150"))
              {| shownValue := Some 50%float; shownFormatted := Some (js "50.00%");
                 shownPositive := Some true; shownInterpretation := None |})
    as (_ & _ & Hshow).
  destruct (Hshow (plain 4 [js "calculator-result-value"] [] None []))
    as (rv' & Hrv' & Htext & Hcolor).
  - vm_compute. reflexivity.
  - left. reflexivity.
  - exists rv'. split; [exact Hrv'|]. split; [exact Htext | exact Hcolor].
Defined.

Lemma readInputs_numbers_witness :
  is_nan 0%float = false /\ Prim2SF 0%float <> S754_zero true.
Proof.
  destruct (readInputs_numbers (fun _ => None) (roiWidget (js "-0") (js "abc"))
              (js "initial") 0%float) as (Hnan & Hzero & _).
  - vm_compute. reflexivity.
  - split; [exact Hnan | exact Hzero].
Defined.

Lemma handleCalculatorInput_blank_roi_witness :
  exists calculator' resultValue',
    handleCalculatorInput (fun _ _ => js "n/a") (fun _ _ => 0%float)
      (fun _ => None) (fun _ => NotDefined) (roiWidget (js "") (js "abc"))
      = Some calculator'
    /\ querySelector (hasClass (js "calculator-result-value")) calculator'
       = Some resultValue'
    /\ textContent (attrs resultValue') = js "0.00%".
Proof.
  destruct (handleCalculatorInput_blank_roi (fun _ _ => js "n/a")
              (fun _ _ => 0%float) (fun _ => None) (fun _ => NotDefined)
              (roiWidget (js "") (js "abc"))
              (plain 4 [js "calculator-result-value"] [] None []))
    as (c' & rv' & Hc' & Hrv' & Htext & _).
  - vm_compute. reflexivity.
  - vm_compute. reflexivity.
  - repeat constructor.
  - exists c', rv'. split; [exact Hc'|]. split; [exact Hrv' | exact Htext].
Defined.

(** X20: a widget is named once: initialising it again, under whatever
    index, keeps the identifier it has, and an identifier that the page
    gives it is never replaced. *)
Theorem initializeCalculator_keeps_id (index index' : nat) (calculator : Element) :
  initializeCalculator index' (initializeCalculator index calculator)
  = initializeCalculator index calculator
  /\ (forall calcId,
        dataset (attrs calculator) !! js "calcId" = Some calcId -> calcId <> [] ->
        dataset (attrs (initializeCalculator index calculator)) !! js "calcId"
        = Some calcId)
  /\ (or_string (dataset (attrs calculator) !! js "calcId") [] = [] ->
      dataset (attrs (initializeCalculator index calculator)) !! js "calcId"
      = Some (js "calc-" ++ natToString index)).
Proof.
  unfold initializeCalculator, setData, withAttrs. cbn [attrs dataset uid children].
  set (calcId := or_string _ _).
  assert (Hid : or_string (Some calcId) (js "calc-" ++ natToString index') = calcId).
  { unfold calcId.
    destruct (dataset (attrs calculator) !! js "calcId") as [[|c s]|]; reflexivity. }
  split; [|split].
  - rewrite lookup_insert_eq, Hid. cbn. now rewrite insert_insert_eq.
  - intros cid Hcid Hne. rewrite lookup_insert_eq. unfold calcId. rewrite Hcid.
    now destruct cid.
  - intros Hnone. rewrite lookup_insert_eq. unfold calcId.
    now destruct (dataset (attrs calculator) !! js "calcId") as [[|c s]|].
Qed.

(* ================================================================= *)
(** * Copy buttons *)

Lemma setData_same (key v : jsstring) (e : Element) :
  dataset (attrs e) !! key = Some v -> setData key v e = e.
Proof.
  destruct e as [u [cl ds iv tc ih st di] cs]. cbn. intros Hlook.
  unfold setData, withAttrs. cbn. now rewrite insert_id.
Qed.

Section CopyFacts.

Variable random : nat -> N * jsstring.

(** While a button is in the copied set, [showCopySuccess] does nothing. *)
Lemma showCopySuccess_while_copied (button : nat) (s : CopyState) (e : Element)
    (c : N) (t : jsstring) :
  buttons s !! button = Some e ->
  dataset (attrs e) !! js "id" = Some (c :: t) ->
  c :: t ∈ copiedButtons s ->
  showCopySuccess random button s = s.
Proof.
  intros He Hid Hin. unfold showCopySuccess. rewrite He, Hid.
  rewrite bool_decide_eq_true_2 by exact Hin.
  rewrite setData_same by exact Hid. rewrite insert_id by exact He.
  now destruct s.
Qed.

(** X21: a second click changes nothing: [showCopySuccess] applied again
    right away leaves the state of the first call, with one timer and the
    original markup remembered. *)
Theorem showCopySuccess_idempotent (button : nat) (s : CopyState) :
  showCopySuccess random button (showCopySuccess random button s)
  = showCopySuccess random button s.
Proof.
  destruct (buttons s !! button) as [e|] eqn:He.
  2: { unfold showCopySuccess at 2. rewrite He. unfold showCopySuccess.
       now rewrite He. }
  assert (Hcase : exists c t e1,
    buttons (showCopySuccess random button s) !! button = Some e1
    /\ dataset (attrs e1) !! js "id" = Some (c :: t)
    /\ c :: t ∈ copiedButtons (showCopySuccess random button s)).
  { unfold showCopySuccess. rewrite He.
    destruct (dataset (attrs e) !! js "id") as [[|c t]|] eqn:Hid.
    - exists (fst (random (randomCalls s))), (snd (random (randomCalls s))).
      destruct (bool_decide _) eqn:Hin; cbn [buttons copiedButtons];
        rewrite lookup_insert_eq; eexists; (split; [reflexivity|]);
        cbn; rewrite lookup_insert_eq; (split; [reflexivity|]).
      + now apply bool_decide_eq_true in Hin.
      + apply elem_of_union_r. now apply elem_of_singleton.
    - exists c, t.
      destruct (bool_decide _) eqn:Hin; cbn [buttons copiedButtons];
        rewrite lookup_insert_eq; eexists; (split; [reflexivity|]);
        cbn; rewrite lookup_insert_eq; (split; [reflexivity|]).
      + now apply bool_decide_eq_true in Hin.
      + apply elem_of_union_r. now apply elem_of_singleton.
    - exists (fst (random (randomCalls s))), (snd (random (randomCalls s))).
      destruct (bool_decide _) eqn:Hin; cbn [buttons copiedButtons];
        rewrite lookup_insert_eq; eexists; (split; [reflexivity|]);
        cbn; rewrite lookup_insert_eq; (split; [reflexivity|]).
      + now apply bool_decide_eq_true in Hin.
      + apply elem_of_union_r. now apply elem_of_singleton. }
  destruct Hcase as (c & t & e1 & He1 & Hid1 & Hin1).
  exact (showCopySuccess_while_copied button _ e1 c t He1 Hid1 Hin1).
Qed.

(** The state while the feedback of one button is shown. *)
Lemma showCopySuccess_fresh (button : nat) (s : CopyState) (e : Element) :
  buttons s !! button = Some e -> copiedButtons s = ∅ -> tasks s = [] ->
  exists c t e1 drawn,
    showCopySuccess random button s
    = {| clock := clock s; buttons := <[button := e1]> (buttons s);
         copiedButtons := {[ c :: t ]};
         tasks := [(clock s + 2000,
                    ResetCopied button (innerHTML (attrs e)) (c :: t))];
         randomCalls := drawn |}
    /\ dataset (attrs e1) !! js "id" = Some (c :: t)
    /\ innerHTML (attrs e1) = copiedMarkup
    /\ js "copied" ∈ classList (attrs e1).
Proof.
  intros He Hnone Htasks. unfold showCopySuccess. rewrite He, Hnone, Htasks.
  assert (Hadd : forall x : Element,
            js "copied" ∈ classList (attrs (classList_add (js "copied") x))).
  { intros x. unfold classList_add, withAttrs. cbn [attrs classList].
    destruct (bool_decide (js "copied" ∈ classList (attrs x))) eqn:Hb.
    - now apply bool_decide_eq_true in Hb.
    - apply elem_of_app. right. apply list_elem_of_here. }
  destruct (dataset (attrs e) !! js "id") as [[|c t]|];
    rewrite bool_decide_eq_false_2 by apply not_elem_of_empty;
    eexists _, _, _, _; cbn [schedule];
    (split; [rewrite union_empty_l_L; reflexivity|]);
    (split; [cbn; now rewrite lookup_insert_eq|]);
    (split; [reflexivity|]); apply Hadd.
Qed.

Lemma advance_waiting (now due d : nat) (bs : gmap nat Element)
    (copied : gset jsstring) (task : Task) (drawn : nat) :
  now + d < due ->
  advance d {| clock := now; buttons := bs; copiedButtons := copied;
               tasks := [(due, task)]; randomCalls := drawn |}
  = {| clock := now + d; buttons := bs; copiedButtons := copied;
       tasks := [(due, task)]; randomCalls := drawn |}.
Proof.
  intros Hlt. unfold advance. cbn [clock tasks List.filter fst].
  destruct (Nat.leb_spec due (now + d)) as [Hle|_]; [lia|]. reflexivity.
Qed.

Lemma clicks_waiting (button : nat) (due : nat) (bs : gmap nat Element)
    (e1 : Element) (c : N) (t : jsstring) (task : Task) (drawn : nat)
    (clicks : list (nat * (bool * bool))) :
  dataset (attrs e1) !! js "id" = Some (c :: t) ->
  forall now,
    now + sum_list_with fst clicks < due ->
    fold_left (clickCopy random button) clicks
      {| clock := now; buttons := <[button := e1]> bs;
         copiedButtons := {[ c :: t ]}; tasks := [(due, task)];
         randomCalls := drawn |}
    = {| clock := now + sum_list_with fst clicks;
         buttons := <[button := e1]> bs;
         copiedButtons := {[ c :: t ]}; tasks := [(due, task)];
         randomCalls := drawn |}.
Proof.
  intros Hid. induction clicks as [|[d [written copied]] clicks IH];
    intros now Hlt; cbn [fold_left sum_list_with fst] in *.
  - now rewrite Nat.add_0_r.
  - unfold clickCopy at 2. cbn [fst snd].
    rewrite advance_waiting by lia.
    assert (Hshow : forall st,
              copyCodeToClipboard random written (Returns copied) button st
              = showCopySuccess random button st)
      by (intros st; now destruct written).
    rewrite Hshow.
    rewrite (showCopySuccess_while_copied button _ e1 c t).
    + rewrite IH by lia. f_equal. lia.
    + cbn [buttons]. apply lookup_insert_eq.
    + exact Hid.
    + cbn [copiedButtons]. now apply elem_of_singleton.
Qed.

(** X22: on a page with nothing copied and no timer set, the feedback of a
    copy lasts two seconds from the first click, however often the button
    is clicked again meanwhile and whichever way the text is copied: until
    then the button shows the feedback and one timer is set; then the
    button has its markup back, without the class and the background, and
    nothing is copied or set. *)
Theorem copy_feedback_lasts_two_seconds (button : nat) (s : CopyState)
    (e : Element) (clicks : list (nat * (bool * bool))) :
  buttons s !! button = Some e -> copiedButtons s = ∅ -> tasks s = [] ->
  sum_list_with fst clicks < 2000 ->
  let shown :=
    fold_left (clickCopy random button) clicks
      (showCopySuccess random button s) in
  let after := advance (2000 - sum_list_with fst clicks) shown in
  (exists e1,
     buttons shown !! button = Some e1
     /\ innerHTML (attrs e1) = copiedMarkup
     /\ js "copied" ∈ classList (attrs e1))
  /\ length (tasks shown) = 1
  /\ clock after = clock s + 2000
  /\ tasks after = []
  /\ copiedButtons after = ∅
  /\ exists e2,
       buttons after !! button = Some e2
       /\ innerHTML (attrs e2) = innerHTML (attrs e)
       /\ (js "copied" ∉ classList (attrs e2))
       /\ style (attrs e2) !! js "background" = None.
Proof.
  intros He Hnone Htasks Hsum shown after.
  destruct (showCopySuccess_fresh button s e He Hnone Htasks)
    as (c & t & e1 & drawn & Hs1 & Hid & Hhtml & Hclass).
  assert (Hshown :
    shown = {| clock := clock s + sum_list_with fst clicks;
               buttons := <[button := e1]> (buttons s);
               copiedButtons := {[ c :: t ]};
               tasks := [(clock s + 2000,
                          ResetCopied button (innerHTML (attrs e)) (c :: t))];
               randomCalls := drawn |}).
  { unfold shown. rewrite Hs1. apply clicks_waiting; [exact Hid | lia]. }
  split; [|split].
  - exists e1. rewrite Hshown. cbn [buttons]. rewrite lookup_insert_eq.
    now repeat split.
  - now rewrite Hshown.
  - unfold after. rewrite Hshown. unfold advance.
    cbn [clock tasks List.filter fst].
    destruct (Nat.leb_spec (clock s + 2000)
                (clock s + sum_list_with fst clicks
                 + (2000 - sum_list_with fst clicks))) as [_|Hlt]; [|lia].
    cbn [negb fold_left snd runTask clock tasks copiedButtons buttons].
    unfold onButton. rewrite lookup_insert_eq.
    split; [lia|]. split; [reflexivity|].
    split; [apply difference_diag_L|].
    eexists. rewrite lookup_insert_eq. split; [reflexivity|].
    split; [reflexivity|]. split.
    + unfold clearStyle, setInnerHTML, classList_remove, withAttrs.
      cbn [attrs classList]. rewrite list_elem_of_In, filter_In.
      intros [_ Hnot]. apply negb_true_iff, bool_decide_eq_false in Hnot.
      apply Hnot, list_elem_of_here.
    + unfold clearStyle, withAttrs. cbn [attrs style]. apply lookup_delete_eq.
Qed.

Lemma schedule_last (due : nat) (task : Task) (queue : list (nat * Task)) :
  Forall (fun dt => fst dt <= due) queue ->
  schedule due task queue = queue ++ [(due, task)].
Proof.
  induction 1 as [|[d t] queue Hd _ IH]; [reflexivity|].
  cbn [schedule app]. cbn [fst] in Hd.
  destruct (Nat.leb_spec d due) as [_|Hlt]; [|lia]. now rewrite IH.
Qed.

Lemma runTask_keeps (task : Task) (s : CopyState) (button : nat) :
  is_Some (buttons s !! button) ->
  is_Some (buttons (runTask task s) !! button)
  /\ tasks (runTask task s) = tasks s.
Proof.
  intros Hsome.
  assert (Hon : forall b f, is_Some (onButton b f (buttons s) !! button)).
  { intros b f. unfold onButton.
    destruct (buttons s !! b) as [x|] eqn:Hb; [|exact Hsome].
    destruct (decide (b = button)) as [->|Hne].
    - rewrite lookup_insert_eq. now eexists.
    - now rewrite lookup_insert_ne. }
  destruct task; cbn [runTask buttons tasks]; split; auto.
Qed.

Lemma runTasks_keep (queue : list (nat * Task)) (button : nat) :
  forall s,
    is_Some (buttons s !! button) ->
    is_Some (buttons (fold_left (fun s' dt => runTask (snd dt) s') queue s)
               !! button)
    /\ tasks (fold_left (fun s' dt => runTask (snd dt) s') queue s) = tasks s.
Proof.
  induction queue as [|dt queue IH]; intros s Hsome; cbn [fold_left];
    [now split|].
  destruct (runTask_keeps (snd dt) s button Hsome) as [Hs Ht].
  destruct (IH _ Hs) as [Hs' Ht']. split; [exact Hs'|]. now rewrite Ht'.
Qed.

(** X23: when the fallback throws, the button says so, and two seconds
    later it is left with the bare label: whatever its markup was, and
    whatever timers set before were still to fire, the drawing of the
    button is gone. *)
Theorem fallback_failure_leaves_bare_label (button : nat) (s : CopyState)
    (e : Element) :
  buttons s !! button = Some e ->
  Forall (fun dt => fst dt <= clock s + 2000) (tasks s) ->
  let failed := fallbackCopyToClipboard random Throws button s in
  let after := advance 2000 failed in
  (exists e1,
     buttons failed !! button = Some e1 /\ innerHTML (attrs e1) = failedMarkup)
  /\ copiedButtons failed = copiedButtons s
  /\ tasks after = []
  /\ exists e2,
       buttons after !! button = Some e2 /\ innerHTML (attrs e2) = copyMarkup.
Proof.
  intros He Hdue failed after.
  split; [|split; [reflexivity|]].
  - unfold failed, fallbackCopyToClipboard, onButton. cbn [buttons].
    rewrite He, lookup_insert_eq. now eexists.
  - unfold after, advance, failed, fallbackCopyToClipboard.
    cbn [clock tasks buttons copiedButtons randomCalls].
    rewrite schedule_last by exact Hdue.
    set (queue := tasks s ++ [(clock s + 2000, ResetFailed button)]).
    assert (Hall : Forall (fun dt => (fst dt <=? clock s + 2000)%nat = true) queue).
    { unfold queue. apply Forall_app. split.
      - eapply Forall_impl; [exact Hdue|]. intros dt Hle. now apply Nat.leb_le.
      - constructor; [|constructor]. cbn. now apply Nat.leb_le. }
    assert (Hfilter : List.filter (fun dt => (fst dt <=? clock s + 2000)%nat) queue
                      = queue).
    { clear -Hall. induction Hall as [|dt q Hdt _ IH]; [reflexivity|].
      cbn [List.filter]. now rewrite Hdt, IH. }
    assert (Hlater : List.filter
                       (fun dt => negb (fst dt <=? clock s + 2000)%nat) queue = []).
    { clear -Hall. induction Hall as [|dt q Hdt _ IH]; [reflexivity|].
      cbn [List.filter]. now rewrite Hdt. }
    rewrite Hfilter, Hlater. unfold queue. rewrite fold_left_app.
    cbn [fold_left snd].
    match goal with
    | |- context [fold_left ?g (tasks s) ?init] =>
        destruct (runTasks_keep (tasks s) button init) as [[x Hx] Htasks]
    end.
    { cbn [buttons]. unfold onButton. rewrite He, lookup_insert_eq. now eexists. }
    cbn [runTask tasks buttons]. split; [exact Htasks|].
    unfold onButton at 1. rewrite Hx, lookup_insert_eq. now eexists.
Qed.

End CopyFacts.

(** One button, clicked three times within two seconds. *)
Lemma copy_feedback_lasts_two_seconds_witness :
  let random := fun _ : nat => (48%N, js ".k3x") in
  let shown :=
    fold_left (clickCopy random 7) [(300, (true, true)); (900, (false, false))]
      (showCopySuccess random 7 oneButton) in
  length (tasks shown) = 1
  /\ clock (advance 800 shown) = 2000
  /\ tasks (advance 800 shown) = [].
Proof.
  destruct (copy_feedback_lasts_two_seconds (fun _ : nat => (48%N, js ".k3x")) 7
              oneButton (copyButton 7)
              [(300, (true, true)); (900, (false, false))])
    as (_ & Hone & Hclock & Htasks & _).
  - reflexivity.
  - reflexivity.
  - reflexivity.
  - cbn. lia.
  - split; [exact Hone|]. split; [exact Hclock | exact Htasks].
Defined.

(** A failure while the feedback of an earlier copy is shown. *)
Lemma fallback_failure_leaves_bare_label_witness :
  let random := fun _ : nat => (48%N, js ".k3x") in
  exists e2,
    buttons (advance 2000
               (fallbackCopyToClipboard random Throws 7
                  (advance 500 (showCopySuccess random 7 oneButton)))) !! 7
    = Some e2
    /\ innerHTML (attrs e2) = copyMarkup.
Proof.
  destruct (fallback_failure_leaves_bare_label (fun _ : nat => (48%N, js ".k3x")) 7
              (advance 500 (showCopySuccess (fun _ : nat => (48%N, js ".k3x")) 7
                              oneButton))
              (default (copyButton 7)
                 (buttons (advance 500
                             (showCopySuccess (fun _ : nat => (48%N, js ".k3x")) 7
                                oneButton)) !! 7)))
    as (_ & _ & _ & e2 & He2 & Hhtml).
  - vm_compute. reflexivity.
  - vm_compute. repeat constructor.
  - exists e2. split; [exact He2 | exact Hhtml].
Defined.

(* ================================================================= *)
(** * Adding the copy buttons *)

Section AppendToFirst.

Variable sel : Element -> bool.
Hypothesis sel_shallow : shallow sel.

Variable p : Element -> bool.
Variable new : Element.
Hypothesis new_counts : List.filter sel (subtree new) = [new].

(** Appending [new] to the first [p] adds one match of [sel]. *)
Lemma appendChild_first_count (forest : list Element) :
  match replaceFirstIn p (fun y => [appendChild new y]) forest with
  | Some forest' =>
      length (List.filter sel (elements forest'))
      = S (length (List.filter sel (elements forest)))
  | None => True
  end.
Proof.
  revert forest.
  apply (forest_Element_ind
    (fun e =>
       match replaceFirst p (fun y => [appendChild new y]) e with
       | Some es =>
           length (List.filter sel (elements es))
           = S (length (List.filter sel (subtree e)))
       | None => True
       end)
    (fun forest =>
       match replaceFirstIn p (fun y => [appendChild new y]) forest with
       | Some forest' =>
           length (List.filter sel (elements forest'))
           = S (length (List.filter sel (elements forest)))
       | None => True
       end)).
  - intros u a cs IH. rewrite replaceFirst_Elem.
    destruct (p (Elem u a cs)).
    + unfold appendChild. cbn [uid attrs children elements flat_map].
      rewrite app_nil_r, !subtree_Elem. cbn [List.filter].
      rewrite (sel_shallow u a (cs ++ [new]) cs), elements_app.
      cbn [elements flat_map]. rewrite app_nil_r, List.filter_app, new_counts.
      destruct (sel (Elem u a cs)); cbn [length]; rewrite length_app; cbn; lia.
    + destruct (replaceFirstIn p _ cs) as [cs'|]; [|exact I].
      cbn [elements flat_map]. rewrite app_nil_r, !subtree_Elem.
      cbn [List.filter]. rewrite (sel_shallow u a cs' cs).
      destruct (sel (Elem u a cs)); cbn [length]; lia.
  - exact I.
  - intros e es IHe IHes. cbn [replaceFirstIn].
    destruct (replaceFirst p _ e) as [r|].
    + rewrite elements_app, elements_cons, !List.filter_app, !length_app. lia.
    + destruct (replaceFirstIn p _ es) as [r|]; [|exact I].
      rewrite !elements_cons, !List.filter_app, !length_app. lia.
Qed.

End AppendToFirst.


(* ================================================================= *)
(** * Toasts *)

Section NoMatch.

Variable sel : Element -> bool.
Variable g : Element -> list Element.

(** Where nothing matches, nothing is replaced. *)
Lemma replaceFirstIn_none (forest : list Element) :
  List.filter sel (elements forest) = [] -> replaceFirstIn sel g forest = None.
Proof.
  revert forest.
  apply (forest_Element_ind
    (fun e => List.filter sel (subtree e) = [] -> replaceFirst sel g e = None)
    (fun forest =>
       List.filter sel (elements forest) = [] ->
       replaceFirstIn sel g forest = None)).
  - intros u a cs IH. rewrite replaceFirst_Elem, subtree_Elem.
    cbn [List.filter]. destruct (sel (Elem u a cs)); [discriminate|].
    intros Hnone. now rewrite (IH Hnone).
  - reflexivity.
  - intros e es IHe IHes. rewrite elements_cons, List.filter_app.
    intros Hnone. apply app_eq_nil in Hnone as [He Hes].
    cbn [replaceFirstIn]. now rewrite (IHe He), (IHes Hes).
Qed.

Lemma replaceFirstIn_app (forest rest : list Element) :
  replaceFirstIn sel g forest = None ->
  replaceFirstIn sel g (forest ++ rest)
  = (forest ++.) <$> replaceFirstIn sel g rest.
Proof.
  induction forest as [|e forest IH]; cbn [app replaceFirstIn].
  - intros _. now destruct (replaceFirstIn sel g rest).
  - destruct (replaceFirst sel g e); [discriminate|].
    destruct (replaceFirstIn sel g forest); [discriminate|].
    intros _. rewrite (IH eq_refl). now destruct (replaceFirstIn sel g rest).
Qed.

(** The first match is the element put after a forest without one. *)
Lemma replaceFirstIn_last (forest : list Element) (e : Element) :
  List.filter sel (elements forest) = [] -> sel e = true ->
  replaceFirstIn sel g (forest ++ [e]) = Some (forest ++ g e).
Proof.
  intros Hnone He. rewrite replaceFirstIn_app by now apply replaceFirstIn_none.
  cbn [replaceFirstIn]. destruct e as [u a cs]. rewrite replaceFirst_Elem, He.
  cbn. now rewrite app_nil_r.
Qed.

End NoMatch.

Section ToastFacts.

Variable inheritedText : jsstring -> jsstring.


End ToastFacts.

